(** * sQLux-nextp8 instruction profiler: event codec, call-graph builder,
      function grouper, Callgrind serializer and client buffer manager.

    Shallow embedding of src/profiler/profiler_data.h, profiler_data.cpp,
    profiler_grouped.{h,cpp}, profiler_callgrind.cpp, profiler_events.h,
    profiler_consumer.h, profiler_client.cpp and profiler_thread.cpp.

    Machine integers are [Z] with the wrap-around written out ([u32], [u64]);
    [std::map] and [std::set] are strictly ascending association lists
    (their iteration order is observable in the grouper and the serializer);
    references held by call frames into the cost table are modelled by the
    path of keys they designate; the raw event arrays of the buffer pool are
    finite maps from slot index to word (unwritten slots are indeterminate). *)

From Stdlib Require Import ZArith List Lia Bool String Ascii Sorted Permutation.
From Stdlib Require Import DecimalString HexadecimalString.
From stdpp Require Import base list gmap.
Import ListNotations.
Local Open Scope Z_scope.

(** ** Machine arithmetic *)

Definition u32 (x : Z) : Z := x mod 2 ^ 32.
Definition u64 (x : Z) : Z := x mod 2 ^ 64.

(** ** Event codec (profiler_data.h, profiler_events.h) *)

Inductive EventType : Type :=
  | INSTR_EXECUTE
  | JUMP
  | CALL
  | RETURN
  | DATA_READ
  | DATA_WRITE
  | INSTR_READ.

(** The enumerators' values ([enum class EventType : uint8_t]). *)
Definition EventType_code (t : EventType) : Z :=
  match t with
  | INSTR_EXECUTE => 0x00
  | JUMP => 0x01
  | CALL => 0x02
  | RETURN => 0x03
  | DATA_READ => 0x04
  | DATA_WRITE => 0x05
  | INSTR_READ => 0x06
  end.

(** [static_cast<EventType>] keeps the value; the seven enumerators are the
    only values the [switch] of [ProcessEvent] has a case for. *)
Definition EventType_of_code (c : Z) : option EventType :=
  if c =? 0x00 then Some INSTR_EXECUTE
  else if c =? 0x01 then Some JUMP
  else if c =? 0x02 then Some CALL
  else if c =? 0x03 then Some RETURN
  else if c =? 0x04 then Some DATA_READ
  else if c =? 0x05 then Some DATA_WRITE
  else if c =? 0x06 then Some INSTR_READ
  else None.

(** [GetEventType]: the value of [(event >> 28) & 0xF]. *)
Definition GetEventType (event : Z) : Z :=
  Z.land (Z.shiftr event 28) 0xF.

Definition GetReturnOffset (event : Z) : Z :=
  Z.land (Z.shiftr event 24) 0xF.

Definition GetEventAddress (event : Z) : Z :=
  Z.land event 0x00FFFFFF.

Definition MakeEvent (type : EventType) (address : Z) : Z :=
  Z.lor (u32 (Z.shiftl (EventType_code type) 24)) (Z.land address 0x00FFFFFF).

(** The words the inline recorders of profiler_events.h store. *)
Inductive Recorded : Type :=
  | RecordInstructionExecute (address : Z)
  | RecordJump (address : Z)
  | RecordCall (address return_offset : Z)
  | RecordReturn (address : Z)
  | RecordDataRead (address : Z)
  | RecordDataWrite (address : Z)
  | RecordInstrRead (address : Z).

Definition recorded_word (r : Recorded) : Z :=
  match r with
  | RecordInstructionExecute a => Z.lor (Z.land a 0xffffff) 0x00000000
  | RecordJump a => Z.lor (Z.land a 0xffffff) 0x10000000
  | RecordCall a off =>
      Z.lor (Z.lor (Z.land a 0xffffff) 0x20000000) (u32 (Z.shiftl off 24))
  | RecordReturn a => Z.lor (Z.land a 0xffffff) 0x30000000
  | RecordDataRead a => Z.lor (Z.land a 0xffffff) 0x40000000
  | RecordDataWrite a => Z.lor (Z.land a 0xffffff) 0x50000000
  | RecordInstrRead a => Z.lor (Z.land a 0xffffff) 0x60000000
  end.

(** The type of the event each inline recorder stores. *)
Definition Recorded_type (r : Recorded) : EventType :=
  match r with
  | RecordInstructionExecute _ => INSTR_EXECUTE
  | RecordJump _ => JUMP
  | RecordCall _ _ => CALL
  | RecordReturn _ => RETURN
  | RecordDataRead _ => DATA_READ
  | RecordDataWrite _ => DATA_WRITE
  | RecordInstrRead _ => INSTR_READ
  end.

(** ** Ordered containers

    [std::set<K>] is a strictly ascending list of keys and [std::map<K,V>] a
    strictly ascending association list; [kcmp] is the key order
    ([std::less]).  Iteration is in list order. *)

Section Ordered.
Context {K : Type} (kcmp : K -> K -> comparison).

(** [std::set::insert]. *)
Fixpoint sset_insert (k : K) (s : list K) : list K :=
  match s with
  | [] => [k]
  | k' :: s' =>
      match kcmp k k' with
      | Lt => k :: s
      | Eq => s
      | Gt => k' :: sset_insert k s'
      end
  end.

(** [std::set::count]. *)
Fixpoint sset_count (k : K) (s : list K) : nat :=
  match s with
  | [] => 0%nat
  | k' :: s' =>
      match kcmp k k' with
      | Eq => 1%nat
      | _ => sset_count k s'
      end
  end.

Context {V : Type}.

(** [std::map::find]. *)
Fixpoint smap_find (k : K) (m : list (K * V)) : option V :=
  match m with
  | [] => None
  | (k', v) :: m' =>
      match kcmp k k' with
      | Eq => Some v
      | _ => smap_find k m'
      end
  end.

(** [m[k]] used as an lvalue: the slot is default-constructed as [d] when
    absent, then [f] is applied to it in place. *)
Fixpoint smap_index (k : K) (d : V) (f : V -> V) (m : list (K * V))
  : list (K * V) :=
  match m with
  | [] => [(k, f d)]
  | (k', v) :: m' =>
      match kcmp k k' with
      | Lt => (k, f d) :: m
      | Eq => (k', f v) :: m'
      | Gt => (k', v) :: smap_index k d f m'
      end
  end.

(** [m[k]] used as an rvalue on a non-const map: the value read, and the
    map with the slot default-constructed when it was absent. *)
Definition smap_at (k : K) (d : V) (m : list (K * V)) : V * list (K * V) :=
  (default d (smap_find k m), smap_index k d (fun v => v) m).

(** An update through a reference to an element that is in the map. *)
Fixpoint smap_adjust (k : K) (f : V -> V) (m : list (K * V))
  : list (K * V) :=
  match m with
  | [] => []
  | (k', v) :: m' =>
      match kcmp k k' with
      | Eq => (k', f v) :: m'
      | _ => (k', v) :: smap_adjust k f m'
      end
  end.
End Ordered.

(** [std::pair<uint32_t,uint32_t>] under its lexicographic [operator<]. *)
Definition pair_compare (p q : Z * Z) : comparison :=
  match Z.compare (fst p) (fst q) with
  | Eq => Z.compare (snd p) (snd q)
  | c => c
  end.

(** ** Cost table and call stack (profiler_data.h) *)

Record CallInfo : Type := mkCallInfo {
  call_count : Z;
  inclusive_instructions : Z;
  inclusive_instr_fetches : Z;
  inclusive_data_reads : Z;
  inclusive_data_writes : Z
}.

Definition CallInfo_default : CallInfo := mkCallInfo 0 0 0 0 0.

Record InstructionCost : Type := mkInstructionCost {
  self_cost : Z;
  instr_fetches : Z;
  data_reads : Z;
  data_writes : Z;
  calls : list (Z * CallInfo);
  jumps : list (Z * CallInfo)
}.

Definition InstructionCost_default : InstructionCost :=
  mkInstructionCost 0 0 0 0 [] [].

(** A [CallInfo&] held by a frame designates a node of the cost table:
    [instruction_costs_[source].calls[target]] or
    [instruction_costs_[source].jumps[target]].  Map nodes never move and are
    erased only by [Clear], which also drops every frame, so the reference is
    the path of keys. *)
Inductive CallInfoRef : Type :=
  | CallRef (source target : Z)
  | JumpRef (source target : Z).

Record CallFrame : Type := mkCallFrame {
  address : Z;
  caller_pc : Z;
  return_address : Z;
  call_info : CallInfoRef;
  jump_refs : list ((Z * Z) * CallInfoRef)
}.

Record ProfilerData : Type := mkProfilerData {
  instruction_costs_ : list (Z * InstructionCost);
  call_stack_ : list CallFrame;
  current_pc_ : Z;
  total_instructions_ : Z
}.

(** Field updates ([x.f = ...], [x.f++]). *)
Definition set_self_cost (v : Z) (c : InstructionCost) : InstructionCost :=
  mkInstructionCost v (instr_fetches c) (data_reads c) (data_writes c)
    (calls c) (jumps c).
Definition set_instr_fetches (v : Z) (c : InstructionCost) : InstructionCost :=
  mkInstructionCost (self_cost c) v (data_reads c) (data_writes c)
    (calls c) (jumps c).
Definition set_data_reads (v : Z) (c : InstructionCost) : InstructionCost :=
  mkInstructionCost (self_cost c) (instr_fetches c) v (data_writes c)
    (calls c) (jumps c).
Definition set_data_writes (v : Z) (c : InstructionCost) : InstructionCost :=
  mkInstructionCost (self_cost c) (instr_fetches c) (data_reads c) v
    (calls c) (jumps c).
Definition set_calls (v : list (Z * CallInfo)) (c : InstructionCost)
  : InstructionCost :=
  mkInstructionCost (self_cost c) (instr_fetches c) (data_reads c)
    (data_writes c) v (jumps c).
Definition set_jumps (v : list (Z * CallInfo)) (c : InstructionCost)
  : InstructionCost :=
  mkInstructionCost (self_cost c) (instr_fetches c) (data_reads c)
    (data_writes c) (calls c) v.

Definition incr_call_count (ci : CallInfo) : CallInfo :=
  mkCallInfo (u64 (call_count ci + 1)) (inclusive_instructions ci)
    (inclusive_instr_fetches ci) (inclusive_data_reads ci)
    (inclusive_data_writes ci).
Definition incr_inclusive_instructions (ci : CallInfo) : CallInfo :=
  mkCallInfo (call_count ci) (u64 (inclusive_instructions ci + 1))
    (inclusive_instr_fetches ci) (inclusive_data_reads ci)
    (inclusive_data_writes ci).
Definition incr_inclusive_instr_fetches (ci : CallInfo) : CallInfo :=
  mkCallInfo (call_count ci) (inclusive_instructions ci)
    (u64 (inclusive_instr_fetches ci + 1)) (inclusive_data_reads ci)
    (inclusive_data_writes ci).
Definition incr_inclusive_data_reads (ci : CallInfo) : CallInfo :=
  mkCallInfo (call_count ci) (inclusive_instructions ci)
    (inclusive_instr_fetches ci) (u64 (inclusive_data_reads ci + 1))
    (inclusive_data_writes ci).
Definition incr_inclusive_data_writes (ci : CallInfo) : CallInfo :=
  mkCallInfo (call_count ci) (inclusive_instructions ci)
    (inclusive_instr_fetches ci) (inclusive_data_reads ci)
    (u64 (inclusive_data_writes ci + 1)).

Definition set_jump_refs (v : list ((Z * Z) * CallInfoRef)) (fr : CallFrame)
  : CallFrame :=
  mkCallFrame (address fr) (caller_pc fr) (return_address fr) (call_info fr) v.

(** A write through a frame's reference. *)
Definition update_ref (r : CallInfoRef) (f : CallInfo -> CallInfo)
    (costs : list (Z * InstructionCost)) : list (Z * InstructionCost) :=
  match r with
  | CallRef s t =>
      smap_adjust Z.compare s
        (fun c => set_calls (smap_adjust Z.compare t f (calls c)) c) costs
  | JumpRef s t =>
      smap_adjust Z.compare s
        (fun c => set_jumps (smap_adjust Z.compare t f (jumps c)) c) costs
  end.

(** The body of [for (auto& frame : call_stack_)]: the frame's call edge,
    then every active jump edge of the frame. *)
Definition bump_frame (f : CallInfo -> CallInfo)
    (costs : list (Z * InstructionCost)) (frame : CallFrame)
  : list (Z * InstructionCost) :=
  fold_left (fun cs jump_entry => update_ref (snd jump_entry) f cs)
    (jump_refs frame) (update_ref (call_info frame) f costs).

Definition bump_stack (f : CallInfo -> CallInfo) (stack : list CallFrame)
    (costs : list (Z * InstructionCost)) : list (Z * InstructionCost) :=
  fold_left (bump_frame f) stack costs.

(** ** Event interpreter (profiler_data.cpp) *)

(** The state the constructor of [ProfilerData] leaves. *)
Definition ProfilerData_new : ProfilerData := mkProfilerData [] [] 0 0.

Definition Clear (d : ProfilerData) : ProfilerData :=
  mkProfilerData [] [] 0 0.

Definition ProcessInstructionExecute (addr : Z) (d : ProfilerData)
  : ProfilerData :=
  let costs1 :=
    smap_index Z.compare addr InstructionCost_default
      (fun c => set_self_cost (u64 (self_cost c + 1)) c)
      (instruction_costs_ d) in
  let total := u64 (total_instructions_ d + 1) in
  let '(costs2, stack2) :=
    match call_stack_ d with
    | [] =>
        (smap_index Z.compare 0 InstructionCost_default
           (fun c =>
              set_calls
                (smap_index Z.compare addr CallInfo_default incr_call_count
                   (calls c)) c)
           costs1,
         call_stack_ d ++ [mkCallFrame addr 0 0 (CallRef 0 addr) []])
    | _ :: _ => (costs1, call_stack_ d)
    end in
  mkProfilerData (bump_stack incr_inclusive_instructions stack2 costs2)
    stack2 addr total.

(** [call_stack_.back().jump_refs.insert_or_assign(...)]. *)
Definition back_insert_jump_ref (key : Z * Z) (r : CallInfoRef)
    (stack : list CallFrame) : list CallFrame :=
  match last stack with
  | None => stack
  | Some top =>
      removelast stack ++
        [set_jump_refs
           (smap_index pair_compare key r (fun _ => r) (jump_refs top)) top]
  end.

Definition ProcessJump (addr : Z) (d : ProfilerData) : ProfilerData :=
  let pc := current_pc_ d in
  let costs1 :=
    smap_index Z.compare pc InstructionCost_default
      (fun c =>
         set_jumps
           (smap_index Z.compare addr CallInfo_default incr_call_count
              (jumps c)) c)
      (instruction_costs_ d) in
  mkProfilerData costs1
    (back_insert_jump_ref (pc, addr) (JumpRef pc addr) (call_stack_ d))
    addr (total_instructions_ d).

Definition ProcessCall (addr return_offset : Z) (d : ProfilerData)
  : ProfilerData :=
  let pc := current_pc_ d in
  let costs1 :=
    smap_index Z.compare pc InstructionCost_default
      (fun c =>
         set_calls
           (smap_index Z.compare addr CallInfo_default
              (fun ci => if negb (pc =? 0) then incr_call_count ci else ci)
              (calls c)) c)
      (instruction_costs_ d) in
  mkProfilerData costs1
    (call_stack_ d ++
       [mkCallFrame addr pc (u32 (pc + 2 + return_offset)) (CallRef pc addr)
          []])
    addr (total_instructions_ d).

(** The search loop of [ProcessReturn],
    [for (size_t i = call_stack_.size(); i > 0; --i)], entered at [i]:
    the value of [frames_to_pop] when a frame matches. *)
Fixpoint search_return (stack : list CallFrame) (addr : Z) (i : nat)
  : option nat :=
  match i with
  | O => None
  | S j =>
      match stack !! j with
      | Some fr =>
          if return_address fr =? addr
          then Some (length stack - j)%nat
          else search_return stack addr j
      | None => search_return stack addr j
      end
  end.

(** [frames_to_pop] times [call_stack_.pop_back()]. *)
Fixpoint pop_frames (n : nat) (stack : list CallFrame) : list CallFrame :=
  match n with
  | O => stack
  | S n' => pop_frames n' (removelast stack)
  end.

(** [while (!call_stack_.empty()) call_stack_.pop_back();] with the number
    of iterations bounded by [fuel]. *)
Fixpoint pop_while_nonempty (fuel : nat) (stack : list CallFrame)
  : list CallFrame :=
  match fuel with
  | O => stack
  | S n =>
      match stack with
      | [] => []
      | _ :: _ => pop_while_nonempty n (removelast stack)
      end
  end.

(** The two [printf] lines of the mismatch branch write to standard output
    only and are left out. *)
Definition ProcessReturn (addr : Z) (d : ProfilerData) : ProfilerData :=
  let stack := call_stack_ d in
  match last stack with
  | None =>
      mkProfilerData (instruction_costs_ d) stack addr (total_instructions_ d)
  | Some top =>
      let stack' :=
        if return_address top =? addr then removelast stack
        else
          match search_return stack addr (length stack) with
          | Some frames_to_pop => pop_frames frames_to_pop stack
          | None => pop_while_nonempty (length stack) stack
          end in
      mkProfilerData (instruction_costs_ d) stack' addr
        (total_instructions_ d)
  end.

(** [ProcessDataRead], [ProcessDataWrite] and [ProcessInstrRead] ignore the
    event's address and charge the access to [current_pc_]. *)
Definition ProcessDataRead (addr : Z) (d : ProfilerData) : ProfilerData :=
  let pc := current_pc_ d in
  let costs1 :=
    if negb (pc =? 0)
    then smap_index Z.compare pc InstructionCost_default
           (fun c => set_data_reads (u64 (data_reads c + 1)) c)
           (instruction_costs_ d)
    else instruction_costs_ d in
  mkProfilerData
    (bump_stack incr_inclusive_data_reads (call_stack_ d) costs1)
    (call_stack_ d) pc (total_instructions_ d).

Definition ProcessDataWrite (addr : Z) (d : ProfilerData) : ProfilerData :=
  let pc := current_pc_ d in
  let costs1 :=
    if negb (pc =? 0)
    then smap_index Z.compare pc InstructionCost_default
           (fun c => set_data_writes (u64 (data_writes c + 1)) c)
           (instruction_costs_ d)
    else instruction_costs_ d in
  mkProfilerData
    (bump_stack incr_inclusive_data_writes (call_stack_ d) costs1)
    (call_stack_ d) pc (total_instructions_ d).

Definition ProcessInstrRead (addr : Z) (d : ProfilerData) : ProfilerData :=
  let pc := current_pc_ d in
  let costs1 :=
    if negb (pc =? 0)
    then smap_index Z.compare pc InstructionCost_default
           (fun c => set_instr_fetches (u64 (instr_fetches c + 1)) c)
           (instruction_costs_ d)
    else instruction_costs_ d in
  mkProfilerData
    (bump_stack incr_inclusive_instr_fetches (call_stack_ d) costs1)
    (call_stack_ d) pc (total_instructions_ d).

Definition ProcessEvent (event : Z) (d : ProfilerData) : ProfilerData :=
  let type := GetEventType event in
  let addr := GetEventAddress event in
  match EventType_of_code type with
  | Some INSTR_EXECUTE => ProcessInstructionExecute addr d
  | Some JUMP => ProcessJump addr d
  | Some CALL => ProcessCall addr (GetReturnOffset event) d
  | Some RETURN => ProcessReturn addr d
  | Some DATA_READ => ProcessDataRead addr d
  | Some DATA_WRITE => ProcessDataWrite addr d
  | Some INSTR_READ => ProcessInstrRead addr d
  | None => d
  end.

(** [BufferConsumer::ProcessBuffer]: the events of a buffer, in order. *)
Definition ProcessBuffer (events : list Z) (d : ProfilerData) : ProfilerData :=
  fold_left (fun st event => ProcessEvent event st) events d.

(** The sum [CheckProfilerInvariants] accumulates in a [uint64_t]. *)
Definition sum_self (costs : list (Z * InstructionCost)) : Z :=
  fold_left (fun sum entry => u64 (sum + self_cost (snd entry))) costs 0.

(** The same sum without wrap-around. *)
Definition exact_sum_self (costs : list (Z * InstructionCost)) : Z :=
  fold_right (fun entry acc => self_cost (snd entry) + acc) 0 costs.

(** No [self_cost] of the table is negative (they are [uint64_t]). *)
Definition nonneg_self (e : Z * InstructionCost) : Prop :=
  0 <= self_cost (snd e).

(** ** Function grouper (profiler_grouped.h, profiler_grouped.cpp) *)

Record FunctionCall : Type := mkFunctionCall {
  caller_address : Z;
  target_function : Z;
  fc_call_count : Z;
  fc_inclusive_instructions : Z;
  fc_inclusive_instr_fetches : Z;
  fc_inclusive_data_reads : Z;
  fc_inclusive_data_writes : Z
}.

(** [instructions] holds the [GroupedInstruction]s as (address, cost). *)
Record GroupedFunction : Type := mkGroupedFunction {
  entry_address : Z;
  instructions : list (Z * InstructionCost);
  fn_calls : list FunctionCall;
  total_self_instructions : Z;
  total_self_instr_fetches : Z;
  total_self_data_reads : Z;
  total_self_data_writes : Z
}.

Definition GroupedFunction_default : GroupedFunction :=
  mkGroupedFunction 0 [] [] 0 0 0 0.

Record GroupedProfilerData : Type := mkGroupedProfilerData {
  functions_ : list (Z * GroupedFunction);
  entry_points_ : list Z;
  grouped_total_instructions_ : Z
}.

Definition GetFunctions (g : GroupedProfilerData) := functions_ g.
Definition GetEntryPoints (g : GroupedProfilerData) := entry_points_ g.

Definition AddFunction (entry : Z) (func : GroupedFunction)
    (g : GroupedProfilerData) : GroupedProfilerData :=
  mkGroupedProfilerData
    (smap_index Z.compare entry GroupedFunction_default (fun _ => func)
       (functions_ g))
    (entry_points_ g) (grouped_total_instructions_ g).

Definition SetTotalInstructions (total : Z) (g : GroupedProfilerData)
  : GroupedProfilerData :=
  mkGroupedProfilerData (functions_ g) (entry_points_ g) total.

(** Iterators into a [std::set<uint32_t>] are positions in the ascending
    list: [upper_bound] is the first element greater than [x],
    [lower_bound] the first one not less than [x], [end()] the length. *)
Fixpoint upper_bound (s : list Z) (x : Z) : nat :=
  match s with
  | [] => O
  | e :: s' => if x <? e then O else S (upper_bound s' x)
  end.

Fixpoint lower_bound (s : list Z) (x : Z) : nat :=
  match s with
  | [] => O
  | e :: s' => if x <=? e then O else S (lower_bound s' x)
  end.

(** First loop: every call target is a function entry. *)
Definition call_target_entries (costs : list (Z * InstructionCost)) : list Z :=
  fold_left
    (fun function_entries entry =>
       fold_left
         (fun fe call_entry => sset_insert Z.compare (fst call_entry) fe)
         (calls (snd entry)) function_entries)
    costs [].

(** Body of the inner loop over [cost.jumps]; the state is
    [(function_entries, cross_boundary_jumps)]. *)
Definition scan_jump (source_addr : Z) (st : list Z * list (Z * Z))
    (jump_entry : Z * CallInfo) : list Z * list (Z * Z) :=
  let target_addr := fst jump_entry in
  let min_addr := Z.min source_addr target_addr in
  let max_addr := Z.max source_addr target_addr in
  let lower := upper_bound (fst st) min_addr in
  let upper := lower_bound (fst st) max_addr in
  if negb (Nat.eqb lower upper)
  then (sset_insert Z.compare target_addr (fst st),
        sset_insert pair_compare (source_addr, target_addr) (snd st))
  else st.

(** Second loop: one pass over the cost table in ascending source order. *)
Definition scan_jumps (costs : list (Z * InstructionCost))
    (st : list Z * list (Z * Z)) : list Z * list (Z * Z) :=
  fold_left
    (fun st entry => fold_left (scan_jump (fst entry)) (jumps (snd entry)) st)
    costs st.

(** The local [function_entries] after both loops. *)
Definition function_entries (costs : list (Z * InstructionCost)) : list Z :=
  fst (scan_jumps costs (call_target_entries costs, [])).

Definition cross_boundary_jumps (costs : list (Z * InstructionCost))
  : list (Z * Z) :=
  snd (scan_jumps costs (call_target_entries costs, [])).

(** The largest function entry [<= addr], found with [upper_bound] and one
    step back; [addr] itself when [upper_bound] is [begin()]. *)
Definition owning_function (entries : list Z) (addr : Z) : Z :=
  let it := upper_bound entries addr in
  if negb (Nat.eqb it 0)
  then default addr (entries !! (it - 1)%nat)
  else addr.

Definition build_instruction_to_function (entries : list Z)
    (costs : list (Z * InstructionCost)) : list (Z * Z) :=
  fold_left
    (fun i2f entry =>
       smap_index Z.compare (fst entry) 0
         (fun _ => owning_function entries (fst entry)) i2f)
    costs [].

(** "Group instructions by function": the state is
    [(instruction_to_function, temp_functions)]. *)
Definition group_instructions (costs : list (Z * InstructionCost))
    (i2f : list (Z * Z))
  : list (Z * Z) * list (Z * list (Z * InstructionCost)) :=
  fold_left
    (fun st entry =>
       let '(func_addr, i2f') := smap_at Z.compare (fst entry) 0 (fst st) in
       (i2f',
        smap_index Z.compare func_addr []
          (fun v => v ++ [(fst entry, snd entry)]) (snd st)))
    costs (i2f, []).

Definition make_FunctionCall (addr target_func : Z) (ci : CallInfo)
  : FunctionCall :=
  mkFunctionCall addr target_func (call_count ci) (inclusive_instructions ci)
    (inclusive_instr_fetches ci) (inclusive_data_reads ci)
    (inclusive_data_writes ci).

Definition push_call (fc : FunctionCall) (func : GroupedFunction)
  : GroupedFunction :=
  mkGroupedFunction (entry_address func) (instructions func)
    (fn_calls func ++ [fc]) (total_self_instructions func)
    (total_self_instr_fetches func) (total_self_data_reads func)
    (total_self_data_writes func).

(** Body of the loop over [cost.calls]. *)
Definition add_call (i2f : list (Z * Z)) (addr : Z) (func : GroupedFunction)
    (call_entry : Z * CallInfo) : GroupedFunction :=
  match smap_find Z.compare (fst call_entry) i2f with
  | Some target_func =>
      push_call (make_FunctionCall addr target_func (snd call_entry)) func
  | None => func
  end.

(** Body of the loop over [cost.jumps]: only boundary-crossing jumps are
    turned into calls. *)
Definition add_jump (i2f : list (Z * Z)) (cross : list (Z * Z)) (addr : Z)
    (func : GroupedFunction) (jump_entry : Z * CallInfo) : GroupedFunction :=
  if Nat.eqb (sset_count pair_compare (addr, fst jump_entry) cross) 0
  then func
  else
    match smap_find Z.compare (fst jump_entry) i2f with
    | Some target_func =>
        push_call (make_FunctionCall addr target_func (snd jump_entry)) func
    | None => func
    end.

(** Body of [for (const auto& instr : instructions)]. *)
Definition add_instruction (i2f : list (Z * Z)) (cross : list (Z * Z))
    (func : GroupedFunction) (instr : Z * InstructionCost) : GroupedFunction :=
  let addr := fst instr in
  let cost := snd instr in
  let func1 :=
    mkGroupedFunction (entry_address func)
      (instructions func ++ [(addr, cost)]) (fn_calls func)
      (u64 (total_self_instructions func + self_cost cost))
      (u64 (total_self_instr_fetches func + instr_fetches cost))
      (u64 (total_self_data_reads func + data_reads cost))
      (u64 (total_self_data_writes func + data_writes cost)) in
  let func2 := fold_left (add_call i2f addr) (calls cost) func1 in
  fold_left (add_jump i2f cross addr) (jumps cost) func2.

Definition build_function (i2f : list (Z * Z)) (cross : list (Z * Z))
    (func_addr : Z) (instrs : list (Z * InstructionCost)) : GroupedFunction :=
  fold_left (add_instruction i2f cross) instrs
    (mkGroupedFunction func_addr [] [] 0 0 0 0).

Definition ConvertToGroupedData (data : ProfilerData) : GroupedProfilerData :=
  let grouped :=
    SetTotalInstructions (total_instructions_ data)
      (mkGroupedProfilerData [] [] 0) in
  let costs := instruction_costs_ data in
  match costs with
  | [] => grouped
  | _ :: _ =>
      let entries := function_entries costs in
      let cross := cross_boundary_jumps costs in
      let i2f := build_instruction_to_function entries costs in
      let '(i2f', temp_functions) := group_instructions costs i2f in
      fold_left
        (fun g func_entry =>
           AddFunction (fst func_entry)
             (build_function i2f' cross (fst func_entry) (snd func_entry)) g)
        temp_functions grouped
  end.


Definition recorded_call_target (costs : list (Z * InstructionCost)) (t : Z)
  : Prop :=
  exists s c ci, In (s, c) costs /\ In (t, ci) (calls c).

(** [e] owns [addr] among [entries]: it is the largest entry not above
    [addr], or [addr] itself when every entry is above it. *)
Definition owns (entries : list Z) (addr e : Z) : Prop :=
  (In e entries /\ e <= addr /\
   forall e', In e' entries -> e' <= addr -> e' <= e) \/
  ((forall e', In e' entries -> addr < e') /\ e = addr).



(** ** Callgrind serializer (profiler_callgrind.cpp)

    The output stream is the string written so far. *)

Definition nl : string := String "010"%char EmptyString.

(** [out << v] for an integer in decimal and for a [uint32_t] under
    [std::hex]. *)
Definition dec (z : Z) : string :=
  DecimalString.NilZero.string_of_int (Z.to_int z).

Definition hex (z : Z) : string :=
  HexadecimalString.NilZero.string_of_uint (N.to_hex_uint (Z.to_N z)).

Definition put (out : string) (s : string) : string := String.append out s.

(** "Cycles = Instructions + InstructionFetch * 3 + DataReads * 3 +
    DataWrites * 3", in [uint64_t]. *)
Definition cycles_of (instrs fetches reads writes : Z) : Z :=
  u64 (u64 (u64 (instrs + u64 (fetches * 3)) + u64 (reads * 3))
       + u64 (writes * 3)).

(** The four values that follow the position on a cost line. *)
Definition put_costs (out : string) (cycles instrs reads writes : Z)
  : string :=
  put (put (put (put (put (put (put (put (put out
    " ") (dec cycles)) " ") (dec instrs)) " ") (dec reads)) " ")
    (dec writes)) nl.

(** "Calculate totals across all functions": the loop of [WriteHeader]. *)
Definition function_totals (fs : list (Z * GroupedFunction))
  : Z * Z * Z * Z :=
  fold_left
    (fun '(ti, tf, tr, tw) func_entry =>
       let func := snd func_entry in
       (u64 (ti + total_self_instructions func),
        u64 (tf + total_self_instr_fetches func),
        u64 (tr + total_self_data_reads func),
        u64 (tw + total_self_data_writes func)))
    fs (0, 0, 0, 0).

Definition WriteHeader (out : string) (data : GroupedProfilerData) : string :=
  let out := put out "# callgrind format" in
  let out := put out nl in
  let out := put (put out "version: 1") nl in
  let out := put (put out "creator: sqlux-profiler") nl in
  let out := put (put out "cmd: sqlux") nl in
  let out := put out nl in
  let out := put (put out "positions: instr") nl in
  let out :=
    put (put out "events: Cycles Instructions DataReads DataWrites") nl in
  let '(total_instructions, total_instr_fetches, total_data_reads,
        total_data_writes) := function_totals (GetFunctions data) in
  let total_cycles :=
    cycles_of total_instructions total_instr_fetches total_data_reads
      total_data_writes in
  let out :=
    put (put (put (put (put (put (put (put (put out
      "summary: ") (dec total_cycles)) " ") (dec total_instructions)) " ")
      (dec total_data_reads)) " ") (dec total_data_writes)) nl in
  put out nl.

(** The format of a cost line after its position:
    [ <cycles> <instructions> <dataReads> <dataWrites>] and a newline. *)
Definition cost_fields_text (cycles instrs reads writes : Z) : string :=
  (" " ++ dec cycles ++ " " ++ dec instrs ++ " " ++ dec reads ++ " "
       ++ dec writes ++ nl)%string.

(** The format of the position of a self-cost line for [addr] when the
    previous position was [last]: absolute, a signed delta, or [*]. *)
Definition position_text (last addr : Z) (pos : string) : Prop :=
  pos = ("0x" ++ hex addr)%string \/
  pos = ("+" ++ dec (addr - last))%string \/
  pos = dec (addr - last) \/
  pos = "*"%string.

(** The lines of the header before the summary. *)
Definition header_preamble : string :=
  ("# callgrind format" ++ nl ++ "version: 1" ++ nl
     ++ "creator: sqlux-profiler" ++ nl ++ "cmd: sqlux" ++ nl ++ nl
     ++ "positions: instr" ++ nl
     ++ "events: Cycles Instructions DataReads DataWrites" ++ nl)%string.

(** The four sums of [WriteHeader], one at a time. *)
Definition sum_over_functions (field : GroupedFunction -> Z)
    (fs : list (Z * GroupedFunction)) : Z :=
  fold_left (fun acc func_entry => u64 (acc + field (snd func_entry))) fs 0.

(** The position of a self-cost line: absolute for the first address of a
    block, else relative when within 1000 of the previous one. *)
Definition put_position (out : string) (last_address addr : Z) : string :=
  if last_address =? 0 then put (put out "0x") (hex addr)
  else
    let diff := addr - last_address in
    if (0 <? diff) && (diff <=? 1000) then put (put out "+") (dec diff)
    else if (diff <? 0) && (-1000 <=? diff) then put out (dec diff)
    else if diff =? 0 then put out "*"
    else put (put out "0x") (hex addr).

(** Body of the loop over the calls recorded at one address; the state is
    [(out, last_address)]. *)
Definition write_call (st : string * Z) (call : FunctionCall) : string * Z :=
  let out := fst st in
  let out := put (put (put out "cfn=0x") (hex (target_function call))) nl in
  let out :=
    put (put (put (put (put out "calls=") (dec (fc_call_count call))) " 0x")
           (hex (target_function call))) nl in
  let incl_cycles :=
    cycles_of (fc_inclusive_instructions call)
      (fc_inclusive_instr_fetches call) (fc_inclusive_data_reads call)
      (fc_inclusive_data_writes call) in
  let out := put (put out "0x") (hex (caller_address call)) in
  let out :=
    put_costs out incl_cycles (fc_inclusive_instructions call)
      (fc_inclusive_data_reads call) (fc_inclusive_data_writes call) in
  (out, caller_address call).

(** Body of the loop over [func.instructions]. *)
Definition write_instruction
    (calls_by_address : list (Z * list FunctionCall)) (st : string * Z)
    (instr : Z * InstructionCost) : string * Z :=
  let addr := fst instr in
  let cost := snd instr in
  let out := put_position (fst st) (snd st) addr in
  let cycles :=
    cycles_of (self_cost cost) (instr_fetches cost) (data_reads cost)
      (data_writes cost) in
  let out :=
    put_costs out cycles (self_cost cost) (data_reads cost)
      (data_writes cost) in
  match smap_find Z.compare addr calls_by_address with
  | Some cs => fold_left write_call cs (out, addr)
  | None => (out, addr)
  end.

Definition build_calls_by_address (cs : list FunctionCall)
  : list (Z * list FunctionCall) :=
  fold_left
    (fun m call =>
       smap_index Z.compare (caller_address call) [] (fun v => v ++ [call]) m)
    cs [].

(** Body of the loop over the functions. *)
Definition write_function (out : string) (func_entry : Z * GroupedFunction)
  : string :=
  let func := snd func_entry in
  let out := put (put (put out "fn=0x") (hex (fst func_entry))) nl in
  let st :=
    fold_left (write_instruction (build_calls_by_address (fn_calls func)))
      (instructions func) (out, 0) in
  put (fst st) nl.

Definition WriteBody (out : string) (data : GroupedProfilerData) : string :=
  match GetFunctions data with
  | [] => out
  | _ :: _ => fold_left write_function (GetFunctions data) out
  end.

(** What [WriteToFile] leaves in the file when it could be opened. *)
Definition WriteToFile (data : GroupedProfilerData) : string :=
  WriteBody (WriteHeader EmptyString data) data.

(** ** Event buffers and the client buffer manager
    (profiler_consumer.h, profiler_thread.cpp, profiler_client.cpp,
    profiler_events.h)

    This is the emitting thread's side only.  An [EventBuffer*] is the index
    of the buffer in [buffer_pool_]; a [uint32_t*] into a buffer is the pair
    of that index and a slot number ([size_t] offsets are in [Z]), [None]
    being [nullptr].  The [events]
    array is not initialised by the constructor, so it is a finite map from
    slot to word. *)

Definition BUFFER_SIZE : Z := 8192.
Definition BUFFER_POOL_SIZE : nat := 16.

Record EventBuffer : Type := mkEventBuffer {
  events : gmap Z Z;
  count : Z
}.

Record ProfilerThread : Type := mkProfilerThread {
  running_ : bool;
  filled_buffers_ : list nat;
  empty_buffers_ : list nat;
  buffer_pool_ : list EventBuffer
}.

(** [switch_calls] is a history variable: the number of calls of
    [Profiler_SwitchBuffer] made so far.  [g_client_buffer_manager] is the
    manager's [current_buffer_] when the manager exists. *)
Record World : Type := mkWorld {
  g_profiler : option ProfilerThread;
  g_client_buffer_manager : option (option nat);
  profiler_current_buffer_ptr : option (nat * Z);
  profiler_buffer_end_ptr : option (nat * Z);
  switch_calls : nat
}.

(** What a call on the emitting thread comes to when no other thread runs:
    it returns, it waits on a condition variable for the consumer thread, or
    it stores through a pointer that designates no slot. *)
Inductive outcome (A : Type) : Type :=
  | Done (a : A)
  | Blocked
  | Undefined.
Arguments Done {A} a.
Arguments Blocked {A}.
Arguments Undefined {A}.

Definition outcome_bind {A B : Type} (o : outcome A) (k : A -> outcome B)
  : outcome B :=
  match o with
  | Done a => k a
  | Blocked => Blocked
  | Undefined => Undefined
  end.

Notation "x <-- e ;; k" := (outcome_bind e (fun x => k))
  (at level 100, e at next level, right associativity).

Definition PushFilledBuffer (buffer : nat) (p : ProfilerThread)
  : ProfilerThread :=
  mkProfilerThread (running_ p) (filled_buffers_ p ++ [buffer])
    (empty_buffers_ p) (buffer_pool_ p).

(** The one-time warning on [std::cerr] is left out. *)
Definition GetEmptyBuffer (p : ProfilerThread)
  : outcome (option nat * ProfilerThread) :=
  match empty_buffers_ p with
  | [] => if running_ p then Blocked else Done (None, p)
  | buffer :: rest =>
      Done (Some buffer,
            mkProfilerThread (running_ p) (filled_buffers_ p) rest
              (buffer_pool_ p))
  end.

Definition InitializeEmptyBuffers (p : ProfilerThread) : ProfilerThread :=
  mkProfilerThread (running_ p) (filled_buffers_ p)
    (seq 0 BUFFER_POOL_SIZE)
    (map (fun b => mkEventBuffer (events b) 0) (buffer_pool_ p)).

(** [InitializeProfiler]: the object is created and started; the consumer
    thread it spawns is not part of this model. *)
Definition InitializeProfiler (w : World) : World :=
  match g_profiler w with
  | Some _ => w
  | None =>
      let fresh :=
        mkProfilerThread false [] []
          (replicate BUFFER_POOL_SIZE (mkEventBuffer ∅ 0)) in
      let started :=
        InitializeEmptyBuffers
          (mkProfilerThread true (filled_buffers_ fresh)
             (empty_buffers_ fresh) (buffer_pool_ fresh)) in
      mkWorld (Some started) (g_client_buffer_manager w)
        (profiler_current_buffer_ptr w) (profiler_buffer_end_ptr w)
        (switch_calls w)
  end.

Definition UpdateGlobalPointers (current_buffer_ : option nat) (w : World)
  : World :=
  match current_buffer_ with
  | Some b =>
      mkWorld (g_profiler w) (g_client_buffer_manager w) (Some (b, 0))
        (Some (b, BUFFER_SIZE)) (switch_calls w)
  | None =>
      mkWorld (g_profiler w) (g_client_buffer_manager w) None None
        (switch_calls w)
  end.

(** The constructor of [ClientBufferManager], as run by
    [GetClientBufferManager] when no manager exists yet. *)
Definition GetClientBufferManager (w : World) : outcome World :=
  match g_client_buffer_manager w with
  | Some _ => Done w
  | None =>
      match g_profiler w with
      | Some p =>
          r <-- GetEmptyBuffer p ;;
          Done
            (UpdateGlobalPointers (fst r)
               (mkWorld (Some (snd r)) (Some (fst r))
                  (profiler_current_buffer_ptr w)
                  (profiler_buffer_end_ptr w) (switch_calls w)))
      | None =>
          Done
            (mkWorld None (Some None) (profiler_current_buffer_ptr w)
               (profiler_buffer_end_ptr w) (switch_calls w))
      end
  end.

Definition Profiler_Initialize (w : World) : outcome World :=
  GetClientBufferManager (InitializeProfiler w).

(** The process before [Profiler_Initialize]. *)
Definition World_initial : World := mkWorld None None None None O.

(** [ClientBufferManager::SwitchBuffer].  [current_buffer_->count] is the
    distance of the write cursor from the start of the current buffer's
    array; the subtraction has no meaning when the cursor is not in it. *)
Definition SwitchBuffer (w : World) : outcome World :=
  match g_profiler w, g_client_buffer_manager w with
  | None, _ => Done w
  | Some _, None => Undefined
  | Some p, Some current_buffer_ =>
      p1 <--
        match current_buffer_ with
        | Some b =>
            match profiler_current_buffer_ptr w with
            | Some (b', i) =>
                if decide (b' = b)
                then
                  Done
                    (PushFilledBuffer b
                       (mkProfilerThread (running_ p) (filled_buffers_ p)
                          (empty_buffers_ p)
                          (alter (fun buf => mkEventBuffer (events buf) i) b
                             (buffer_pool_ p))))
                else Undefined
            | None => Undefined
            end
        | None => Done p
        end ;;
      r <-- GetEmptyBuffer p1 ;;
      Done
        (UpdateGlobalPointers (fst r)
           (mkWorld (Some (snd r)) (Some (fst r))
              (profiler_current_buffer_ptr w) (profiler_buffer_end_ptr w)
              (switch_calls w)))
  end.

(** The C-linkage [Profiler_SwitchBuffer]. *)
Definition Profiler_SwitchBuffer (w : World) : outcome World :=
  w1 <-- GetClientBufferManager
           (mkWorld (g_profiler w) (g_client_buffer_manager w)
              (profiler_current_buffer_ptr w) (profiler_buffer_end_ptr w)
              (S (switch_calls w))) ;;
  SwitchBuffer w1.

(** [*profiler_current_buffer_ptr++ = word]: the slot must exist. *)
Definition store_and_advance (word : Z) (w : World) : outcome World :=
  match profiler_current_buffer_ptr w, g_profiler w with
  | Some (b, i), Some p =>
      match buffer_pool_ p !! b with
      | Some buf =>
          if (0 <=? i) && (i <? BUFFER_SIZE)
          then
            Done
              (mkWorld
                 (Some
                    (mkProfilerThread (running_ p) (filled_buffers_ p)
                       (empty_buffers_ p)
                       (<[b := mkEventBuffer (<[i := word]> (events buf))
                                 (count buf)]> (buffer_pool_ p))))
                 (g_client_buffer_manager w) (Some (b, i + 1))
                 (profiler_buffer_end_ptr w) (switch_calls w))
          else Undefined
      | None => Undefined
      end
  | _, _ => Undefined
  end.

(** The common body of the seven inline recorders: store the word, advance
    the cursor, and switch buffers when the cursor meets the end pointer.
    The cycle-accounting calls made under [#ifdef PROFILER] by three of them
    belong to profiler_cost_model.h and do not touch the buffers. *)
Definition record_word (word : Z) (w : World) : outcome World :=
  w1 <-- store_and_advance word w ;;
  if decide (profiler_current_buffer_ptr w1 = profiler_buffer_end_ptr w1)
  then Profiler_SwitchBuffer w1
  else Done w1.

Definition Profiler_RecordInstructionExecute (a : Z) :=
  record_word (recorded_word (RecordInstructionExecute a)).
Definition Profiler_RecordJump (a : Z) :=
  record_word (recorded_word (RecordJump a)).
Definition Profiler_RecordCall (a return_offset : Z) :=
  record_word (recorded_word (RecordCall a return_offset)).
Definition Profiler_RecordReturn (a : Z) :=
  record_word (recorded_word (RecordReturn a)).
Definition Profiler_RecordDataRead (a : Z) :=
  record_word (recorded_word (RecordDataRead a)).
Definition Profiler_RecordDataWrite (a : Z) :=
  record_word (recorded_word (RecordDataWrite a)).
Definition Profiler_RecordInstrRead (a : Z) :=
  record_word (recorded_word (RecordInstrRead a)).

Definition Profiler_Record (r : Recorded) : World -> outcome World :=
  match r with
  | RecordInstructionExecute a => Profiler_RecordInstructionExecute a
  | RecordJump a => Profiler_RecordJump a
  | RecordCall a off => Profiler_RecordCall a off
  | RecordReturn a => Profiler_RecordReturn a
  | RecordDataRead a => Profiler_RecordDataRead a
  | RecordDataWrite a => Profiler_RecordDataWrite a
  | RecordInstrRead a => Profiler_RecordInstrRead a
  end.

(** A sequence of recorder calls made by the emulator. *)
Fixpoint record_all (rs : list Recorded) (w : World) : outcome World :=
  match rs with
  | [] => Done w
  | r :: rs' => w1 <-- Profiler_Record r w ;; record_all rs' w1
  end.

(** The emitter holds buffer [b], acquired and not yet written to, and
    buffer [b'] is at the front of the empty queue. *)
Definition freshly_acquired (w : World) (b b' : nat) : Prop :=
  exists p rest,
    g_profiler w = Some p /\
    g_client_buffer_manager w = Some (Some b) /\
    profiler_current_buffer_ptr w = Some (b, 0) /\
    profiler_buffer_end_ptr w = Some (b, BUFFER_SIZE) /\
    empty_buffers_ p = b' :: rest /\
    (b < length (buffer_pool_ p))%nat /\
    (b' < length (buffer_pool_ p))%nat.

(** The process after [Profiler_Initialize] has returned. *)
Definition World_started : World :=
  match Profiler_Initialize World_initial with
  | Done w => w
  | _ => World_initial
  end.

(** The world in which the emitter is filling buffer [b] at slot [i]. *)
Definition filling (p : ProfilerThread) (b : nat) (i : Z) (calls_so_far : nat)
  : World :=
  mkWorld (Some p) (Some (Some b)) (Some (b, i)) (Some (b, BUFFER_SIZE))
    calls_so_far.

(** The pool after [word] has been stored in slot [i] of buffer [b]. *)
Definition store_in (b : nat) (i : Z) (word : Z) (p : ProfilerThread)
  : ProfilerThread :=
  match buffer_pool_ p !! b with
  | Some buf =>
      mkProfilerThread (running_ p) (filled_buffers_ p) (empty_buffers_ p)
        (<[b := mkEventBuffer (<[i := word]> (events buf)) (count buf)]>
           (buffer_pool_ p))
  | None => p
  end.

Fixpoint stores (b : nat) (i : Z) (rs : list Recorded) (p : ProfilerThread)
  : ProfilerThread :=
  match rs with
  | [] => p
  | r :: rs' => stores b (i + 1) rs' (store_in b i (recorded_word r) p)
  end.

(** The profiler after the full buffer [b] has been handed over and [b']
    taken from the empty queue. *)
Definition handed_over (b : nat) (p : ProfilerThread) : ProfilerThread :=
  mkProfilerThread (running_ p) (filled_buffers_ p ++ [b])
    (tail (empty_buffers_ p))
    (alter (fun buf => mkEventBuffer (events buf) BUFFER_SIZE) b
       (buffer_pool_ p)).

(** ** Further definitions used by the properties below *)

(** The address argument of a recorder call. *)
Definition Recorded_address (r : Recorded) : Z :=
  match r with
  | RecordInstructionExecute a | RecordJump a | RecordCall a _
  | RecordReturn a | RecordDataRead a | RecordDataWrite a
  | RecordInstrRead a => a
  end.

(** What [ProcessEvent] is expected to do with the word of a recorder call:
    the handler of the recorder's type, on the address cut to 24 bits. *)
Definition Process_recorded (r : Recorded) (d : ProfilerData) : ProfilerData :=
  match r with
  | RecordInstructionExecute a => ProcessInstructionExecute (a mod 2 ^ 24) d
  | RecordJump a => ProcessJump (a mod 2 ^ 24) d
  | RecordCall a off => ProcessCall (a mod 2 ^ 24) off d
  | RecordReturn a => ProcessReturn (a mod 2 ^ 24) d
  | RecordDataRead a => ProcessDataRead (a mod 2 ^ 24) d
  | RecordDataWrite a => ProcessDataWrite (a mod 2 ^ 24) d
  | RecordInstrRead a => ProcessInstrRead (a mod 2 ^ 24) d
  end.

(** The return offset of a call fits the four bits the event has for it. *)
Definition offset_fits (r : Recorded) : Prop :=
  match r with
  | RecordCall _ off => 0 <= off < 16
  | _ => True
  end.

(** The part of a frame that identifies the call it stands for. *)
Definition frame_core (fr : CallFrame) : Z * Z * Z * CallInfoRef :=
  (address fr, caller_pc fr, return_address fr, call_info fr).

(** The four per-address counters of a table entry. *)
Definition counters (c : InstructionCost) : Z * Z * Z * Z :=
  (self_cost c, instr_fetches c, data_reads c, data_writes c).

(** The counters the table holds for an address ([None] when the address has
    no entry). *)
Definition counters_at (costs : list (Z * InstructionCost)) (a : Z)
  : option (Z * Z * Z * Z) :=
  option_map counters (smap_find Z.compare a costs).

(** A frame as the interpreter makes them from decoded events: 24-bit
    addresses, and an expected return address that is 0 for a synthesized
    root or the call site plus 2 plus a return offset below 16. *)
Definition frame_in_range (fr : CallFrame) : Prop :=
  0 <= address fr < 2 ^ 24 /\
  0 <= caller_pc fr < 2 ^ 24 /\
  ((caller_pc fr = 0 /\ return_address fr = 0) \/
   exists r, 0 <= r < 16 /\ return_address fr = caller_pc fr + 2 + r).

(** A reference designates a node that is in the table. *)
Definition ref_live (costs : list (Z * InstructionCost)) (r : CallInfoRef)
  : Prop :=
  match r with
  | CallRef s t =>
      exists c ci,
        smap_find Z.compare s costs = Some c /\
        smap_find Z.compare t (calls c) = Some ci
  | JumpRef s t =>
      exists c ci,
        smap_find Z.compare s costs = Some c /\
        smap_find Z.compare t (jumps c) = Some ci
  end.

(** The references of a frame: its call edge is the edge from its call site
    to its entry address, each active jump is filed under its own (source,
    target) pair, and all of them are in the table. *)
Definition frame_live (costs : list (Z * InstructionCost)) (fr : CallFrame)
  : Prop :=
  call_info fr = CallRef (caller_pc fr) (address fr) /\
  ref_live costs (call_info fr) /\
  Forall
    (fun je =>
       snd je = JumpRef (fst (fst je)) (snd (fst je)) /\
       ref_live costs (snd je))
    (jump_refs fr).

(** Every edge of [c] is an edge of [c']. *)
Definition edges_kept (c c' : InstructionCost) : Prop :=
  (forall t, smap_find Z.compare t (calls c) <> None ->
             smap_find Z.compare t (calls c') <> None) /\
  (forall t, smap_find Z.compare t (jumps c) <> None ->
             smap_find Z.compare t (jumps c') <> None).

(** ** Invariant checker (profiler_invariants.cpp)

    The value [CheckProfilerInvariants] returns; what it prints is left out.
    The counters are [uint64_t], so each comparison [x < 0] is made on the
    unsigned value. *)
Definition CheckProfilerInvariants (data : ProfilerData) : bool :=
  let costs := instruction_costs_ data in
  let total_instructions := total_instructions_ data in
  let valid := true in
  let valid :=
    if negb (sum_self costs =? total_instructions) then false else valid in
  fold_left
    (fun valid entry =>
       let cost := snd entry in
       let valid :=
         if total_instructions <? self_cost cost then false else valid in
       fold_left
         (fun valid call_entry =>
            let call_info := snd call_entry in
            if (u64 (inclusive_instructions call_info) <? 0)
               || (u64 (inclusive_instr_fetches call_info) <? 0)
               || (u64 (inclusive_data_reads call_info) <? 0)
               || (u64 (inclusive_data_writes call_info) <? 0)
            then false else valid)
         (calls cost) valid)
    costs valid.

(** A [uint64_t] sum of one counter over a list of (address, cost) pairs, as
    the checkers and the grouper accumulate it. *)
Definition sum_field (field : InstructionCost -> Z)
    (instrs : list (Z * InstructionCost)) : Z :=
  fold_left (fun acc instr => u64 (acc + field (snd instr))) instrs 0.

(** ** Flushing (profiler_data.cpp, profiler_thread.cpp) *)

Definition Finalize (d : ProfilerData) : ProfilerData := d.

(** What [ProfilerThread::FlushToFile] writes when the output file can be
    opened. *)
Definition FlushToFile (data_ : ProfilerData) : string :=
  WriteToFile (ConvertToGroupedData (Finalize data_)).

(** The pieces of a text, one after the other. *)
Definition concat_strings (l : list string) : string :=
  fold_right String.append EmptyString l.

(** [fc] is what the grouper emits for an edge of the instruction [a] with
    cost [c]: a recorded call to [t], or a recorded jump to [t] that is
    marked in [cross]; [t] must be in [i2f], which gives the target
    function. *)
Definition emitted_by (i2f : list (Z * Z)) (cross : list (Z * Z)) (a : Z)
    (c : InstructionCost) (fc : FunctionCall) : Prop :=
  exists t ci v,
    smap_find Z.compare t i2f = Some v /\
    fc = make_FunctionCall a v ci /\
    (In (t, ci) (calls c) \/
     (In (t, ci) (jumps c) /\
      sset_count pair_compare (a, t) cross <> O)).

(** ** Event buffers, the consumer thread and the client's shutdown
    (profiler_consumer.h, profiler_consumer.cpp, profiler_thread.cpp,
    profiler_client.cpp) *)

Definition EventBuffer_Clear (buf : EventBuffer) : EventBuffer :=
  mkEventBuffer (events buf) 0.

Definition IsFull (buf : EventBuffer) : bool := BUFFER_SIZE <=? count buf.

Definition AddEvent (event : Z) (buf : EventBuffer) : EventBuffer :=
  if count buf <? BUFFER_SIZE
  then mkEventBuffer (<[count buf := event]> (events buf)) (count buf + 1)
  else buf.

(** The loop of [BufferConsumer::ProcessBuffer] from index [i], with [n]
    iterations left: [events[i]] must be a slot of the array that has been
    written. *)
Fixpoint process_slots (ev : gmap Z Z) (i : Z) (n : nat) (d : ProfilerData)
  : outcome ProfilerData :=
  match n with
  | O => Done d
  | S n' =>
      if (0 <=? i) && (i <? BUFFER_SIZE)
      then
        match ev !! i with
        | Some word => process_slots ev (i + 1) n' (ProcessEvent word d)
        | None => Undefined
        end
      else Undefined
  end.

(** [BufferConsumer::ProcessBuffer] on a buffer of the pool: the events
    below [count] go to [ProcessEvent] in index order, then the buffer is
    cleared.  A null pointer is ignored. *)
Definition BufferConsumer_ProcessBuffer (buffer : option nat)
    (pool : list EventBuffer) (data_ : ProfilerData)
  : outcome (list EventBuffer * ProfilerData) :=
  match buffer with
  | None => Done (pool, data_)
  | Some b =>
      match pool !! b with
      | Some buf =>
          d <-- process_slots (events buf) 0 (Z.to_nat (count buf)) data_ ;;
          Done (<[b := EventBuffer_Clear buf]> pool, d)
      | None => Undefined
      end
  end.

(** The consumer thread inside the loop of [ProfilerThread::ThreadFunc]:
    about to lock [filled_mutex_] and look at the filled queue; holding a
    buffer it has taken and about to call [ProcessBuffer]; about to lock
    [empty_mutex_] and give the buffer back. *)
Inductive ConsumerAt : Type :=
  | AtTake
  | AtProcess (buffer : nat)
  | AtGiveBack (buffer : nat).

(** The two threads together: the emitting thread's world, the consumer
    thread's position and the [data_] it feeds. *)
Record Machine : Type := mkMachine {
  m_world : World;
  m_at : ConsumerAt;
  m_data : ProfilerData
}.

Definition set_profiler (p : ProfilerThread) (w : World) : World :=
  mkWorld (Some p) (g_client_buffer_manager w)
    (profiler_current_buffer_ptr w) (profiler_buffer_end_ptr w)
    (switch_calls w).

(** One step of the consumer thread.  Each queue is touched under its
    mutex and a buffer that has left a queue is touched only by the thread
    that took it, so the three parts of an iteration are taken as single
    steps.  The timed wait returns with or without a buffer; the periodic
    flush reads [data_] without changing it and is left out. *)
Definition ThreadFunc_step (m : Machine) : outcome Machine :=
  match g_profiler (m_world m) with
  | None => Done m
  | Some p =>
      match m_at m with
      | AtTake =>
          if running_ p
          then
            match filled_buffers_ p with
            | [] => Done m
            | buffer :: rest =>
                Done
                  (mkMachine
                     (set_profiler
                        (mkProfilerThread (running_ p) rest
                           (empty_buffers_ p) (buffer_pool_ p))
                        (m_world m))
                     (AtProcess buffer) (m_data m))
            end
          else Done m
      | AtProcess buffer =>
          r <-- BufferConsumer_ProcessBuffer (Some buffer) (buffer_pool_ p)
                  (m_data m) ;;
          Done
            (mkMachine
               (set_profiler
                  (mkProfilerThread (running_ p) (filled_buffers_ p)
                     (empty_buffers_ p) (fst r))
                  (m_world m))
               (AtGiveBack buffer) (snd r))
      | AtGiveBack buffer =>
          Done
            (mkMachine
               (set_profiler
                  (mkProfilerThread (running_ p) (filled_buffers_ p)
                     (empty_buffers_ p ++ [buffer]) (buffer_pool_ p))
                  (m_world m))
               AtTake (m_data m))
      end
  end.

(** [CleanupClient], with the destructor of [ClientBufferManager]: the
    count of the current buffer is set from the write cursor and the buffer
    is queued as filled when it holds at least one event.  The global
    pointers are left as they are. *)
Definition CleanupClient (w : World) : outcome World :=
  match g_client_buffer_manager w with
  | None => Done w
  | Some current_buffer_ =>
      w1 <--
        match current_buffer_ with
        | Some b =>
            match profiler_current_buffer_ptr w, g_profiler w with
            | Some (b', i), Some p =>
                if decide (b' = b)
                then
                  let p1 :=
                    mkProfilerThread (running_ p) (filled_buffers_ p)
                      (empty_buffers_ p)
                      (alter (fun buf => mkEventBuffer (events buf) i) b
                         (buffer_pool_ p)) in
                  Done
                    (set_profiler
                       (if 0 <? i then PushFilledBuffer b p1 else p1) w)
                else Undefined
            | _, _ => Undefined
            end
        | None => Done w
        end ;;
      Done
        (mkWorld (g_profiler w1) None (profiler_current_buffer_ptr w1)
           (profiler_buffer_end_ptr w1) (switch_calls w1))
  end.

(** A schedule: recorder calls of the emulator interleaved with steps of
    the consumer thread.  A recorder call, with the buffer switch it may
    make, is one step; [Blocked] says that at this point of the schedule
    the call has to wait for the consumer. *)
Inductive Action : Type :=
  | Emit (r : Recorded)
  | Consume.

Definition run_action (a : Action) (m : Machine) : outcome Machine :=
  match a with
  | Emit r =>
      w <-- Profiler_Record r (m_world m) ;;
      Done (mkMachine w (m_at m) (m_data m))
  | Consume => ThreadFunc_step m
  end.

Fixpoint run (acts : list Action) (m : Machine) : outcome Machine :=
  match acts with
  | [] => Done m
  | a :: acts' => m1 <-- run_action a m ;; run acts' m1
  end.

(** The words the recorder calls of a schedule store, in order. *)
Fixpoint emitted (acts : list Action) : list Z :=
  match acts with
  | [] => []
  | Emit r :: acts' => recorded_word r :: emitted acts'
  | Consume :: acts' => emitted acts'
  end.

(** Both threads after [Profiler_Initialize]. *)
Definition Machine_started : Machine :=
  mkMachine World_started AtTake ProfilerData_new.

(** The words in slots [i .. i + n - 1] of an array, when all are written. *)
Fixpoint read_slots (ev : gmap Z Z) (i : Z) (n : nat) : option (list Z) :=
  match n with
  | O => Some []
  | S n' =>
      match ev !! i, read_slots ev (i + 1) n' with
      | Some word, Some l => Some (word :: l)
      | _, _ => None
      end
  end.

(** The events a queued buffer holds: those below its count. *)
Definition queued_words (pool : list EventBuffer) (b : nat)
  : option (list Z) :=
  match pool !! b with
  | Some buf =>
      if (0 <=? count buf) && (count buf <=? BUFFER_SIZE)
      then read_slots (events buf) 0 (Z.to_nat (count buf))
      else None
  | None => None
  end.

Fixpoint queue_words (pool : list EventBuffer) (q : list nat)
  : option (list Z) :=
  match q with
  | [] => Some []
  | b :: q' =>
      match queued_words pool b, queue_words pool q' with
      | Some l, Some r => Some (l ++ r)
      | _, _ => None
      end
  end.

(** The events the emitter has written below its cursor. *)
Definition cursor_words (w : World) (pool : list EventBuffer)
  : option (list Z) :=
  match g_client_buffer_manager w with
  | Some (Some b) =>
      match profiler_current_buffer_ptr w, pool !! b with
      | Some (b', i), Some buf =>
          if decide (b' = b)
          then read_slots (events buf) 0 (Z.to_nat i)
          else None
      | _, _ => None
      end
  | _ => Some []
  end.

(** The events of the buffer the consumer holds and has not processed. *)
Definition held_words (c : ConsumerAt) (pool : list EventBuffer)
  : option (list Z) :=
  match c with
  | AtProcess b => queued_words pool b
  | _ => Some []
  end.

(** The events recorded and not yet given to [ProcessEvent], oldest first:
    those of the buffer the consumer holds, of the filled queue from its
    front, and of the emitter's current buffer. *)
Definition pending (m : Machine) : option (list Z) :=
  match g_profiler (m_world m) with
  | Some p =>
      match
        held_words (m_at m) (buffer_pool_ p),
        queue_words (buffer_pool_ p) (filled_buffers_ p),
        cursor_words (m_world m) (buffer_pool_ p)
      with
      | Some h, Some q, Some c => Some (h ++ q ++ c)
      | _, _, _ => None
      end
  | None => None
  end.

Definition held (c : ConsumerAt) : list nat :=
  match c with
  | AtTake => []
  | AtProcess b => [b]
  | AtGiveBack b => [b]
  end.

Definition current (w : World) : list nat :=
  match g_client_buffer_manager w with
  | Some (Some b) => [b]
  | _ => []
  end.

(** Where the buffers of the pool are: with the emitter, with the
    consumer, in the filled queue, in the empty queue. *)
Definition in_use (m : Machine) : list nat :=
  match g_profiler (m_world m) with
  | Some p =>
      current (m_world m) ++ held (m_at m) ++ filled_buffers_ p
        ++ empty_buffers_ p
  | None => []
  end.

Definition emitter_ok (w : World) : Prop :=
  match g_client_buffer_manager w with
  | Some (Some b) =>
      exists i,
        profiler_current_buffer_ptr w = Some (b, i) /\
        profiler_buffer_end_ptr w = Some (b, BUFFER_SIZE) /\
        0 <= i < BUFFER_SIZE
  | Some None => False
  | None => True
  end.

(** The emitter holds a buffer. *)
Definition Emitting (m : Machine) : Prop :=
  exists b, g_client_buffer_manager (m_world m) = Some (Some b).

(** What holds of the two threads between steps: [ws] are the words
    recorded since [data_] was [d0]. *)
Definition Inv (d0 : ProfilerData) (ws : list Z) (m : Machine) : Prop :=
  exists p processed rest,
    g_profiler (m_world m) = Some p /\
    running_ p = true /\
    length (buffer_pool_ p) = BUFFER_POOL_SIZE /\
    List.NoDup (in_use m) /\
    (forall x, In x (in_use m) -> (x < BUFFER_POOL_SIZE)%nat) /\
    (Emitting m -> length (in_use m) = BUFFER_POOL_SIZE) /\
    emitter_ok (m_world m) /\
    m_data m = ProcessBuffer processed d0 /\
    pending m = Some rest /\
    processed ++ rest = ws.


(** The consumer steps needed to work off the filled queue: three for each
    queued buffer, and those left of the iteration in progress. *)
Definition backlog (m : Machine) : nat :=
  match g_profiler (m_world m) with
  | Some p =>
      (3 * length (filled_buffers_ p) +
       match m_at m with
       | AtTake => 0
       | AtProcess _ => 2
       | AtGiveBack _ => 1
       end)%nat
  | None => O
  end.

(** The number of events recorded when every buffer of the filled queue is
    full: those buffers' and the ones below the cursor. *)
Definition recorded_count (m : Machine) : Z :=
  match g_profiler (m_world m), profiler_current_buffer_ptr (m_world m) with
  | Some p, Some (_, i) =>
      Z.of_nat (length (filled_buffers_ p)) * BUFFER_SIZE + i
  | _, _ => 0
  end.

(** Membership in a list given in full. *)
Ltac find_in := repeat first [left; reflexivity | right].

(** ** Edges of the cost table *)

(** The [CallInfo] a reference designates, when the table holds it. *)
Definition edge_info (costs : list (Z * InstructionCost)) (r : CallInfoRef)
  : option CallInfo :=
  match r with
  | CallRef s t =>
      match smap_find Z.compare s costs with
      | Some c => smap_find Z.compare t (calls c)
      | None => None
      end
  | JumpRef s t =>
      match smap_find Z.compare s costs with
      | Some c => smap_find Z.compare t (jumps c)
      | None => None
      end
  end.

Definition CallInfoRef_eqb (r r' : CallInfoRef) : bool :=
  match r, r' with
  | CallRef s t, CallRef s' t' => (s =? s') && (t =? t')
  | JumpRef s t, JumpRef s' t' => (s =? s') && (t =? t')
  | _, _ => false
  end.

(** The references a frame holds, in the order in which the loop over the
    stack writes through them: its call edge, then its active jumps. *)
Definition frame_refs (fr : CallFrame) : list CallInfoRef :=
  call_info fr :: map snd (jump_refs fr).

Fixpoint count_refs (r : CallInfoRef) (l : list CallInfoRef) : nat :=
  match l with
  | [] => O
  | r' :: l' => ((if CallInfoRef_eqb r r' then 1 else 0) + count_refs r l')%nat
  end.

(** How many references to the edge [r] the frames of a stack hold. *)
Definition refs_to (r : CallInfoRef) (stack : list CallFrame) : nat :=
  count_refs r (flat_map frame_refs stack).

(** The [calls] and [jumps] maps of every entry are in key order. *)
Definition edge_maps_sorted (costs : list (Z * InstructionCost)) : Prop :=
  Forall
    (fun e =>
       StronglySorted Z.lt (map fst (calls (snd e))) /\
       StronglySorted Z.lt (map fst (jumps (snd e))))
    costs.

(** The three lines [WriteBody] writes for a call: the called function, the
    count with the target position, and the inclusive costs at the caller's
    address. *)
Definition call_text (call : FunctionCall) : string :=
  ("cfn=0x" ++ hex (target_function call) ++ nl
     ++ "calls=" ++ dec (fc_call_count call) ++ " 0x"
     ++ hex (target_function call) ++ nl
     ++ "0x" ++ hex (caller_address call)
     ++ cost_fields_text
          (u64 (fc_inclusive_instructions call
                + 3 * (fc_inclusive_instr_fetches call
                       + fc_inclusive_data_reads call
                       + fc_inclusive_data_writes call)))
          (fc_inclusive_instructions call) (fc_inclusive_data_reads call)
          (fc_inclusive_data_writes call))%string.

(** * Verification *)

(** ** Event codec *)

(** [MakeEvent] keeps the address: the type bits lie above bit 23. *)
Lemma MakeEvent_address (t : EventType) (a : Z) :
  0 <= a < 2 ^ 24 -> GetEventAddress (MakeEvent t a) = a.
Proof.
  intros Ha. unfold GetEventAddress, MakeEvent.
  rewrite Z.land_lor_distr_l.
  replace (Z.land (u32 (Z.shiftl (EventType_code t) 24)) 16777215) with 0
    by (destruct t; reflexivity).
  rewrite Z.lor_0_l, <- Z.land_assoc, Z.land_diag.
  change 16777215 with (Z.ones 24).
  rewrite Z.land_ones by lia. apply Z.mod_small. lia.
Qed.

(** [MakeEvent] puts the type in bits 24..27, [GetEventType] reads bits
    28..31: every event made by [MakeEvent] decodes to type 0. *)
Lemma MakeEvent_type_is_zero (t : EventType) (a : Z) :
  GetEventType (MakeEvent t a) = 0.
Proof.
  unfold GetEventType, MakeEvent.
  rewrite Z.shiftr_lor.
  replace (Z.shiftr (u32 (Z.shiftl (EventType_code t) 24)) 28) with 0
    by (destruct t; reflexivity).
  rewrite Z.lor_0_l.
  change 16777215 with (Z.ones 24).
  rewrite Z.land_ones by lia.
  rewrite Z.shiftr_div_pow2 by lia.
  rewrite Z.div_small; [reflexivity|].
  pose proof (Z.mod_pos_bound a (2 ^ 24)). lia.
Qed.

Lemma land_ones24_shiftr28 (a : Z) : Z.shiftr (Z.land a 16777215) 28 = 0.
Proof.
  change 16777215 with (Z.ones 24).
  rewrite Z.land_ones by lia.
  rewrite Z.shiftr_div_pow2 by lia.
  apply Z.div_small. pose proof (Z.mod_pos_bound a (2 ^ 24)). lia.
Qed.

(** The sibling encoder, the recorders of profiler_events.h, does round-trip
    through [GetEventType] (for a call, when the return offset is below 16). *)
Lemma recorded_word_type (r : Recorded) :
  match r with RecordCall _ off => 0 <= off < 16 | _ => True end ->
  GetEventType (recorded_word r) = EventType_code (Recorded_type r).
Proof.
  intros Hoff. unfold GetEventType.
  destruct r; simpl recorded_word;
    rewrite ?Z.shiftr_lor, ?land_ones24_shiftr28; try reflexivity.
  replace (Z.shiftr (u32 (Z.shiftl return_offset 24)) 28) with 0.
  - reflexivity.
  - symmetry. unfold u32. rewrite Z.shiftl_mul_pow2 by lia.
    rewrite Z.mod_small by lia.
    rewrite Z.shiftr_div_pow2 by lia. apply Z.div_small. lia.
Qed.

(** C2 (code defect): [MakeEvent] shifts the type by 24 where [GetEventType]
    and the recorders use 28, so the type of a [JUMP] event made by
    [MakeEvent] is read back as [INSTR_EXECUTE]; only the address is
    recovered. *)
Theorem MakeEvent_JUMP_decodes_as_INSTR_EXECUTE :
  GetEventType (MakeEvent JUMP 0x1000) = EventType_code INSTR_EXECUTE /\
  GetEventType (MakeEvent JUMP 0x1000) <> EventType_code JUMP /\
  GetEventAddress (MakeEvent JUMP 0x1000) = 0x1000 /\
  GetEventType (recorded_word (RecordJump 0x1000)) = EventType_code JUMP.
Proof. repeat split; try reflexivity. vm_compute. discriminate. Qed.

(** ** Call stack *)

Lemma pop_while_nonempty_clears (stack : list CallFrame) (fuel : nat) :
  (length stack <= fuel)%nat -> pop_while_nonempty fuel stack = [].
Proof.
  revert stack. induction fuel as [|n IH]; intros stack Hlen.
  - destruct stack; [reflexivity | simpl in Hlen; lia].
  - destruct stack as [|fr stack']; [reflexivity|].
    cbn [pop_while_nonempty]. apply IH.
    destruct (exists_last (l := fr :: stack')) as (l & x & E);
      [discriminate|].
    rewrite E, removelast_last. rewrite E in Hlen.
    rewrite length_app in Hlen. simpl in Hlen. lia.
Qed.

Lemma search_return_none (stack : list CallFrame) (addr : Z) (i : nat) :
  (forall fr, In fr stack -> return_address fr <> addr) ->
  search_return stack addr i = None.
Proof.
  intros Hno. induction i as [|j IH]; [reflexivity|].
  cbn [search_return]. destruct (stack !! j) as [fr|] eqn:E; [|exact IH].
  assert (Hin : In fr stack).
  { apply list_elem_of_In. eapply list_elem_of_lookup_2. exact E. }
  destruct (Z.eqb_spec (return_address fr) addr) as [Heq|_]; [|exact IH].
  exfalso. exact (Hno fr Hin Heq).
Qed.

Lemma last_In (stack : list CallFrame) (fr : CallFrame) :
  last stack = Some fr -> In fr stack.
Proof.
  intros H. apply last_Some in H. destruct H as [l ->].
  apply in_or_app. right. left. reflexivity.
Qed.

Lemma pop_frames_firstn (n : nat) (stack : list CallFrame) :
  pop_frames n stack = firstn (length stack - n) stack.
Proof.
  revert stack. induction n as [|n IH]; intros stack; cbn [pop_frames].
  - rewrite Nat.sub_0_r. symmetry. apply firstn_all.
  - rewrite IH, removelast_firstn_len, firstn_firstn.
    rewrite length_firstn. f_equal. lia.
Qed.

(** ** Ordered maps keyed by addresses *)

Lemma smap_find_index_same {V : Type} (k : Z) (d : V) (f : V -> V)
    (m : list (Z * V)) :
  exists v, smap_find Z.compare k (smap_index Z.compare k d f m) = Some (f v).
Proof.
  induction m as [|[k' v'] m IH]; simpl.
  - rewrite Z.compare_refl. eauto.
  - destruct (Z.compare k k') eqn:E; simpl.
    + rewrite E. eauto.
    + rewrite Z.compare_refl. eauto.
    + rewrite E. exact IH.
Qed.

Lemma smap_find_adjust_same {V : Type} (k : Z) (f : V -> V)
    (m : list (Z * V)) (v : V) :
  smap_find Z.compare k m = Some v ->
  smap_find Z.compare k (smap_adjust Z.compare k f m) = Some (f v).
Proof.
  induction m as [|[k' v'] m IH]; simpl; [discriminate|].
  destruct (Z.compare k k') eqn:E; simpl; rewrite E; auto.
  intros [= ->]. reflexivity.
Qed.

Lemma ProcessReturn_frame (addr : Z) (d : ProfilerData) :
  instruction_costs_ (ProcessReturn addr d) = instruction_costs_ d /\
  total_instructions_ (ProcessReturn addr d) = total_instructions_ d.
Proof.
  unfold ProcessReturn. destruct (last (call_stack_ d)); split; reflexivity.
Qed.

(** C10: [ProcessReturn] changes neither the instruction-cost table nor the
    total-instruction counter, in any of its branches (empty stack, normal
    return, multi-frame unwind, full reset); what is left of the call stack
    is a prefix of the old one, and current-pc becomes the address. *)
Theorem ProcessReturn_preserves_costs (addr : Z) (d : ProfilerData) :
  instruction_costs_ (ProcessReturn addr d) = instruction_costs_ d /\
  total_instructions_ (ProcessReturn addr d) = total_instructions_ d /\
  current_pc_ (ProcessReturn addr d) = addr /\
  exists n, call_stack_ (ProcessReturn addr d) = firstn n (call_stack_ d).
Proof.
  unfold ProcessReturn. destruct (last (call_stack_ d)) as [top|]; simpl.
  - repeat split.
    destruct (return_address top =? addr).
    + eexists. apply removelast_firstn_len.
    + destruct (search_return _ _ _).
      * eexists. apply pop_frames_firstn.
      * exists O. rewrite pop_while_nonempty_clears by lia.
        destruct (call_stack_ d); reflexivity.
  - repeat split. exists (length (call_stack_ d)).
    symmetry. apply firstn_all.
Qed.

(** C7: from current-pc [p], [ProcessCall t r] pushes exactly one frame, with
    expected return address [p + 2 + r], and sets current-pc to [t]; a later
    [ProcessReturn] to [p + 2 + r] in any state that has such a frame on top
    pops that frame only, and right after the call it restores the stack. *)
Theorem ProcessCall_pushes_ProcessReturn_pops
    (d : ProfilerData) (t r : Z) :
  0 <= current_pc_ d + 2 + r < 2 ^ 32 ->
  let p := current_pc_ d in
  let d1 := ProcessCall t r d in
  (exists fr,
     call_stack_ d1 = call_stack_ d ++ [fr] /\
     return_address fr = p + 2 + r /\ address fr = t /\ caller_pc fr = p) /\
  current_pc_ d1 = t /\
  (forall d2 rest fr,
     call_stack_ d2 = rest ++ [fr] -> return_address fr = p + 2 + r ->
     call_stack_ (ProcessReturn (p + 2 + r) d2) = rest /\
     current_pc_ (ProcessReturn (p + 2 + r) d2) = p + 2 + r) /\
  call_stack_ (ProcessReturn (p + 2 + r) d1) = call_stack_ d.
Proof.
  intros Hrange p d1.
  assert (Hpop : forall d2 rest fr,
     call_stack_ d2 = rest ++ [fr] -> return_address fr = p + 2 + r ->
     call_stack_ (ProcessReturn (p + 2 + r) d2) = rest /\
     current_pc_ (ProcessReturn (p + 2 + r) d2) = p + 2 + r).
  { intros d2 rest fr Hst Hret. unfold ProcessReturn.
    rewrite Hst, last_snoc. rewrite Hret, Z.eqb_refl. simpl.
    rewrite removelast_last. auto. }
  assert (Hra : u32 (p + 2 + r) = p + 2 + r)
    by (unfold u32; apply Z.mod_small; exact Hrange).
  split; [|split; [reflexivity|split; [exact Hpop|]]].
  - eexists. split; [reflexivity|]. simpl. auto.
  - eapply (proj1 (Hpop d1 (call_stack_ d) _ eq_refl _)).
    Unshelve. simpl. exact Hra.
Qed.

(** C6: a return to an address that no frame of a non-empty stack expects
    empties the call stack and sets current-pc to that address; the next
    [InstrExecute], at any address [b], then pushes a single root frame (no
    caller, no return address) whose call edge is the entry [0 -> b] of the
    cost table. *)
Theorem ProcessReturn_mismatch_resets_stack (d : ProfilerData) (addr : Z) :
  call_stack_ d <> [] ->
  (forall fr, In fr (call_stack_ d) -> return_address fr <> addr) ->
  let d1 := ProcessReturn addr d in
  call_stack_ d1 = [] /\ current_pc_ d1 = addr /\
  forall b,
    let d2 := ProcessInstructionExecute b d1 in
    call_stack_ d2 = [mkCallFrame b 0 0 (CallRef 0 b) []] /\
    current_pc_ d2 = b /\
    exists c ci,
      smap_find Z.compare 0 (instruction_costs_ d2) = Some c /\
      smap_find Z.compare b (calls c) = Some ci.
Proof.
  intros Hne Hno d1.
  assert (Hst : call_stack_ d1 = []).
  { subst d1. unfold ProcessReturn.
    destruct (last (call_stack_ d)) as [top|] eqn:El.
    - simpl. pose proof (Hno top (last_In _ _ El)) as Htop.
      apply Z.eqb_neq in Htop. rewrite Htop.
      rewrite search_return_none by exact Hno.
      apply pop_while_nonempty_clears. lia.
    - apply last_None in El. contradiction. }
  split; [exact Hst|]. split.
  { subst d1. unfold ProcessReturn.
    destruct (last (call_stack_ d)); reflexivity. }
  intros b d2. subst d2. unfold ProcessInstructionExecute. rewrite Hst.
  cbn [app call_stack_ current_pc_ instruction_costs_].
  split; [reflexivity|]. split; [reflexivity|].
  cbn [bump_stack fold_left bump_frame jump_refs call_info update_ref].
  match goal with
  | |- context [smap_adjust Z.compare 0 ?g (smap_index Z.compare 0 ?dflt ?f ?m)] =>
      destruct (smap_find_index_same 0 dflt f m) as [v Hv];
      pose proof (smap_find_adjust_same 0 g _ _ Hv) as Hv'
  end.
  destruct (smap_find_index_same b CallInfo_default incr_call_count (calls v))
    as [w Hw].
  eexists. eexists. split; [exact Hv'|].
  cbn [calls set_calls].
  exact (smap_find_adjust_same b incr_inclusive_instructions _ _ Hw).
Qed.

(** ** Conservation of the instruction count *)

Lemma u64_add_l (a b c : Z) : u64 a = u64 b -> u64 (a + c) = u64 (b + c).
Proof.
  unfold u64. intros H.
  rewrite <- (Zplus_mod_idemp_l a), <- (Zplus_mod_idemp_l b), H. reflexivity.
Qed.

Lemma u64_add_r (a b c : Z) : u64 a = u64 b -> u64 (c + a) = u64 (c + b).
Proof. rewrite !(Z.add_comm c). apply u64_add_l. Qed.

Lemma u64_idemp_l (a c : Z) : u64 (u64 a + c) = u64 (a + c).
Proof. unfold u64. apply Zplus_mod_idemp_l. Qed.

Lemma sum_self_exact (costs : list (Z * InstructionCost)) :
  sum_self costs = u64 (exact_sum_self costs).
Proof.
  unfold sum_self.
  assert (H : forall s,
    fold_left (fun sum entry => u64 (sum + self_cost (snd entry))) costs
      (u64 s) = u64 (s + exact_sum_self costs)).
  { induction costs as [|e m IH]; intros s; simpl.
    - f_equal. lia.
    - rewrite u64_idemp_l, IH. f_equal. lia. }
  exact (H 0).
Qed.

Lemma exact_sum_index_bump (k : Z) (f : InstructionCost -> InstructionCost)
    (m : list (Z * InstructionCost)) (delta : Z) :
  (forall v, u64 (self_cost (f v)) = u64 (self_cost v + delta)) ->
  u64 (exact_sum_self (smap_index Z.compare k InstructionCost_default f m))
  = u64 (exact_sum_self m + delta).
Proof.
  intros Hf. induction m as [|[k' v'] m IH]; simpl.
  - rewrite Z.add_0_r. apply Hf.
  - destruct (Z.compare k k'); simpl.
    + rewrite (u64_add_l _ _ _ (Hf v')). f_equal. lia.
    + rewrite (u64_add_l _ _ _ (Hf InstructionCost_default)). simpl.
      f_equal. lia.
    + rewrite (u64_add_r _ _ _ IH). f_equal. lia.
Qed.

Lemma exact_sum_index_keep (k : Z) (f : InstructionCost -> InstructionCost)
    (m : list (Z * InstructionCost)) :
  (forall v, self_cost (f v) = self_cost v) ->
  exact_sum_self (smap_index Z.compare k InstructionCost_default f m)
  = exact_sum_self m.
Proof.
  intros Hf. induction m as [|[k' v'] m IH]; simpl.
  - rewrite Hf. reflexivity.
  - destruct (Z.compare k k'); simpl; rewrite ?Hf, ?IH; reflexivity.
Qed.

Lemma exact_sum_adjust_keep (k : Z) (f : InstructionCost -> InstructionCost)
    (m : list (Z * InstructionCost)) :
  (forall v, self_cost (f v) = self_cost v) ->
  exact_sum_self (smap_adjust Z.compare k f m) = exact_sum_self m.
Proof.
  intros Hf. induction m as [|[k' v'] m IH]; simpl; [reflexivity|].
  destruct (Z.compare k k'); simpl; rewrite ?Hf, ?IH; reflexivity.
Qed.

Lemma exact_sum_update_ref (r : CallInfoRef) (f : CallInfo -> CallInfo)
    (m : list (Z * InstructionCost)) :
  exact_sum_self (update_ref r f m) = exact_sum_self m.
Proof.
  destruct r; simpl; apply exact_sum_adjust_keep; reflexivity.
Qed.

Lemma exact_sum_bump_stack (f : CallInfo -> CallInfo)
    (stack : list CallFrame) (m : list (Z * InstructionCost)) :
  exact_sum_self (bump_stack f stack m) = exact_sum_self m.
Proof.
  unfold bump_stack. revert m.
  induction stack as [|fr stack IH]; intros m; simpl; [reflexivity|].
  rewrite IH. unfold bump_frame.
  rewrite <- (exact_sum_update_ref (call_info fr) f m).
  generalize (update_ref (call_info fr) f m) as m1.
  induction (jump_refs fr) as [|j js IHj]; intros m1; simpl.
  - reflexivity.
  - rewrite IHj. apply exact_sum_update_ref.
Qed.

(** The invariant of the call-graph builder that C3 is about. *)
Lemma ProcessEvent_conserves (event : Z) (d : ProfilerData) :
  u64 (exact_sum_self (instruction_costs_ d)) = total_instructions_ d ->
  u64 (exact_sum_self (instruction_costs_ (ProcessEvent event d)))
  = total_instructions_ (ProcessEvent event d).
Proof.
  intros Inv. unfold ProcessEvent.
  destruct (EventType_of_code (GetEventType event)) as [[]|];
    try exact Inv.
  - (* INSTR_EXECUTE *)
    unfold ProcessInstructionExecute.
    set (costs1 := smap_index Z.compare _ _ _ (instruction_costs_ d)).
    assert (H1 : u64 (exact_sum_self costs1)
                 = u64 (exact_sum_self (instruction_costs_ d) + 1)).
    { apply exact_sum_index_bump. intros v. simpl. unfold u64.
      apply Z.mod_mod. lia. }
    destruct (call_stack_ d) as [|fr stack];
      cbn [instruction_costs_ total_instructions_];
      rewrite exact_sum_bump_stack, ?exact_sum_index_keep by reflexivity;
      rewrite H1, <- Inv; symmetry; apply u64_idemp_l.
  - (* JUMP *)
    unfold ProcessJump. cbn [instruction_costs_ total_instructions_].
    rewrite exact_sum_index_keep by reflexivity. exact Inv.
  - (* CALL *)
    unfold ProcessCall. cbn [instruction_costs_ total_instructions_].
    rewrite exact_sum_index_keep by reflexivity. exact Inv.
  - (* RETURN *)
    destruct (ProcessReturn_frame (GetEventAddress event) d) as [-> ->].
    exact Inv.
  - (* DATA_READ *)
    unfold ProcessDataRead. cbn [instruction_costs_ total_instructions_].
    rewrite exact_sum_bump_stack.
    destruct (negb (current_pc_ d =? 0));
      rewrite ?exact_sum_index_keep by reflexivity; exact Inv.
  - (* DATA_WRITE *)
    unfold ProcessDataWrite. cbn [instruction_costs_ total_instructions_].
    rewrite exact_sum_bump_stack.
    destruct (negb (current_pc_ d =? 0));
      rewrite ?exact_sum_index_keep by reflexivity; exact Inv.
  - (* INSTR_READ *)
    unfold ProcessInstrRead. cbn [instruction_costs_ total_instructions_].
    rewrite exact_sum_bump_stack.
    destruct (negb (current_pc_ d =? 0));
      rewrite ?exact_sum_index_keep by reflexivity; exact Inv.
Qed.

Lemma ProcessBuffer_conserves (evs : list Z) (d : ProfilerData) :
  u64 (exact_sum_self (instruction_costs_ d)) = total_instructions_ d ->
  u64 (exact_sum_self (instruction_costs_ (ProcessBuffer evs d)))
  = total_instructions_ (ProcessBuffer evs d).
Proof.
  unfold ProcessBuffer. revert d.
  induction evs as [|e evs IH]; intros d Inv; simpl; [exact Inv|].
  apply IH, ProcessEvent_conserves, Inv.
Qed.

Lemma exact_sum_nonneg (m : list (Z * InstructionCost)) :
  Forall nonneg_self m -> 0 <= exact_sum_self m.
Proof.
  induction 1 as [|e m He _ IH]; simpl; [lia|]. unfold nonneg_self in He. lia.
Qed.

Lemma self_cost_le_exact_sum (m : list (Z * InstructionCost))
    (v : InstructionCost) :
  Forall nonneg_self m -> In v (map snd m) -> self_cost v <= exact_sum_self m.
Proof.
  induction 1 as [|e m He Hm IH]; simpl; [contradiction|].
  unfold nonneg_self in He. pose proof (exact_sum_nonneg m Hm).
  intros [<-|Hin]; [lia|]. specialize (IH Hin). lia.
Qed.

Lemma exact_sum_index_exact (k : Z) (f : InstructionCost -> InstructionCost)
    (m : list (Z * InstructionCost)) (delta : Z) :
  (forall v, v = InstructionCost_default \/ In v (map snd m) ->
     self_cost (f v) = self_cost v + delta) ->
  exact_sum_self (smap_index Z.compare k InstructionCost_default f m)
  = exact_sum_self m + delta.
Proof.
  induction m as [|[k' v'] m IH]; intros Hf; simpl.
  - rewrite Hf by auto. simpl. lia.
  - destruct (Z.compare k k'); simpl.
    + rewrite Hf by (simpl; auto). lia.
    + rewrite Hf by auto. simpl. lia.
    + rewrite IH; [lia|]. intros v [->|Hv]; apply Hf; simpl; auto.
Qed.

Lemma nonneg_index (k : Z) (f : InstructionCost -> InstructionCost)
    (m : list (Z * InstructionCost)) :
  (forall v, 0 <= self_cost v -> 0 <= self_cost (f v)) ->
  Forall nonneg_self m ->
  Forall nonneg_self (smap_index Z.compare k InstructionCost_default f m).
Proof.
  intros Hf. induction 1 as [|[k' v'] m He Hm IH]; simpl.
  - constructor; [|constructor]. apply Hf. simpl. lia.
  - destruct (Z.compare k k').
    + constructor; [apply Hf; exact He|exact Hm].
    + constructor; [apply Hf; simpl; lia|]. constructor; assumption.
    + constructor; assumption.
Qed.

Lemma nonneg_adjust (k : Z) (f : InstructionCost -> InstructionCost)
    (m : list (Z * InstructionCost)) :
  (forall v, self_cost (f v) = self_cost v) ->
  Forall nonneg_self m -> Forall nonneg_self (smap_adjust Z.compare k f m).
Proof.
  intros Hf. induction 1 as [|[k' v'] m He Hm IH]; simpl; [constructor|].
  destruct (Z.compare k k'); constructor; try assumption.
  unfold nonneg_self in *. simpl in *. rewrite Hf. exact He.
Qed.

Lemma nonneg_bump_stack (f : CallInfo -> CallInfo) (stack : list CallFrame)
    (m : list (Z * InstructionCost)) :
  Forall nonneg_self m -> Forall nonneg_self (bump_stack f stack m).
Proof.
  assert (Href : forall r m, Forall nonneg_self m ->
            Forall nonneg_self (update_ref r f m)).
  { intros [s t|s t] m0 H0; simpl; apply nonneg_adjust; auto. }
  unfold bump_stack. revert m.
  induction stack as [|fr stack IH]; intros m Hm; simpl; [exact Hm|].
  apply IH. unfold bump_frame.
  pose proof (Href (call_info fr) m Hm) as H0. revert H0.
  generalize (update_ref (call_info fr) f m).
  induction (jump_refs fr) as [|j js IHj]; intros m1 H1; simpl;
    [exact H1|].
  apply IHj, Href, H1.
Qed.

(** As long as fewer than 2^64 events have been seen, no counter has
    wrapped and the sum of the [self_cost]s, as an integer, is the counter. *)
Lemma ProcessEvent_conserves_exactly (event : Z) (d : ProfilerData) (n : Z) :
  n + 1 < 2 ^ 64 ->
  Forall nonneg_self (instruction_costs_ d) /\
  exact_sum_self (instruction_costs_ d) = total_instructions_ d /\
  total_instructions_ d <= n ->
  Forall nonneg_self (instruction_costs_ (ProcessEvent event d)) /\
  exact_sum_self (instruction_costs_ (ProcessEvent event d))
  = total_instructions_ (ProcessEvent event d) /\
  total_instructions_ (ProcessEvent event d) <= n + 1.
Proof.
  intros Hn (Hnn & Hsum & Hle). unfold ProcessEvent.
  pose proof (exact_sum_nonneg _ Hnn) as Hpos.
  destruct (EventType_of_code (GetEventType event)) as [[]|];
    try (split; [exact Hnn|split; [exact Hsum|lia]]).
  - (* INSTR_EXECUTE *)
    unfold ProcessInstructionExecute.
    set (costs1 := smap_index Z.compare _ _ _ (instruction_costs_ d)).
    assert (Hsmall : forall v,
              v = InstructionCost_default \/
              In v (map snd (instruction_costs_ d)) ->
              u64 (self_cost v + 1) = self_cost v + 1).
    { intros v Hv. unfold u64. apply Z.mod_small.
      destruct Hv as [->|Hv]; [simpl; lia|].
      pose proof (self_cost_le_exact_sum _ v Hnn Hv).
      assert (0 <= self_cost v).
      { rewrite List.Forall_forall in Hnn. apply in_map_iff in Hv.
        destruct Hv as (e & <- & He). exact (Hnn e He). }
      lia. }
    assert (H1 : exact_sum_self costs1
                 = exact_sum_self (instruction_costs_ d) + 1).
    { apply exact_sum_index_exact. intros v Hv. simpl. apply Hsmall, Hv. }
    assert (Hnn1 : Forall nonneg_self costs1).
    { apply nonneg_index; [|exact Hnn]. intros v _. simpl. unfold u64.
      apply Z.mod_pos_bound. lia. }
    assert (Ht : u64 (total_instructions_ d + 1) = total_instructions_ d + 1)
      by (unfold u64; apply Z.mod_small; lia).
    destruct (call_stack_ d) as [|fr stack];
      cbn [instruction_costs_ total_instructions_]; rewrite Ht;
      (split; [apply nonneg_bump_stack|split; [|lia]]).
    + apply nonneg_index; [|exact Hnn1]. intros v Hv. exact Hv.
    + rewrite exact_sum_bump_stack, exact_sum_index_keep by reflexivity. lia.
    + exact Hnn1.
    + rewrite exact_sum_bump_stack. lia.
  - (* JUMP *)
    unfold ProcessJump. cbn [instruction_costs_ total_instructions_].
    split; [apply nonneg_index; auto|].
    rewrite exact_sum_index_keep by reflexivity. split; [exact Hsum|lia].
  - (* CALL *)
    unfold ProcessCall. cbn [instruction_costs_ total_instructions_].
    split; [apply nonneg_index; auto|].
    rewrite exact_sum_index_keep by reflexivity. split; [exact Hsum|lia].
  - (* RETURN *)
    destruct (ProcessReturn_frame (GetEventAddress event) d) as [-> ->].
    split; [exact Hnn|split; [exact Hsum|lia]].
  - (* DATA_READ *)
    unfold ProcessDataRead. cbn [instruction_costs_ total_instructions_].
    rewrite exact_sum_bump_stack.
    destruct (negb (current_pc_ d =? 0));
      rewrite ?exact_sum_index_keep by reflexivity;
      (split; [apply nonneg_bump_stack; try apply nonneg_index; auto|
               split; [exact Hsum|lia]]).
  - (* DATA_WRITE *)
    unfold ProcessDataWrite. cbn [instruction_costs_ total_instructions_].
    rewrite exact_sum_bump_stack.
    destruct (negb (current_pc_ d =? 0));
      rewrite ?exact_sum_index_keep by reflexivity;
      (split; [apply nonneg_bump_stack; try apply nonneg_index; auto|
               split; [exact Hsum|lia]]).
  - (* INSTR_READ *)
    unfold ProcessInstrRead. cbn [instruction_costs_ total_instructions_].
    rewrite exact_sum_bump_stack.
    destruct (negb (current_pc_ d =? 0));
      rewrite ?exact_sum_index_keep by reflexivity;
      (split; [apply nonneg_bump_stack; try apply nonneg_index; auto|
               split; [exact Hsum|lia]]).
Qed.

Lemma exact_sum_self_equals_total_instructions
    (d0 : ProfilerData) (evs : list Z) :
  Z.of_nat (length evs) < 2 ^ 64 ->
  exact_sum_self (instruction_costs_ (ProcessBuffer evs (Clear d0)))
  = total_instructions_ (ProcessBuffer evs (Clear d0)).
Proof.
  intros Hlen.
  assert (H : forall evs d n,
    0 <= n -> n + Z.of_nat (length evs) < 2 ^ 64 ->
    Forall nonneg_self (instruction_costs_ d) /\
    exact_sum_self (instruction_costs_ d) = total_instructions_ d /\
    total_instructions_ d <= n ->
    exact_sum_self (instruction_costs_ (ProcessBuffer evs d))
    = total_instructions_ (ProcessBuffer evs d)).
  { clear. unfold ProcessBuffer.
    induction evs as [|e evs IH]; intros d n Hn Hlen Inv; simpl.
    - tauto.
    - cbn [length] in Hlen. apply (IH _ (n + 1)); [lia|lia|].
      apply ProcessEvent_conserves_exactly; [lia|exact Inv]. }
  apply (H evs (Clear d0) 0); [lia|lia|].
  simpl. repeat split; [constructor|lia].
Qed.

(** C3: from a cleared [ProfilerData], after any finite sequence of events,
    the sum of [self_cost] over the instruction-cost table (the 64-bit sum
    the invariant checker forms) equals [total_instructions_]; and when fewer
    than 2^64 events were processed no counter has wrapped, so the sum taken
    as an integer equals the counter too. *)
Theorem sum_self_cost_equals_total_instructions
    (d0 : ProfilerData) (evs : list Z) :
  sum_self (instruction_costs_ (ProcessBuffer evs (Clear d0)))
  = total_instructions_ (ProcessBuffer evs (Clear d0)) /\
  (Z.of_nat (length evs) < 2 ^ 64 ->
   exact_sum_self (instruction_costs_ (ProcessBuffer evs (Clear d0)))
   = total_instructions_ (ProcessBuffer evs (Clear d0))).
Proof.
  split.
  - rewrite sum_self_exact. apply ProcessBuffer_conserves. reflexivity.
  - apply exact_sum_self_equals_total_instructions.
Qed.

(** ** Ordered sets and maps: membership and order *)

Lemma sset_insert_In (k x : Z) (s : list Z) :
  In x (sset_insert Z.compare k s) <-> x = k \/ In x s.
Proof.
  induction s as [|k' s IH]; simpl.
  - intuition.
  - destruct (Z.compare_spec k k') as [->|Hlt|Hgt]; simpl.
    + intuition.
    + intuition.
    + rewrite IH. intuition.
Qed.

Lemma sset_insert_sorted (k : Z) (s : list Z) :
  StronglySorted Z.lt s -> StronglySorted Z.lt (sset_insert Z.compare k s).
Proof.
  induction s as [|k' s IH]; intros Hs; simpl.
  - repeat constructor.
  - apply StronglySorted_inv in Hs as Hinv. destruct Hinv as [Hs' Hall].
    destruct (Z.compare_spec k k') as [->|Hlt|Hgt].
    + exact Hs.
    + constructor; [exact Hs|]. constructor; [exact Hlt|].
      eapply List.Forall_impl; [|exact Hall]. simpl. intros; lia.
    + constructor; [exact (IH Hs')|].
      apply List.Forall_forall. intros x Hx.
      apply sset_insert_In in Hx. destruct Hx as [->|Hx]; [lia|].
      rewrite List.Forall_forall in Hall. exact (Hall x Hx).
Qed.

Lemma smap_index_keys {V : Type} (k x : Z) (d : V) (f : V -> V)
    (m : list (Z * V)) :
  In x (map fst (smap_index Z.compare k d f m)) <-> x = k \/ In x (map fst m).
Proof.
  induction m as [|[k' v'] m IH]; simpl.
  - intuition.
  - destruct (Z.compare_spec k k') as [->|Hlt|Hgt]; simpl.
    + intuition.
    + intuition.
    + rewrite IH. intuition.
Qed.

Lemma smap_index_sorted {V : Type} (k : Z) (d : V) (f : V -> V)
    (m : list (Z * V)) :
  StronglySorted Z.lt (map fst m) ->
  StronglySorted Z.lt (map fst (smap_index Z.compare k d f m)).
Proof.
  induction m as [|[k' v'] m IH]; intros Hs; simpl.
  - repeat constructor.
  - simpl in Hs. apply StronglySorted_inv in Hs as Hinv.
    destruct Hinv as [Hs' Hall].
    destruct (Z.compare_spec k k') as [->|Hlt|Hgt]; simpl.
    + exact Hs.
    + constructor; [exact Hs|]. constructor; [exact Hlt|].
      eapply List.Forall_impl; [|exact Hall]. simpl. intros; lia.
    + constructor; [exact (IH Hs')|].
      apply List.Forall_forall. intros x Hx.
      apply smap_index_keys in Hx. destruct Hx as [->|Hx]; [lia|].
      rewrite List.Forall_forall in Hall. exact (Hall x Hx).
Qed.

Lemma smap_find_In {V : Type} (k : Z) (v : V) (m : list (Z * V)) :
  smap_find Z.compare k m = Some v -> In (k, v) m.
Proof.
  induction m as [|[k' v'] m IH]; simpl; [discriminate|].
  destruct (Z.compare_spec k k') as [->|Hlt|Hgt]; auto.
  intros [= ->]. auto.
Qed.

Lemma smap_find_index_other {V : Type} (k k0 : Z) (d : V) (f : V -> V)
    (m : list (Z * V)) :
  k0 <> k ->
  smap_find Z.compare k0 (smap_index Z.compare k d f m)
  = smap_find Z.compare k0 m.
Proof.
  intros Hne. induction m as [|[k' v'] m IH]; simpl.
  - destruct (Z.compare_spec k0 k); [contradiction|reflexivity..].
  - destruct (Z.compare_spec k k') as [->|Hlt|Hgt]; simpl.
    + destruct (Z.compare_spec k0 k'); [contradiction|reflexivity..].
    + destruct (Z.compare_spec k0 k); [contradiction|reflexivity..].
    + rewrite IH. reflexivity.
Qed.

(** Reading [m[k]] when the key is there leaves a well-formed map as it is. *)
Lemma smap_index_id_present {V : Type} (k : Z) (d v : V) (m : list (Z * V)) :
  StronglySorted Z.lt (map fst m) ->
  smap_find Z.compare k m = Some v ->
  smap_index Z.compare k d (fun x => x) m = m.
Proof.
  induction m as [|[k' v'] m IH]; simpl; [discriminate|].
  intros Hs Hf. apply StronglySorted_inv in Hs. destruct Hs as [Hs' Hall].
  destruct (Z.compare_spec k k') as [->|Hlt|Hgt].
  - reflexivity.
  - exfalso. apply smap_find_In in Hf.
    rewrite List.Forall_forall in Hall.
    assert (k' < k) by (apply Hall; apply (in_map fst) in Hf; exact Hf).
    lia.
  - f_equal. apply IH; assumption.
Qed.

(** Assigning a key above all keys of the map appends the entry. *)
Lemma smap_index_above {V : Type} (k : Z) (d : V) (f : V -> V)
    (m : list (Z * V)) :
  (forall k', In k' (map fst m) -> k' < k) ->
  smap_index Z.compare k d f m = m ++ [(k, f d)].
Proof.
  induction m as [|[k' v'] m IH]; simpl; intros Hall; [reflexivity|].
  assert (k' < k) by (apply Hall; auto).
  destruct (Z.compare_spec k k'); try lia.
  f_equal. apply IH. intros; apply Hall; auto.
Qed.

(** ** Function grouper: ownership *)

Lemma upper_bound_zero_all_above (s : list Z) (a : Z) :
  StronglySorted Z.lt s -> upper_bound s a = O ->
  forall e, In e s -> a < e.
Proof.
  destruct s as [|e0 s]; intros Hs Hub e He; [contradiction|].
  simpl in Hub. destruct (Z.ltb_spec a e0) as [Hlt|]; [|discriminate].
  apply StronglySorted_inv in Hs. destruct Hs as [_ Hall].
  rewrite List.Forall_forall in Hall.
  destruct He as [<-|He]; [exact Hlt|]. specialize (Hall e He). lia.
Qed.

(** The owner the grouper computes is the owner of the specification. *)
Lemma owning_function_owns (entries : list Z) (a : Z) :
  StronglySorted Z.lt entries -> owns entries a (owning_function entries a).
Proof.
  unfold owning_function.
  induction entries as [|e s IH]; intros Hs.
  - right. split; [intros ? []|reflexivity].
  - apply StronglySorted_inv in Hs as Hinv. destruct Hinv as [Hs' Hall].
    rewrite List.Forall_forall in Hall.
    cbn [upper_bound]. destruct (Z.ltb_spec a e) as [Hlt|Hge].
    + right. split; [|reflexivity]. simpl.
      intros e' [<-|He']; [exact Hlt|]. specialize (Hall e' He'). lia.
    + cbn [Nat.eqb negb].
      replace (S (upper_bound s a) - 1)%nat with (upper_bound s a) by lia.
      destruct (upper_bound s a) as [|u] eqn:Eu.
      * left. simpl. split; [auto|]. split; [exact Hge|].
        intros e' [<-|He'] Hle; [lia|].
        pose proof (upper_bound_zero_all_above s a Hs' Eu e' He'). lia.
      * specialize (IH Hs'). cbn [Nat.eqb negb] in IH.
        replace (S u - 1)%nat with u in IH by lia.
        change ((e :: s) !! S u) with (s !! u).
        destruct IH as [(Hin & Hle & Hmax)|(Habove & _)].
        -- left. split; [right; exact Hin|]. split; [exact Hle|].
           intros e' [<-|He'] Hle'.
           ++ specialize (Hall _ Hin). lia.
           ++ exact (Hmax e' He' Hle').
        -- exfalso. destruct s as [|e1 s1]; [discriminate|].
           simpl in Eu. destruct (Z.ltb_spec a e1); [discriminate|].
           specialize (Habove e1 (or_introl eq_refl)). lia.
Qed.

Lemma owns_functional (entries : list Z) (a e1 e2 : Z) :
  owns entries a e1 -> owns entries a e2 -> e1 = e2.
Proof.
  intros [(Hin1 & Hle1 & Hmax1)|(Hab1 & ->)] [(Hin2 & Hle2 & Hmax2)|(Hab2 & ->)].
  - specialize (Hmax1 _ Hin2 Hle2). specialize (Hmax2 _ Hin1 Hle1). lia.
  - specialize (Hab2 _ Hin1). lia.
  - specialize (Hab1 _ Hin2). lia.
  - reflexivity.
Qed.

(** The set of entries is well formed after both loops. *)
Lemma call_target_entries_sorted (costs : list (Z * InstructionCost)) :
  StronglySorted Z.lt (call_target_entries costs).
Proof.
  unfold call_target_entries.
  assert (H : forall s, StronglySorted Z.lt s ->
    StronglySorted Z.lt
      (fold_left
         (fun function_entries entry =>
            fold_left
              (fun fe call_entry => sset_insert Z.compare (fst call_entry) fe)
              (calls (snd entry)) function_entries) costs s)).
  { induction costs as [|[k c] m IH]; intros s Hs; simpl; [exact Hs|].
    apply IH. generalize dependent s.
    induction (calls c) as [|ce cs IHc]; intros s Hs; simpl; [exact Hs|].
    apply IHc, sset_insert_sorted, Hs. }
  apply H. constructor.
Qed.

Lemma scan_jump_sorted (src : Z) (st : list Z * list (Z * Z))
    (je : Z * CallInfo) :
  StronglySorted Z.lt (fst st) ->
  StronglySorted Z.lt (fst (scan_jump src st je)).
Proof.
  intros Hs. unfold scan_jump.
  destruct (negb _); simpl; [apply sset_insert_sorted|]; exact Hs.
Qed.

Lemma scan_jumps_sorted (costs : list (Z * InstructionCost))
    (st : list Z * list (Z * Z)) :
  StronglySorted Z.lt (fst st) ->
  StronglySorted Z.lt (fst (scan_jumps costs st)).
Proof.
  unfold scan_jumps. revert st.
  induction costs as [|[k c] m IH]; intros st Hs; simpl; [exact Hs|].
  apply IH. generalize dependent st.
  induction (jumps c) as [|je js IHj]; intros st Hs; simpl; [exact Hs|].
  apply IHj, scan_jump_sorted, Hs.
Qed.

Lemma function_entries_sorted (costs : list (Z * InstructionCost)) :
  StronglySorted Z.lt (function_entries costs).
Proof.
  apply scan_jumps_sorted. simpl. apply call_target_entries_sorted.
Qed.

Lemma sorted_lt_NoDup (l : list Z) : StronglySorted Z.lt l -> List.NoDup l.
Proof.
  induction l as [|x l IH]; intros Hs; constructor.
  - apply StronglySorted_inv in Hs. destruct Hs as [_ Hall].
    rewrite List.Forall_forall in Hall. intros Hin.
    specialize (Hall x Hin). lia.
  - apply IH. apply StronglySorted_inv in Hs. tauto.
Qed.

(** ** Function grouper: the partition *)

Lemma build_instruction_to_function_sorted (entries : list Z)
    (costs : list (Z * InstructionCost)) :
  StronglySorted Z.lt
    (map fst (build_instruction_to_function entries costs)).
Proof.
  unfold build_instruction_to_function.
  assert (H : forall m0 : list (Z * Z), StronglySorted Z.lt (map fst m0) ->
    StronglySorted Z.lt (map fst
      (fold_left
         (fun i2f entry =>
            smap_index Z.compare (fst entry) 0
              (fun _ => owning_function entries (fst entry)) i2f)
         costs m0))).
  { induction costs as [|e m IH]; intros m0 Hs; simpl; [exact Hs|].
    apply IH, smap_index_sorted, Hs. }
  apply H. constructor.
Qed.

Lemma build_instruction_to_function_find (entries : list Z)
    (costs : list (Z * InstructionCost)) (a : Z) :
  In a (map fst costs) ->
  smap_find Z.compare a (build_instruction_to_function entries costs)
  = Some (owning_function entries a).
Proof.
  unfold build_instruction_to_function.
  assert (H : forall m0 : list (Z * Z),
    smap_find Z.compare a m0 = Some (owning_function entries a) \/
    In a (map fst costs) ->
    smap_find Z.compare a
      (fold_left
         (fun i2f entry =>
            smap_index Z.compare (fst entry) 0
              (fun _ => owning_function entries (fst entry)) i2f)
         costs m0) = Some (owning_function entries a)).
  { induction costs as [|[k c] m IH]; intros m0 Hor; simpl.
    - destruct Hor as [H|[]]. exact H.
    - apply IH. destruct (Z.eq_dec a k) as [->|Hne].
      + left.
        destruct (smap_find_index_same k 0
                    (fun _ => owning_function entries k) m0) as [v Hv].
        exact Hv.
      + destruct Hor as [H|[Hk|Hin]].
        * left. rewrite smap_find_index_other by exact Hne. exact H.
        * simpl in Hk. congruence.
        * right. exact Hin. }
  intros Hin. apply H. right. exact Hin.
Qed.

Lemma smap_index_snoc_Permutation {A : Type} (k : Z) (x : A)
    (m : list (Z * list A)) :
  Permutation
    (concat (map snd (smap_index Z.compare k [] (fun v => v ++ [x]) m)))
    (x :: concat (map snd m)).
Proof.
  induction m as [|[k' v'] m IH]; simpl.
  - reflexivity.
  - destruct (Z.compare k k'); simpl.
    + rewrite <- app_assoc. simpl. symmetry. apply Permutation_middle.
    + reflexivity.
    + rewrite IH. symmetry. apply Permutation_middle.
Qed.

Lemma smap_index_snoc_In {A : Type} (k e : Z) (x y : A) (l : list A)
    (m : list (Z * list A)) :
  In (e, l) (smap_index Z.compare k [] (fun v => v ++ [x]) m) -> In y l ->
  (exists l0, In (e, l0) m /\ In y l0) \/ (e = k /\ y = x).
Proof.
  induction m as [|[k' v'] m IH]; simpl.
  - intros [[= <- <-]|[]] [<-|[]]. right. auto.
  - destruct (Z.compare_spec k k') as [->|Hlt|Hgt]; simpl.
    + intros [[= <- <-]|Hin] Hy.
      * apply in_app_or in Hy. destruct Hy as [Hy|[<-|[]]]; [|auto].
        left. exists v'. auto.
      * left. exists l. auto.
    + intros [[= <- <-]|[[= <- <-]|Hin]] Hy.
      * destruct Hy as [<-|[]]. auto.
      * left. exists v'. auto.
      * left. exists l. auto.
    + intros [[= <- <-]|Hin] Hy.
      * left. exists v'. auto.
      * destruct (IH Hin Hy) as [(l0 & H0 & H1)|H]; [|auto].
        left. exists l0. auto.
Qed.

Lemma group_instructions_fold (entries : list Z) (i2f : list (Z * Z))
    (todo : list (Z * InstructionCost))
    (temp : list (Z * list (Z * InstructionCost))) :
  StronglySorted Z.lt (map fst i2f) ->
  (forall a, In a (map fst todo) ->
     smap_find Z.compare a i2f = Some (owning_function entries a)) ->
  StronglySorted Z.lt (map fst temp) ->
  (forall e l a c, In (e, l) temp -> In (a, c) l ->
     e = owning_function entries a) ->
  let st' :=
    fold_left
      (fun st entry =>
         let '(func_addr, i2f') := smap_at Z.compare (fst entry) 0 (fst st) in
         (i2f',
          smap_index Z.compare func_addr []
            (fun v => v ++ [(fst entry, snd entry)]) (snd st)))
      todo (i2f, temp) in
  fst st' = i2f /\
  StronglySorted Z.lt (map fst (snd st')) /\
  Permutation (concat (map snd (snd st'))) (concat (map snd temp) ++ todo) /\
  (forall e l a c, In (e, l) (snd st') -> In (a, c) l ->
     e = owning_function entries a).
Proof.
  intros Hi2f. revert temp.
  induction todo as [|[a0 c0] todo IH]; intros temp Hfind Hs Hown; simpl.
  - rewrite app_nil_r. auto.
  - unfold smap_at. cbn [fst snd].
    pose proof (Hfind a0 (or_introl eq_refl)) as Ha0.
    rewrite Ha0. cbn [default].
    rewrite (smap_index_id_present a0 0 _ i2f Hi2f Ha0).
    specialize (IH
      (smap_index Z.compare (owning_function entries a0) []
         (fun v => v ++ [(a0, c0)]) temp)).
    destruct IH as (H1 & H2 & H3 & H4).
    + intros a Ha. apply Hfind. right. exact Ha.
    + apply smap_index_sorted, Hs.
    + intros e l a c Hin Hy.
      destruct (smap_index_snoc_In _ _ _ _ _ _ Hin Hy)
        as [(l0 & Hl0 & Hy0)|[-> [= -> ->]]].
      * exact (Hown e l0 a c Hl0 Hy0).
      * reflexivity.
    + split; [exact H1|]. split; [exact H2|]. split; [|exact H4].
      rewrite H3, smap_index_snoc_Permutation. simpl.
      apply Permutation_middle.
Qed.

Lemma group_instructions_spec (entries : list Z)
    (costs : list (Z * InstructionCost)) :
  let i2f := build_instruction_to_function entries costs in
  let st' := group_instructions costs i2f in
  fst st' = i2f /\
  StronglySorted Z.lt (map fst (snd st')) /\
  Permutation (concat (map snd (snd st'))) costs /\
  (forall e l a c, In (e, l) (snd st') -> In (a, c) l ->
     e = owning_function entries a).
Proof.
  intros i2f st'.
  destruct (group_instructions_fold entries i2f costs [])
    as (H1 & H2 & H3 & H4).
  - apply build_instruction_to_function_sorted.
  - intros a Ha. apply build_instruction_to_function_find, Ha.
  - constructor.
  - intros e l a c [].
  - auto.
Qed.

Lemma add_call_instructions (i2f : list (Z * Z)) (addr : Z)
    (cs : list (Z * CallInfo)) (func : GroupedFunction) :
  instructions (fold_left (add_call i2f addr) cs func) = instructions func /\
  entry_address (fold_left (add_call i2f addr) cs func) = entry_address func.
Proof.
  revert func. induction cs as [|ce cs IH]; intros func; simpl; [auto|].
  destruct (IH (add_call i2f addr func ce)) as [-> ->].
  unfold add_call. destruct (smap_find _ _ _); auto.
Qed.

Lemma add_jump_instructions (i2f : list (Z * Z)) (cross : list (Z * Z))
    (addr : Z) (js : list (Z * CallInfo)) (func : GroupedFunction) :
  instructions (fold_left (add_jump i2f cross addr) js func)
  = instructions func /\
  entry_address (fold_left (add_jump i2f cross addr) js func)
  = entry_address func.
Proof.
  revert func. induction js as [|je js IH]; intros func; simpl; [auto|].
  destruct (IH (add_jump i2f cross addr func je)) as [-> ->].
  unfold add_jump. destruct (Nat.eqb _ _); [auto|].
  destruct (smap_find _ _ _); auto.
Qed.

Lemma build_function_instructions (i2f : list (Z * Z)) (cross : list (Z * Z))
    (func_addr : Z) (instrs : list (Z * InstructionCost)) :
  instructions (build_function i2f cross func_addr instrs) = instrs /\
  entry_address (build_function i2f cross func_addr instrs) = func_addr.
Proof.
  unfold build_function.
  assert (H : forall func,
    instructions (fold_left (add_instruction i2f cross) instrs func)
    = instructions func ++ instrs /\
    entry_address (fold_left (add_instruction i2f cross) instrs func)
    = entry_address func).
  { induction instrs as [|[a c] instrs IH]; intros func; simpl.
    - rewrite app_nil_r. auto.
    - destruct (IH (add_instruction i2f cross func (a, c))) as [-> ->].
      unfold add_instruction. cbn [fst snd].
      destruct (add_jump_instructions i2f cross a (jumps c)
        (fold_left (add_call i2f a) (calls c)
          (mkGroupedFunction (entry_address func)
             (instructions func ++ [(a, c)]) (fn_calls func)
             (u64 (total_self_instructions func + self_cost c))
             (u64 (total_self_instr_fetches func + instr_fetches c))
             (u64 (total_self_data_reads func + data_reads c))
             (u64 (total_self_data_writes func + data_writes c)))))
        as [-> ->].
      destruct (add_call_instructions i2f a (calls c)
          (mkGroupedFunction (entry_address func)
             (instructions func ++ [(a, c)]) (fn_calls func)
             (u64 (total_self_instructions func + self_cost c))
             (u64 (total_self_instr_fetches func + instr_fetches c))
             (u64 (total_self_data_reads func + data_reads c))
             (u64 (total_self_data_writes func + data_writes c))))
        as [-> ->].
      simpl. rewrite <- app_assoc. auto. }
  apply (H (mkGroupedFunction func_addr [] [] 0 0 0 0)).
Qed.

Lemma AddFunction_fold (B : Z * list (Z * InstructionCost) -> GroupedFunction)
    (temp : list (Z * list (Z * InstructionCost))) (g : GroupedProfilerData) :
  StronglySorted Z.lt (map fst temp) ->
  (forall k k', In k (map fst (functions_ g)) -> In k' (map fst temp) ->
     k < k') ->
  let g' := fold_left (fun g fe => AddFunction (fst fe) (B fe) g) temp g in
  functions_ g' = functions_ g ++ map (fun fe => (fst fe, B fe)) temp /\
  entry_points_ g' = entry_points_ g /\
  grouped_total_instructions_ g' = grouped_total_instructions_ g.
Proof.
  revert g. induction temp as [|[k l] temp IH]; intros g Hs Hlt; simpl.
  - rewrite app_nil_r. auto.
  - simpl in Hs. apply StronglySorted_inv in Hs. destruct Hs as [Hs Hall].
    rewrite List.Forall_forall in Hall.
    assert (Hidx : functions_ (AddFunction k (B (k, l)) g)
                   = functions_ g ++ [(k, B (k, l))]).
    { unfold AddFunction. cbn [functions_].
      apply (smap_index_above k GroupedFunction_default
               (fun _ => B (k, l)) (functions_ g)).
      intros k' Hk'. apply Hlt; simpl; auto. }
    destruct (IH (AddFunction k (B (k, l)) g) Hs) as (H1 & H2 & H3).
    + intros k1 k2 Hk1 Hk2. rewrite Hidx, map_app in Hk1.
      apply in_app_or in Hk1. destruct Hk1 as [Hk1|[<-|[]]].
      * apply Hlt; simpl; auto.
      * exact (Hall k2 Hk2).
    + rewrite H1, H2, H3, Hidx, <- app_assoc. auto.
Qed.

(** The functions of the grouped data are the groups of [temp_functions],
    in order, and nothing writes the entry-point set. *)
Lemma ConvertToGroupedData_functions (data : ProfilerData) :
  let costs := instruction_costs_ data in
  let entries := function_entries costs in
  let g := ConvertToGroupedData data in
  let groups :=
    map (fun fe => (fst fe, instructions (snd fe))) (functions_ g) in
  entry_points_ g = [] /\
  Forall (fun fe => entry_address (snd fe) = fst fe) (functions_ g) /\
  StronglySorted Z.lt (map fst groups) /\
  Permutation (concat (map snd groups)) costs /\
  (forall e l a c, In (e, l) groups -> In (a, c) l ->
     e = owning_function entries a).
Proof.
  cbv zeta. unfold ConvertToGroupedData. cbv zeta.
  remember (instruction_costs_ data) as costs eqn:Ec. clear Ec.
  destruct (group_instructions_spec (function_entries costs) costs)
    as (H1 & H2 & H3 & H4).
  destruct (group_instructions costs
              (build_instruction_to_function (function_entries costs) costs))
    as [i2f' temp] eqn:Eg.
  cbn [fst snd] in H1, H2, H3, H4.
  destruct costs as [|entry0 costs0].
  - simpl. repeat split; try constructor. intros e l a c [].
  - remember (entry0 :: costs0) as costs eqn:Ec.
    destruct (AddFunction_fold
      (fun fe => build_function i2f' (cross_boundary_jumps costs)
                   (fst fe) (snd fe)) temp
      (SetTotalInstructions (total_instructions_ data)
         (mkGroupedProfilerData [] [] 0)) H2) as (F1 & F2 & _).
    { intros k k' []. }
    split; [rewrite F2; reflexivity|].
    rewrite F1. cbn [functions_ SetTotalInstructions app].
    split.
    { apply List.Forall_forall. intros fe Hfe. apply in_map_iff in Hfe.
      destruct Hfe as (x & <- & _). cbn [fst snd].
      apply build_function_instructions. }
    replace (map (fun fe => (fst fe, instructions (snd fe)))
               (map (fun fe => (fst fe,
                       build_function i2f' (cross_boundary_jumps costs)
                         (fst fe) (snd fe))) temp)) with temp; [auto|].
    rewrite map_map. cbn [fst snd].
    clear. induction temp as [|[k l] temp IH]; simpl; [reflexivity|].
    rewrite <- IH.
    rewrite (proj1 (build_function_instructions _ _ k l)). reflexivity.
Qed.

(** C4: the grouped functions partition the instruction-cost table.  The
    instruction lists of all functions together are the table's entries,
    each exactly once, and nothing else; functions have distinct entry
    addresses; every instruction sits in the function whose entry address is
    the largest function entry not above it (itself when there is none);
    hence every table address is in one function only. *)
Theorem ConvertToGroupedData_partitions_cost_table (data : ProfilerData) :
  let costs := instruction_costs_ data in
  let g := ConvertToGroupedData data in
  Permutation
    (concat (map (fun fe => instructions (snd fe)) (GetFunctions g))) costs /\
  List.NoDup (map fst (GetFunctions g)) /\
  (forall e f a c,
     In (e, f) (GetFunctions g) -> In (a, c) (instructions f) ->
     entry_address f = e /\ owns (function_entries costs) a e) /\
  (forall a c,
     In (a, c) costs ->
     exists e f,
       In (e, f) (GetFunctions g) /\ In (a, c) (instructions f) /\
       forall e' f' c',
         In (e', f') (GetFunctions g) -> In (a, c') (instructions f') ->
         e' = e).
Proof.
  intros costs g.
  destruct (ConvertToGroupedData_functions data)
    as (_ & Hentry & Hsorted & Hperm & Hown).
  fold costs in Hperm, Hown. fold g in Hentry, Hsorted, Hperm, Hown.
  unfold GetFunctions. rewrite !map_map in Hsorted, Hperm.
  cbn [fst snd] in Hsorted, Hperm.
  assert (Howns : forall e f a c,
     In (e, f) (functions_ g) -> In (a, c) (instructions f) ->
     entry_address f = e /\ owns (function_entries costs) a e).
  { intros e f a c Hf Ha. split.
    - rewrite List.Forall_forall in Hentry. exact (Hentry (e, f) Hf).
    - rewrite (Hown e (instructions f) a c).
      + apply owning_function_owns, function_entries_sorted.
      + apply in_map_iff. exists (e, f). auto.
      + exact Ha. }
  split; [exact Hperm|]. split; [apply sorted_lt_NoDup, Hsorted|].
  split; [exact Howns|].
  intros a c Hin.
  assert (Hc : In (a, c)
            (concat (map (fun fe => instructions (snd fe)) (functions_ g)))).
  { eapply Permutation_in; [symmetry; exact Hperm|exact Hin]. }
  apply in_concat in Hc. destruct Hc as (l & Hl & Hal).
  apply in_map_iff in Hl. destruct Hl as ([e f] & <- & Hf).
  exists e, f. split; [exact Hf|]. split; [exact Hal|].
  intros e' f' c' Hf' Ha'.
  eapply owns_functional.
  - exact (proj2 (Howns e' f' a c' Hf' Ha')).
  - exact (proj2 (Howns e f a c Hf Hal)).
Qed.

(** C1 (code defect): nothing in [ConvertToGroupedData], nor anywhere else,
    writes [entry_points_], so [GetEntryPoints] is empty for every input;
    after one [InstrExecute] at 0x1000 on an empty call stack, an address
    executed with an empty stack exists and the set is still empty. *)
Theorem GetEntryPoints_is_always_empty :
  (forall data, GetEntryPoints (ConvertToGroupedData data) = []) /\
  call_stack_ ProfilerData_new = [] /\
  GetEntryPoints
    (ConvertToGroupedData
       (ProcessBuffer [recorded_word (RecordInstructionExecute 0x1000)]
          ProfilerData_new)) = [] /\
  map fst
    (GetFunctions
       (ConvertToGroupedData
          (ProcessBuffer [recorded_word (RecordInstructionExecute 0x1000)]
             ProfilerData_new))) = [0; 0x1000].
Proof.
  split; [|repeat split].
  intros data. exact (proj1 (ConvertToGroupedData_functions data)).
Qed.


(** ** Function grouper: the single pass over the jumps *)

Lemma call_target_entries_complete (costs : list (Z * InstructionCost))
    (t : Z) :
  recorded_call_target costs t -> In t (call_target_entries costs).
Proof.
  intros (s & c & ci & Hc & Ht). unfold call_target_entries.
  assert (Hinner : forall (cs : list (Z * CallInfo)) (fe : list Z),
    In t fe \/ In t (map fst cs) ->
    In t (fold_left
            (fun fe call_entry => sset_insert Z.compare (fst call_entry) fe)
            cs fe)).
  { induction cs as [|ce cs IH]; intros fe Hor; simpl.
    - destruct Hor as [H|[]]. exact H.
    - apply IH. destruct Hor as [H|[H|H]].
      + left. apply sset_insert_In. auto.
      + left. apply sset_insert_In. auto.
      + right. exact H. }
  assert (Houter : forall (m : list (Z * InstructionCost)) (fe : list Z),
    In t fe \/ In (s, c) m ->
    In t (fold_left
            (fun function_entries entry =>
               fold_left
                 (fun fe call_entry =>
                    sset_insert Z.compare (fst call_entry) fe)
                 (calls (snd entry)) function_entries) m fe)).
  { induction m as [|e m IH]; intros fe Hor; simpl.
    - destruct Hor as [H|[]]. exact H.
    - apply IH. destruct Hor as [H|[->|H]].
      + left. apply Hinner. auto.
      + left. apply Hinner. right. simpl.
        apply (in_map fst) in Ht. exact Ht.
      + right. exact H. }
  apply Houter. right. exact Hc.
Qed.


(** Entries only grow during the pass. *)
Lemma scan_jump_mono (src x : Z) (st : list Z * list (Z * Z))
    (je : Z * CallInfo) :
  In x (fst st) -> In x (fst (scan_jump src st je)).
Proof.
  intros H. unfold scan_jump. destruct (negb _); simpl; [|exact H].
  apply sset_insert_In. auto.
Qed.

Lemma scan_jump_fold_mono (src x : Z) (js : list (Z * CallInfo))
    (st : list Z * list (Z * Z)) :
  In x (fst st) -> In x (fst (fold_left (scan_jump src) js st)).
Proof.
  revert st. induction js as [|je js IH]; intros st H; simpl; [exact H|].
  apply IH, scan_jump_mono, H.
Qed.

Lemma scan_jumps_mono (x : Z) (costs : list (Z * InstructionCost))
    (st : list Z * list (Z * Z)) :
  In x (fst st) -> In x (fst (scan_jumps costs st)).
Proof.
  unfold scan_jumps. revert st.
  induction costs as [|e m IH]; intros st H; simpl; [exact H|].
  apply IH, scan_jump_fold_mono, H.
Qed.

Lemma scan_jump_fold_sorted (src : Z) (js : list (Z * CallInfo))
    (st : list Z * list (Z * Z)) :
  StronglySorted Z.lt (fst st) ->
  StronglySorted Z.lt (fst (fold_left (scan_jump src) js st)).
Proof.
  revert st. induction js as [|je js IH]; intros st H; simpl; [exact H|].
  apply IH, scan_jump_sorted, H.
Qed.


Lemma bounds_differ_intro (s : list Z) (mn mx e : Z) :
  StronglySorted Z.lt s -> In e s -> mn < e < mx ->
  upper_bound s mn <> lower_bound s mx.
Proof.
  intros Hs. revert e. induction s as [|e0 s IH]; intros e He Hb;
    [contradiction|].
  apply StronglySorted_inv in Hs. destruct Hs as [Hs Hall].
  rewrite List.Forall_forall in Hall. simpl.
  destruct (Z.ltb_spec mn e0) as [H1|H1], (Z.leb_spec mx e0) as [H2|H2];
    try discriminate.
  - exfalso. destruct He as [<-|He]; [lia|]. specialize (Hall e He). lia.
  - destruct He as [<-|He]; [lia|].
    intros [= Heq]. exact (IH Hs e He Hb Heq).
Qed.

(** A jump that spans an entry present when the jump is visited has its
    target promoted. *)
Lemma scan_jump_fold_promotes (src t e : Z) (ci : CallInfo)
    (js : list (Z * CallInfo)) (st : list Z * list (Z * Z)) :
  StronglySorted Z.lt (fst st) -> In e (fst st) ->
  Z.min src t < e < Z.max src t -> In (t, ci) js ->
  In t (fst (fold_left (scan_jump src) js st)).
Proof.
  revert st. induction js as [|je js IH]; intros st Hs He Hb Hin;
    [contradiction|]. simpl.
  destruct Hin as [->|Hin].
  - apply scan_jump_fold_mono. unfold scan_jump. cbn [fst].
    destruct (Nat.eqb_spec (upper_bound (fst st) (Z.min src t))
                (lower_bound (fst st) (Z.max src t))) as [Heq|_].
    + exfalso. exact (bounds_differ_intro _ _ _ _ Hs He Hb Heq).
    + simpl. apply sset_insert_In. auto.
  - apply IH; [apply scan_jump_sorted, Hs|apply scan_jump_mono, He|
               exact Hb|exact Hin].
Qed.

Lemma scan_jumps_promotes (src t e : Z) (c : InstructionCost) (ci : CallInfo)
    (m : list (Z * InstructionCost)) (st : list Z * list (Z * Z)) :
  StronglySorted Z.lt (fst st) -> In e (fst st) ->
  Z.min src t < e < Z.max src t ->
  In (src, c) m -> In (t, ci) (jumps c) ->
  In t (fst (scan_jumps m st)).
Proof.
  unfold scan_jumps. revert st.
  induction m as [|entry m IH]; intros st Hs He Hb Hin Hj; [contradiction|].
  simpl. destruct Hin as [->|Hin].
  - apply (scan_jumps_mono t m). cbn [fst snd].
    eapply scan_jump_fold_promotes; eassumption.
  - apply IH; [apply scan_jump_fold_sorted, Hs|apply scan_jump_fold_mono, He|
               exact Hb|exact Hin|exact Hj].
Qed.










(** ** Callgrind serializer *)

Lemma append_assoc (a b c : string) :
  String.append (String.append a b) c = String.append a (String.append b c).
Proof.
  induction a as [|ch a IH]; [reflexivity|].
  change (String ch (String.append (String.append a b) c)
          = String ch (String.append a (String.append b c))).
  f_equal. exact IH.
Qed.

Lemma append_nil_r (a : string) : String.append a EmptyString = a.
Proof.
  induction a as [|ch a IH]; [reflexivity|].
  change (String ch (String.append a EmptyString) = String ch a).
  f_equal. exact IH.
Qed.

(** The cycles the serializer computes, term by term in [uint64_t], are
    instructions + 3 x (fetches + reads + writes) in [uint64_t]. *)
Lemma cycles_of_formula (i f r w : Z) :
  cycles_of i f r w = u64 (i + 3 * (f + r + w)).
Proof.
  assert (Hboth : forall a b, u64 (u64 a + u64 b) = u64 (a + b)).
  { intros a b. unfold u64. symmetry. apply Z.add_mod. lia. }
  unfold cycles_of.
  rewrite (Hboth (i + u64 (f * 3)) (r * 3)), Hboth.
  replace (i + u64 (f * 3) + r * 3 + w * 3)
    with (u64 (f * 3) + (i + r * 3 + w * 3)) by lia.
  rewrite u64_idemp_l. f_equal. lia.
Qed.

(** The text of a cost line after its position. *)
Lemma put_costs_text (out : string) (cycles instrs reads writes : Z) :
  put_costs out cycles instrs reads writes
  = (out ++ " " ++ dec cycles ++ " " ++ dec instrs ++ " " ++ dec reads
         ++ " " ++ dec writes ++ nl)%string.
Proof. unfold put_costs, put. rewrite !append_assoc. reflexivity. Qed.

Lemma put_position_text (out : string) (last_address addr : Z) :
  exists pos,
    put_position out last_address addr = (out ++ pos)%string /\
    (pos = ("0x" ++ hex addr)%string \/
     pos = ("+" ++ dec (addr - last_address))%string \/
     pos = dec (addr - last_address) \/
     pos = "*"%string).
Proof.
  unfold put_position, put.
  destruct (last_address =? 0).
  - eexists. rewrite append_assoc. split; [reflexivity|auto].
  - destruct (_ && _).
    + eexists. rewrite append_assoc. split; [reflexivity|auto].
    + destruct (_ && _).
      * eexists. split; [reflexivity|auto].
      * destruct (_ =? _).
        -- eexists. split; [reflexivity|auto].
        -- eexists. rewrite append_assoc. split; [reflexivity|auto].
Qed.

(** The call lines only extend the output. *)
Lemma write_call_extends (cs : list FunctionCall) (st : string * Z) :
  exists rest, fst (fold_left write_call cs st) = (fst st ++ rest)%string.
Proof.
  revert st. induction cs as [|call cs IH]; intros st; simpl.
  - exists EmptyString. rewrite append_nil_r. reflexivity.
  - destruct (IH (write_call st call)) as [rest ->].
    unfold write_call at 1. cbn [fst]. rewrite put_costs_text.
    unfold put. rewrite !append_assoc. eexists. reflexivity.
Qed.

Lemma fold_left_extends {S X : Type} (step : S -> X -> S) (proj : S -> string)
    (l : list X) (st : S) :
  (forall st x, exists s, proj (step st x) = (proj st ++ s)%string) ->
  exists rest, proj (fold_left step l st) = (proj st ++ rest)%string.
Proof.
  intros Hext. revert st. induction l as [|x l IH]; intros st; simpl.
  - exists EmptyString. rewrite append_nil_r. reflexivity.
  - destruct (IH (step st x)) as [r1 ->]. destruct (Hext st x) as [r2 ->].
    rewrite append_assoc. eexists. reflexivity.
Qed.

Lemma fold_left_reaches {S X : Type} (step : S -> X -> S) (proj : S -> string)
    (l : list X) (x : X) (st : S) :
  (forall st x, exists s, proj (step st x) = (proj st ++ s)%string) ->
  In x l ->
  exists st0 rest,
    proj (fold_left step l st) = (proj (step st0 x) ++ rest)%string.
Proof.
  intros Hext. revert st. induction l as [|y l IH]; intros st Hin;
    [contradiction|]. simpl. destruct Hin as [->|Hin].
  - exists st. apply fold_left_extends, Hext.
  - apply IH, Hin.
Qed.

(** The line a self cost produces, after its position. *)
Lemma write_instruction_text (cba : list (Z * list FunctionCall))
    (st : string * Z) (instr : Z * InstructionCost) :
  exists pos rest,
    fst (write_instruction cba st instr)
    = (fst st ++ pos ++ " "
         ++ dec (u64 (self_cost (snd instr)
                      + 3 * (instr_fetches (snd instr)
                             + data_reads (snd instr)
                             + data_writes (snd instr))))
         ++ " " ++ dec (self_cost (snd instr))
         ++ " " ++ dec (data_reads (snd instr))
         ++ " " ++ dec (data_writes (snd instr)) ++ nl ++ rest)%string /\
    (pos = ("0x" ++ hex (fst instr))%string \/
     pos = ("+" ++ dec (fst instr - snd st))%string \/
     pos = dec (fst instr - snd st) \/
     pos = "*"%string).
Proof.
  unfold write_instruction.
  destruct (put_position_text (fst st) (snd st) (fst instr))
    as (pos & Hpos & Hform).
  rewrite Hpos, put_costs_text, cycles_of_formula.
  exists pos.
  destruct (smap_find Z.compare (fst instr) cba) as [cs|].
  - destruct (write_call_extends cs
      ((fst st ++ pos ++ " "
         ++ dec (u64 (self_cost (snd instr)
                      + 3 * (instr_fetches (snd instr)
                             + data_reads (snd instr)
                             + data_writes (snd instr))))
         ++ " " ++ dec (self_cost (snd instr))
         ++ " " ++ dec (data_reads (snd instr))
         ++ " " ++ dec (data_writes (snd instr)) ++ nl)%string,
       fst instr)) as [rest Hrest].
    exists rest. split; [|exact Hform].
    rewrite !append_assoc in *. rewrite Hrest. cbn [fst].
    rewrite !append_assoc. reflexivity.
  - exists EmptyString. split; [|exact Hform]. cbn [fst].
    rewrite !append_assoc, append_nil_r. reflexivity.
Qed.

Lemma write_instruction_extends (cba : list (Z * list FunctionCall))
    (st : string * Z) (instr : Z * InstructionCost) :
  exists s, fst (write_instruction cba st instr) = (fst st ++ s)%string.
Proof.
  destruct (write_instruction_text cba st instr) as (pos & rest & -> & _).
  eexists. reflexivity.
Qed.

Lemma write_function_extends (out : string)
    (func_entry : Z * GroupedFunction) :
  exists s, write_function out func_entry = (out ++ s)%string.
Proof.
  unfold write_function.
  destruct (fold_left_extends
    (write_instruction (build_calls_by_address (fn_calls (snd func_entry))))
    fst (instructions (snd func_entry))
    (put (put (put out "fn=0x") (hex (fst func_entry))) nl, 0)
    (write_instruction_extends _)) as [rest ->].
  cbn [fst]. unfold put. rewrite !append_assoc. eexists. reflexivity.
Qed.

Lemma function_totals_sums (fs : list (Z * GroupedFunction)) :
  function_totals fs
  = (sum_over_functions total_self_instructions fs,
     sum_over_functions total_self_instr_fetches fs,
     sum_over_functions total_self_data_reads fs,
     sum_over_functions total_self_data_writes fs).
Proof.
  unfold function_totals, sum_over_functions.
  generalize 0 at 1 5 as a. generalize 0 at 1 4 as b.
  generalize 0 at 1 3 as c. generalize 0 as d.
  induction fs as [|fe fs IH]; intros d c b a; simpl; [reflexivity|].
  apply IH.
Qed.

(** C8: a self-cost line is the position, then the cycles, the instructions,
    the data reads and the data writes, where cycles = instructions +
    3 x (fetches + reads + writes) in [uint64_t]: this is what the loop body
    writes in every state, and the line of every instruction of every
    function is in the text [WriteBody] writes.  The summary line has the
    same four fields, computed by the same formula from the sums of the
    per-function self totals. *)
Theorem callgrind_cost_line_fields :
  (forall (cba : list (Z * list FunctionCall)) (st : string * Z)
          (instr : Z * InstructionCost),
     exists pos rest,
       position_text (snd st) (fst instr) pos /\
       fst (write_instruction cba st instr)
       = (fst st ++ pos
            ++ cost_fields_text
                 (u64 (self_cost (snd instr)
                       + 3 * (instr_fetches (snd instr)
                              + data_reads (snd instr)
                              + data_writes (snd instr))))
                 (self_cost (snd instr)) (data_reads (snd instr))
                 (data_writes (snd instr))
            ++ rest)%string) /\
  (forall (out : string) (data : GroupedProfilerData) (e : Z)
          (f : GroupedFunction) (instr : Z * InstructionCost),
     In (e, f) (GetFunctions data) -> In instr (instructions f) ->
     exists pre last pos post,
       position_text last (fst instr) pos /\
       WriteBody out data
       = (pre ++ pos
            ++ cost_fields_text
                 (u64 (self_cost (snd instr)
                       + 3 * (instr_fetches (snd instr)
                              + data_reads (snd instr)
                              + data_writes (snd instr))))
                 (self_cost (snd instr)) (data_reads (snd instr))
                 (data_writes (snd instr))
            ++ post)%string) /\
  (forall (out : string) (data : GroupedProfilerData),
     let fs := GetFunctions data in
     let instrs := sum_over_functions total_self_instructions fs in
     let fetches := sum_over_functions total_self_instr_fetches fs in
     let reads := sum_over_functions total_self_data_reads fs in
     let writes := sum_over_functions total_self_data_writes fs in
     WriteHeader out data
     = (out ++ header_preamble ++ "summary:"
          ++ cost_fields_text (u64 (instrs + 3 * (fetches + reads + writes)))
               instrs reads writes
          ++ nl)%string).
Proof.
  assert (Hbody : forall cba st instr,
     exists pos rest,
       position_text (snd st) (fst instr) pos /\
       fst (write_instruction cba st instr)
       = (fst st ++ pos
            ++ cost_fields_text
                 (u64 (self_cost (snd instr)
                       + 3 * (instr_fetches (snd instr)
                              + data_reads (snd instr)
                              + data_writes (snd instr))))
                 (self_cost (snd instr)) (data_reads (snd instr))
                 (data_writes (snd instr))
            ++ rest)%string).
  { intros cba st instr.
    destruct (write_instruction_text cba st instr) as (pos & rest & H & Hf).
    exists pos, rest. split; [exact Hf|]. rewrite H.
    unfold cost_fields_text. rewrite !append_assoc. reflexivity. }
  split; [exact Hbody|]. split.
  - intros out data e f instr Hf Hi. unfold WriteBody.
    destruct (GetFunctions data) as [|fe0 fs0] eqn:Efs; [contradiction|].
    rewrite <- Efs in *. clear Efs fe0 fs0.
    destruct (fold_left_reaches write_function (fun s => s)
                (GetFunctions data) (e, f) out write_function_extends Hf)
      as (out0 & rest & ->).
    unfold write_function. cbn [fst snd].
    destruct (fold_left_reaches
      (write_instruction (build_calls_by_address (fn_calls f))) fst
      (instructions f) instr
      (put (put (put out0 "fn=0x") (hex e)) nl, 0)
      (write_instruction_extends _) Hi) as (st0 & rest2 & ->).
    destruct (Hbody (build_calls_by_address (fn_calls f)) st0 instr)
      as (pos & rest3 & Hpos & ->).
    exists (fst st0), (snd st0), pos. eexists. split; [exact Hpos|].
    unfold put. rewrite !append_assoc. reflexivity.
  - intros out data. cbv zeta. unfold WriteHeader.
    rewrite function_totals_sums, cycles_of_formula.
    unfold put, header_preamble, cost_fields_text.
    rewrite !append_assoc. reflexivity.
Qed.

(** ** Client buffer manager *)

Lemma store_in_pool_length (b : nat) (i word : Z) (p : ProfilerThread) :
  length (buffer_pool_ (store_in b i word p)) = length (buffer_pool_ p).
Proof.
  unfold store_in. destruct (buffer_pool_ p !! b); [|reflexivity].
  simpl. apply length_insert.
Qed.

Lemma store_in_queues (b : nat) (i word : Z) (p : ProfilerThread) :
  empty_buffers_ (store_in b i word p) = empty_buffers_ p /\
  filled_buffers_ (store_in b i word p) = filled_buffers_ p.
Proof.
  unfold store_in. destruct (buffer_pool_ p !! b); split; reflexivity.
Qed.

Lemma stores_pool_length (b : nat) (rs : list Recorded) (i : Z)
    (p : ProfilerThread) :
  length (buffer_pool_ (stores b i rs p)) = length (buffer_pool_ p).
Proof.
  revert i p. induction rs as [|r rs IH]; intros i p; simpl; [reflexivity|].
  rewrite IH. apply store_in_pool_length.
Qed.

Lemma stores_queues (b : nat) (rs : list Recorded) (i : Z)
    (p : ProfilerThread) :
  empty_buffers_ (stores b i rs p) = empty_buffers_ p /\
  filled_buffers_ (stores b i rs p) = filled_buffers_ p.
Proof.
  revert i p. induction rs as [|r rs IH]; intros i p; simpl; [auto|].
  destruct (IH (i + 1) (store_in b i (recorded_word r) p)) as [-> ->].
  apply store_in_queues.
Qed.

(** A store that does not reach the end of the buffer: no switch. *)
Lemma record_word_fills (word : Z) (p : ProfilerThread) (b : nat) (i : Z)
    (sc : nat) :
  (b < length (buffer_pool_ p))%nat -> 0 <= i -> i + 1 < BUFFER_SIZE ->
  record_word word (filling p b i sc)
  = Done (filling (store_in b i word p) b (i + 1) sc).
Proof.
  intros Hb Hi Hlt. unfold record_word, store_and_advance, filling, store_in.
  cbn [profiler_current_buffer_ptr g_profiler].
  destruct (lookup_lt_is_Some_2 _ _ Hb) as [buf Hbuf]. rewrite Hbuf.
  destruct (Z.leb_spec 0 i); [|lia].
  destruct (Z.ltb_spec i BUFFER_SIZE); [|lia].
  cbn [andb outcome_bind profiler_current_buffer_ptr profiler_buffer_end_ptr].
  destruct (decide _) as [Heq|_]; [|reflexivity].
  exfalso. injection Heq as Heq. lia.
Qed.

(** The store that fills the last slot: exactly one switch, to the buffer
    at the front of the empty queue. *)
Lemma record_word_switches (word : Z) (p : ProfilerThread) (b b' : nat)
    (rest : list nat) (i : Z) (sc : nat) :
  (b < length (buffer_pool_ p))%nat -> 0 <= i -> i + 1 = BUFFER_SIZE ->
  empty_buffers_ p = b' :: rest ->
  record_word word (filling p b i sc)
  = Done (filling (handed_over b (store_in b i word p)) b' 0 (S sc)).
Proof.
  intros Hb Hi Hlast Hempty.
  unfold record_word, store_and_advance, filling, store_in, handed_over.
  cbn [profiler_current_buffer_ptr g_profiler].
  destruct (lookup_lt_is_Some_2 _ _ Hb) as [buf Hbuf]. rewrite Hbuf.
  destruct (Z.leb_spec 0 i); [|lia].
  destruct (Z.ltb_spec i BUFFER_SIZE); [|lia].
  cbn [andb outcome_bind profiler_current_buffer_ptr profiler_buffer_end_ptr].
  rewrite Hlast.
  destruct (decide _) as [_|Hne]; [|congruence].
  unfold Profiler_SwitchBuffer, GetClientBufferManager, SwitchBuffer.
  cbn [g_client_buffer_manager g_profiler outcome_bind
       profiler_current_buffer_ptr switch_calls].
  destruct (decide (b = b)) as [_|Hne]; [|congruence].
  cbn [outcome_bind]. unfold GetEmptyBuffer, PushFilledBuffer.
  cbn [empty_buffers_ running_ filled_buffers_ buffer_pool_].
  rewrite Hempty. reflexivity.
Qed.

Lemma Profiler_Record_word (r : Recorded) (w : World) :
  Profiler_Record r w = record_word (recorded_word r) w.
Proof. destruct r; reflexivity. Qed.

Lemma record_all_app (l1 l2 : list Recorded) (w : World) :
  record_all (l1 ++ l2) w = (w1 <-- record_all l1 w ;; record_all l2 w1).
Proof.
  revert w. induction l1 as [|r l1 IH]; intros w; simpl; [reflexivity|].
  destruct (Profiler_Record r w); simpl; auto.
Qed.

(** Recorder calls that stay inside the current buffer. *)
Lemma record_all_fills (rs : list Recorded) (p : ProfilerThread) (b : nat)
    (i : Z) (sc : nat) :
  (b < length (buffer_pool_ p))%nat -> 0 <= i ->
  i + Z.of_nat (length rs) < BUFFER_SIZE ->
  record_all rs (filling p b i sc)
  = Done (filling (stores b i rs p) b (i + Z.of_nat (length rs)) sc).
Proof.
  revert p i. induction rs as [|r rs IH]; intros p i Hb Hi Hlen.
  - simpl. rewrite Z.add_0_r. reflexivity.
  - cbn [record_all stores]. cbn [length] in Hlen.
    rewrite Profiler_Record_word, record_word_fills by lia.
    cbn [outcome_bind]. rewrite IH.
    + do 2 f_equal. cbn [length]. lia.
    + rewrite store_in_pool_length. exact Hb.
    + lia.
    + lia.
Qed.

Lemma split_last_two (rs : list Recorded) (n : Z) :
  0 <= n -> Z.of_nat (length rs) = n + 2 ->
  exists l1 r1 r2, rs = l1 ++ [r1; r2] /\ Z.of_nat (length l1) = n.
Proof.
  intros Hn Hlen.
  pose proof (take_drop (Z.to_nat n) rs) as Hsplit.
  pose proof (length_drop rs (Z.to_nat n)) as Hd.
  pose proof (length_take rs (Z.to_nat n)) as Ht.
  destruct (drop (Z.to_nat n) rs) as [|r1 [|r2 [|r3 tl]]];
    cbn [length] in Hd; try lia.
  exists (take (Z.to_nat n) rs), r1, r2. split; [auto|lia].
Qed.

(** C9: starting with a freshly acquired empty buffer [b], 8193 recorder
    calls make exactly one call of [Profiler_SwitchBuffer]: none while fewer
    than 8192 events have been written, one when the 8192nd write brings the
    cursor to the end pointer (buffer [b] is queued as filled with count
    8192 and the front buffer [b'] of the empty queue becomes current), and
    the 8193rd event goes to slot 0 of [b']. *)
Theorem one_buffer_switch_for_8193_events
    (w : World) (b b' : nat) (rs : list Recorded) (r_last : Recorded) :
  freshly_acquired w b b' ->
  Z.of_nat (length rs) = BUFFER_SIZE + 1 ->
  last rs = Some r_last ->
  (forall k, 0 <= k < BUFFER_SIZE ->
     exists wk,
       record_all (firstn (Z.to_nat k) rs) w = Done wk /\
       switch_calls wk = switch_calls w /\
       profiler_current_buffer_ptr wk = Some (b, k)) /\
  (exists w2 p2 buf,
     record_all (firstn (Z.to_nat BUFFER_SIZE) rs) w = Done w2 /\
     switch_calls w2 = S (switch_calls w) /\
     profiler_current_buffer_ptr w2 = Some (b', 0) /\
     profiler_buffer_end_ptr w2 = Some (b', BUFFER_SIZE) /\
     g_client_buffer_manager w2 = Some (Some b') /\
     g_profiler w2 = Some p2 /\
     (forall p, g_profiler w = Some p ->
        filled_buffers_ p2 = filled_buffers_ p ++ [b]) /\
     buffer_pool_ p2 !! b = Some buf /\ count buf = BUFFER_SIZE) /\
  (exists w3 p3 buf,
     record_all rs w = Done w3 /\
     switch_calls w3 = S (switch_calls w) /\
     profiler_current_buffer_ptr w3 = Some (b', 1) /\
     g_profiler w3 = Some p3 /\
     buffer_pool_ p3 !! b' = Some buf /\
     events buf !! 0 = Some (recorded_word r_last)).
Proof.
  intros (p & rest & Hp & Hm & Hptr & Hend & Hempty & Hb & Hb') Hlen Hlast.
  destruct w as [gp gm ptr endp sc]. cbn in Hp, Hm, Hptr, Hend. subst.
  change (mkWorld (Some p) (Some (Some b)) (Some (b, 0))
            (Some (b, BUFFER_SIZE)) sc) with (filling p b 0 sc).
  cbn [switch_calls filling].
  destruct (split_last_two rs (BUFFER_SIZE - 1)) as (l1 & r1 & r2 & -> & Hl1);
    [unfold BUFFER_SIZE; lia|lia|].
  assert (r_last = r2) as ->.
  { change (l1 ++ [r1; r2]) with (l1 ++ [r1] ++ [r2]) in Hlast.
    rewrite app_assoc, last_snoc in Hlast. congruence. }
  clear Hlast Hlen.
  (* the first 8191 events *)
  pose proof (record_all_fills l1 p b 0 sc Hb ltac:(lia)
                ltac:(unfold BUFFER_SIZE in *; lia)) as H1.
  (* the 8192nd event *)
  set (p1 := stores b 0 l1 p) in *.
  assert (Hb1 : (b < length (buffer_pool_ p1))%nat)
    by (subst p1; rewrite stores_pool_length; exact Hb).
  assert (He1 : empty_buffers_ p1 = b' :: rest)
    by (subst p1; rewrite (proj1 (stores_queues b l1 0 p)); exact Hempty).
  pose proof (record_word_switches (recorded_word r1) p1 b b' rest
                (0 + Z.of_nat (length l1)) sc Hb1 ltac:(lia) ltac:(lia) He1)
    as H2.
  set (p2 := handed_over b
               (store_in b (0 + Z.of_nat (length l1)) (recorded_word r1) p1))
    in *.
  assert (Hlen2 : length (buffer_pool_ p2) = length (buffer_pool_ p)).
  { subst p2 p1. unfold handed_over. cbn [buffer_pool_].
    rewrite length_alter, store_in_pool_length, stores_pool_length.
    reflexivity. }
  (* the 8193rd event *)
  pose proof (record_word_fills (recorded_word r2) p2 b' 0 (S sc)
                ltac:(lia) ltac:(lia) ltac:(unfold BUFFER_SIZE; lia)) as H3.
  assert (Hrun2 : record_all (l1 ++ [r1]) (filling p b 0 sc)
                  = Done (filling p2 b' 0 (S sc))).
  { rewrite record_all_app, H1. cbn [outcome_bind record_all].
    rewrite Profiler_Record_word, H2. reflexivity. }
  split; [|split].
  - intros k Hk.
    rewrite take_app_le by lia.
    pose proof (length_take_le l1 (Z.to_nat k) ltac:(lia)) as Htk.
    eexists. split.
    + apply record_all_fills; [exact Hb|lia|].
      rewrite Htk. unfold BUFFER_SIZE in *. lia.
    + cbn [filling switch_calls profiler_current_buffer_ptr].
      split; [reflexivity|]. rewrite Htk. do 2 f_equal. lia.
  - exists (filling p2 b' 0 (S sc)), p2.
    assert (Hf : forall q, Some p = Some q ->
              filled_buffers_ p2 = filled_buffers_ q ++ [b]).
    { intros q [= <-]. subst p2 p1. unfold handed_over.
      cbn [filled_buffers_].
      rewrite (proj2 (store_in_queues _ _ _ _)),
        (proj2 (stores_queues _ _ _ _)). reflexivity. }
    assert (Hcount : exists buf,
              buffer_pool_ p2 !! b = Some buf /\ count buf = BUFFER_SIZE).
    { subst p2. unfold handed_over. cbn [buffer_pool_].
      rewrite list_lookup_alter_eq.
      destruct (lookup_lt_is_Some_2
        (buffer_pool_
           (store_in b (0 + Z.of_nat (length l1)) (recorded_word r1) p1)) b)
        as [buf0 ->].
      - rewrite store_in_pool_length. exact Hb1.
      - eexists. split; reflexivity. }
    destruct Hcount as (buf & Hbuf & Hc). exists buf.
    replace (take (Z.to_nat BUFFER_SIZE) (l1 ++ [r1; r2]))
      with (l1 ++ [r1]).
    + rewrite Hrun2. cbn [filling switch_calls profiler_current_buffer_ptr
        profiler_buffer_end_ptr g_client_buffer_manager g_profiler].
      repeat split; auto.
    + change (l1 ++ [r1; r2]) with (l1 ++ [r1] ++ [r2]).
      rewrite app_assoc. symmetry. apply take_app_length'.
      rewrite length_app. cbn [length]. lia.
  - change (l1 ++ [r1; r2]) with (l1 ++ [r1] ++ [r2]).
    rewrite app_assoc, record_all_app, Hrun2.
    cbn [outcome_bind record_all]. rewrite Profiler_Record_word, H3.
    cbn [outcome_bind].
    destruct (lookup_lt_is_Some_2 (buffer_pool_ p2) b' ltac:(lia))
      as [buf0 Hbuf0].
    eexists. exists (store_in b' 0 (recorded_word r2) p2). eexists.
    split; [reflexivity|].
    cbn [filling switch_calls profiler_current_buffer_ptr g_profiler].
    split; [reflexivity|]. split; [reflexivity|]. split; [reflexivity|].
    unfold store_in. rewrite Hbuf0. cbn [buffer_pool_].
    split.
    + apply list_lookup_insert_eq. lia.
    + cbn [events]. apply lookup_insert_eq.
Qed.

(** ** The cost table the interpreter builds is a well-formed map *)

Lemma smap_adjust_keys {V : Type} (k : Z) (f : V -> V) (m : list (Z * V)) :
  map fst (smap_adjust Z.compare k f m) = map fst m.
Proof.
  induction m as [|[k' v'] m IH]; simpl; [reflexivity|].
  destruct (Z.compare k k'); simpl; rewrite ?IH; reflexivity.
Qed.

Lemma bump_stack_keys (f : CallInfo -> CallInfo) (stack : list CallFrame)
    (m : list (Z * InstructionCost)) :
  map fst (bump_stack f stack m) = map fst m.
Proof.
  assert (Href : forall r m, map fst (update_ref r f m) = map fst m).
  { intros [s t|s t] m0; simpl; apply smap_adjust_keys. }
  unfold bump_stack. revert m.
  induction stack as [|fr stack IH]; intros m; simpl; [reflexivity|].
  rewrite IH. unfold bump_frame. rewrite <- (Href (call_info fr) m).
  generalize (update_ref (call_info fr) f m).
  induction (jump_refs fr) as [|j js IHj]; intros m1; simpl; [reflexivity|].
  rewrite IHj. apply Href.
Qed.

Lemma ProcessEvent_costs_sorted (event : Z) (d : ProfilerData) :
  StronglySorted Z.lt (map fst (instruction_costs_ d)) ->
  StronglySorted Z.lt (map fst (instruction_costs_ (ProcessEvent event d))).
Proof.
  intros Hs. unfold ProcessEvent.
  destruct (EventType_of_code (GetEventType event)) as [[]|]; try exact Hs.
  - unfold ProcessInstructionExecute.
    destruct (call_stack_ d); cbn [instruction_costs_];
      rewrite bump_stack_keys; repeat apply smap_index_sorted; exact Hs.
  - apply smap_index_sorted, Hs.
  - apply smap_index_sorted, Hs.
  - rewrite (proj1 (ProcessReturn_frame _ d)). exact Hs.
  - unfold ProcessDataRead. cbn [instruction_costs_]. rewrite bump_stack_keys.
    destruct (negb _); [apply smap_index_sorted|]; exact Hs.
  - unfold ProcessDataWrite. cbn [instruction_costs_]. rewrite bump_stack_keys.
    destruct (negb _); [apply smap_index_sorted|]; exact Hs.
  - unfold ProcessInstrRead. cbn [instruction_costs_]. rewrite bump_stack_keys.
    destruct (negb _); [apply smap_index_sorted|]; exact Hs.
Qed.

(** From a cleared state the addresses of the table stay strictly ascending,
    so no address occurs twice in it. *)
Lemma reachable_costs_sorted (d0 : ProfilerData) (evs : list Z) :
  StronglySorted Z.lt
    (map fst (instruction_costs_ (ProcessBuffer evs (Clear d0)))).
Proof.
  assert (H : forall evs d,
            StronglySorted Z.lt (map fst (instruction_costs_ d)) ->
            StronglySorted Z.lt
              (map fst (instruction_costs_ (ProcessBuffer evs d)))).
  { clear. unfold ProcessBuffer.
    induction evs as [|e evs IH]; intros d Hd; simpl; [exact Hd|].
    apply IH, ProcessEvent_costs_sorted, Hd. }
  apply H. constructor.
Qed.

(** ** Ranges of decoded values *)

Lemma GetEventAddress_range (event : Z) : 0 <= GetEventAddress event < 2 ^ 24.
Proof.
  unfold GetEventAddress. change 16777215 with (Z.ones 24).
  rewrite Z.land_ones by lia. apply Z.mod_pos_bound. lia.
Qed.

Lemma GetReturnOffset_range (event : Z) : 0 <= GetReturnOffset event < 16.
Proof.
  unfold GetReturnOffset. change 15 with (Z.ones 4).
  rewrite Z.land_ones by lia. apply Z.mod_pos_bound. lia.
Qed.

Lemma ProcessEvent_pc_range (event : Z) (d : ProfilerData) :
  0 <= current_pc_ d < 2 ^ 24 ->
  0 <= current_pc_ (ProcessEvent event d) < 2 ^ 24.
Proof.
  intros Hd. pose proof (GetEventAddress_range event) as Ha.
  unfold ProcessEvent.
  destruct (EventType_of_code (GetEventType event)) as [[]|];
    try exact Hd; try exact Ha.
  - unfold ProcessInstructionExecute.
    destruct (call_stack_ d); exact Ha.
  - unfold ProcessReturn. destruct (last (call_stack_ d)); exact Ha.
Qed.

(** In every state the interpreter reaches, and for every call event, the
    expected return address [current_pc_ + 2 + return_offset] does not wrap:
    the range condition of C7 always holds there. *)
Lemma reachable_return_address_fits
    (d0 : ProfilerData) (evs : list Z) (event : Z) :
  0 <= current_pc_ (ProcessBuffer evs (Clear d0)) + 2 + GetReturnOffset event
    < 2 ^ 32.
Proof.
  pose proof (GetReturnOffset_range event) as Hoff.
  assert (H : forall evs d, 0 <= current_pc_ d < 2 ^ 24 ->
            0 <= current_pc_ (ProcessBuffer evs d) < 2 ^ 24).
  { clear. unfold ProcessBuffer.
    induction evs as [|e evs IH]; intros d Hd; simpl; [exact Hd|].
    apply IH, ProcessEvent_pc_range, Hd. }
  specialize (H evs (Clear d0) ltac:(simpl; lia)). lia.
Qed.

(** ** The theorems at concrete inputs *)

(** C7 at the scenario of the specification: a call at pc 0x2000 to 0x3000
    with return offset 0, then a return to 0x2002. *)
Lemma ProcessCall_pushes_ProcessReturn_pops_witness :
  let d :=
    ProcessBuffer [recorded_word (RecordInstructionExecute 0x2000)]
      ProfilerData_new in
  0 <= current_pc_ d + 2 + 0 < 2 ^ 32 /\
  (exists fr,
     call_stack_ (ProcessCall 0x3000 0 d) = call_stack_ d ++ [fr] /\
     return_address fr = 0x2002) /\
  call_stack_ (ProcessReturn 0x2002 (ProcessCall 0x3000 0 d)) = call_stack_ d.
Proof.
  intros d.
  assert (Hrange : 0 <= current_pc_ d + 2 + 0 < 2 ^ 32)
    by (vm_compute; split; [discriminate|reflexivity]).
  destruct (ProcessCall_pushes_ProcessReturn_pops d 0x3000 0 Hrange)
    as ((fr & Hpush & Hret & _) & _ & _ & Hpop).
  split; [exact Hrange|]. split.
  - exists fr. split; [exact Hpush|exact Hret].
  - exact Hpop.
Defined.

(** C6 after InstrExecute 0x1000 and Call 0x3000: the frames expect 0 and
    0x1002, and the return goes to 0x9999. *)
Lemma ProcessReturn_mismatch_resets_stack_witness :
  let d :=
    ProcessBuffer
      (map recorded_word [RecordInstructionExecute 0x1000; RecordCall 0x3000 0])
      ProfilerData_new in
  call_stack_ d <> [] /\
  (forall fr, In fr (call_stack_ d) -> return_address fr <> 0x9999) /\
  call_stack_ (ProcessReturn 0x9999 d) = [] /\
  call_stack_ (ProcessInstructionExecute 0x4000 (ProcessReturn 0x9999 d))
  = [mkCallFrame 0x4000 0 0 (CallRef 0 0x4000) []].
Proof.
  intros d.
  assert (Hne : call_stack_ d <> []) by (vm_compute; discriminate).
  assert (Hno : forall fr, In fr (call_stack_ d) ->
                return_address fr <> 0x9999).
  { intros fr Hin. vm_compute in Hin.
    destruct Hin as [<-|[<-|[]]]; vm_compute; discriminate. }
  destruct (ProcessReturn_mismatch_resets_stack d 0x9999 Hne Hno)
    as (Hst & _ & Hnext).
  split; [exact Hne|]. split; [exact Hno|]. split; [exact Hst|].
  exact (proj1 (Hnext 0x4000)).
Defined.

(** C9 right after [Profiler_Initialize]: buffer 0 is current, buffer 1 is
    the front of the empty queue, and 8193 instruction events are recorded. *)
Lemma one_buffer_switch_for_8193_events_witness :
  let rs := repeat (RecordInstructionExecute 0x1000) (Z.to_nat 8193) in
  freshly_acquired World_started 0 1 /\
  Z.of_nat (length rs) = BUFFER_SIZE + 1 /\
  last rs = Some (RecordInstructionExecute 0x1000) /\
  exists w3,
    record_all rs World_started = Done w3 /\
    switch_calls w3 = S (switch_calls World_started) /\
    profiler_current_buffer_ptr w3 = Some (1%nat, 1).
Proof.
  intros rs.
  assert (Hfresh : freshly_acquired World_started 0 1).
  { unfold freshly_acquired. eexists. eexists.
    repeat split; try reflexivity; vm_compute; lia. }
  assert (Hlen : Z.of_nat (length rs) = BUFFER_SIZE + 1)
    by (vm_compute; reflexivity).
  assert (Hlast : last rs = Some (RecordInstructionExecute 0x1000))
    by (vm_compute; reflexivity).
  destruct (one_buffer_switch_for_8193_events World_started 0 1 rs
              (RecordInstructionExecute 0x1000) Hfresh Hlen Hlast)
    as (_ & _ & (w3 & p3 & buf & Hrun & Hsc & Hptr & _)).
  split; [exact Hfresh|]. split; [exact Hlen|]. split; [exact Hlast|].
  exists w3. split; [exact Hrun|]. split; [exact Hsc|exact Hptr].
Defined.

(** C3 on a short run: two instructions with a call between them. *)
Lemma sum_self_cost_equals_total_instructions_witness :
  let evs :=
    map recorded_word
      [RecordInstructionExecute 0x1000; RecordCall 0x3000 0;
       RecordInstructionExecute 0x3000] in
  Z.of_nat (length evs) < 2 ^ 64 /\
  exact_sum_self
    (instruction_costs_ (ProcessBuffer evs (Clear ProfilerData_new))) = 2 /\
  total_instructions_ (ProcessBuffer evs (Clear ProfilerData_new)) = 2.
Proof.
  intros evs.
  assert (Hlen : Z.of_nat (length evs) < 2 ^ 64) by reflexivity.
  pose proof (proj2 (sum_self_cost_equals_total_instructions
                       ProfilerData_new evs) Hlen) as H.
  split; [exact Hlen|]. split; [rewrite H|]; reflexivity.
Defined.

(** C4 on the table left by InstrExecute 0x1000, Call 0x3000, InstrExecute
    0x3000: the instruction at 0x3000 is in the function 0x3000 only. *)
Lemma ConvertToGroupedData_partitions_cost_table_witness :
  let data :=
    ProcessBuffer
      (map recorded_word
         [RecordInstructionExecute 0x1000; RecordCall 0x3000 0;
          RecordInstructionExecute 0x3000])
      ProfilerData_new in
  let c := mkInstructionCost 1 0 0 0 [] [] in
  In (0x3000, c) (instruction_costs_ data) /\
  exists e f,
    In (e, f) (GetFunctions (ConvertToGroupedData data)) /\
    In (0x3000, c) (instructions f) /\
    owns (function_entries (instruction_costs_ data)) 0x3000 e.
Proof.
  intros data c.
  assert (Hin : In (0x3000, c) (instruction_costs_ data))
    by (vm_compute; auto).
  destruct (ConvertToGroupedData_partitions_cost_table data)
    as (_ & _ & Hown & Hex).
  destruct (Hex 0x3000 c Hin) as (e & f & Hf & Hi & _).
  split; [exact Hin|]. exists e, f.
  split; [exact Hf|]. split; [exact Hi|].
  exact (proj2 (Hown e f 0x3000 c Hf Hi)).
Defined.


(** C8 on a function of one instruction executed once with one fetch: its
    line in the body carries 4 cycles. *)
Lemma callgrind_cost_line_fields_witness :
  let cost := mkInstructionCost 1 1 0 0 [] [] in
  let f := mkGroupedFunction 0x1000 [(0x1000, cost)] [] 1 1 0 0 in
  let data := mkGroupedProfilerData [(0x1000, f)] [] 1 in
  In (0x1000, f) (GetFunctions data) /\
  In (0x1000, cost) (instructions f) /\
  exists pre last pos post,
    position_text last 0x1000 pos /\
    WriteBody EmptyString data
    = (pre ++ pos ++ cost_fields_text 4 1 0 0 ++ post)%string.
Proof.
  intros cost f data.
  assert (Hf : In (0x1000, f) (GetFunctions data)) by (left; reflexivity).
  assert (Hi : In (0x1000, cost) (instructions f)) by (left; reflexivity).
  destruct callgrind_cost_line_fields as (_ & Hbody & _).
  destruct (Hbody EmptyString data 0x1000 f (0x1000, cost) Hf Hi)
    as (pre & last & pos & post & Hpos & Htext).
  split; [exact Hf|]. split; [exact Hi|].
  exists pre, last, pos, post. split; [exact Hpos|exact Htext].
Defined.

(** * Further properties of the profiler *)

(** ** Event codec: decoding what the encoders store *)

Lemma land_ones24 (a : Z) : Z.land a 16777215 = a mod 2 ^ 24.
Proof. change 16777215 with (Z.ones 24). apply Z.land_ones. lia. Qed.

Lemma recorded_word_shape (r : Recorded) :
  offset_fits r ->
  exists hi,
    recorded_word r = Recorded_address r mod 2 ^ 24 + hi * 2 ^ 24 /\
    hi = EventType_code (Recorded_type r) * 16
         + match r with RecordCall _ off => off | _ => 0 end.
Proof.
  intros Hoff.
  assert (Hadd : forall a k, 0 <= k ->
            Z.lor (Z.land a 16777215) (k * 2 ^ 24)
            = a mod 2 ^ 24 + k * 2 ^ 24).
  { intros a k Hk. rewrite land_ones24.
    rewrite Z.add_comm, <- Z.shiftl_mul_pow2 by lia.
    rewrite Z.lor_comm. symmetry.
    rewrite <- (Z.mod_small (a mod 2 ^ 24) (2 ^ 24))
      by (apply Z.mod_pos_bound; lia).
    rewrite <- Z.land_ones by lia.
    rewrite Z.add_nocarry_lxor, Z.lxor_lor; try reflexivity.
    - apply Z.bits_inj'. intros n Hn.
      rewrite !Z.land_spec, Z.bits_0, Z.shiftl_spec by lia.
      destruct (Z.ltb_spec n 24).
      + rewrite (Z.testbit_neg_r k (n - 24)) by lia. reflexivity.
      + rewrite Z.ones_spec_high by lia. rewrite !andb_false_r. reflexivity.
    - apply Z.bits_inj'. intros n Hn.
      rewrite !Z.land_spec, Z.bits_0, Z.shiftl_spec by lia.
      destruct (Z.ltb_spec n 24).
      + rewrite (Z.testbit_neg_r k (n - 24)) by lia. reflexivity.
      + rewrite Z.ones_spec_high by lia. rewrite !andb_false_r. reflexivity. }
  destruct r as [a|a|a off|a|a|a|a]; simpl recorded_word;
    simpl Recorded_address; simpl Recorded_type; simpl EventType_code.
  - exists 0. rewrite Z.lor_0_r, land_ones24. split; lia.
  - exists 16. split; [apply (Hadd a 16); lia|lia].
  - exists (32 + off). split; [|lia].
    simpl in Hoff. unfold u32.
    rewrite Z.shiftl_mul_pow2, Z.mod_small by lia.
    rewrite <- Z.lor_assoc.
    change 536870912 with (Z.shiftl 32 24).
    rewrite <- (Z.shiftl_mul_pow2 off 24), <- Z.shiftl_lor by lia.
    assert (Hlor : Z.lor 32 off = 32 + off).
    { assert (Hcases : off = 0 \/ off = 1 \/ off = 2 \/ off = 3 \/ off = 4
                       \/ off = 5 \/ off = 6 \/ off = 7 \/ off = 8 \/ off = 9
                       \/ off = 10 \/ off = 11 \/ off = 12 \/ off = 13
                       \/ off = 14 \/ off = 15) by lia.
      repeat (destruct Hcases as [->|Hcases]; [reflexivity|]).
      subst. reflexivity. }
    rewrite Hlor, Z.shiftl_mul_pow2 by lia. apply Hadd. lia.
  - exists 48. split; [apply (Hadd a 48); lia|lia].
  - exists 64. split; [apply (Hadd a 64); lia|lia].
  - exists 80. split; [apply (Hadd a 80); lia|lia].
  - exists 96. split; [apply (Hadd a 96); lia|lia].
Qed.

Lemma decode_fields (lo hi : Z) :
  0 <= lo < 2 ^ 24 -> 0 <= hi < 256 ->
  GetEventAddress (lo + hi * 2 ^ 24) = lo /\
  GetReturnOffset (lo + hi * 2 ^ 24) = hi mod 16 /\
  GetEventType (lo + hi * 2 ^ 24) = hi / 16.
Proof.
  intros Hlo Hhi. unfold GetEventAddress, GetReturnOffset, GetEventType.
  rewrite land_ones24. change 15 with (Z.ones 4).
  rewrite !Z.land_ones, !Z.shiftr_div_pow2 by lia.
  assert (Hdiv : (lo + hi * 2 ^ 24) / 2 ^ 24 = hi).
  { rewrite Z.div_add by lia. rewrite Z.div_small by lia. lia. }
  split; [|split].
  - rewrite Z.mod_add by lia. apply Z.mod_small. lia.
  - rewrite Hdiv. reflexivity.
  - change (2 ^ 28) with (2 ^ 24 * 2 ^ 4).
    rewrite <- Z.div_div by lia. rewrite Hdiv.
    apply Z.mod_small. split.
    + apply Z.div_pos; lia.
    + apply Z.div_lt_upper_bound; lia.
Qed.

Lemma recorded_word_fields (r : Recorded) :
  offset_fits r ->
  GetEventType (recorded_word r) = EventType_code (Recorded_type r) /\
  GetEventAddress (recorded_word r) = Recorded_address r mod 2 ^ 24 /\
  GetReturnOffset (recorded_word r)
  = match r with RecordCall _ off => off | _ => 0 end.
Proof.
  intros Hoff. destruct (recorded_word_shape r Hoff) as (hi & -> & Hhi).
  pose proof (Z.mod_pos_bound (Recorded_address r) (2 ^ 24) ltac:(lia)) as Hlo.
  assert (Hrange : 0 <= hi < 256).
  { destruct r; simpl in *; lia. }
  destruct (decode_fields _ hi Hlo Hrange) as (Ha & Ho & Ht).
  rewrite Ha, Ho, Ht. split; [|split; [reflexivity|]].
  - destruct r; simpl in *; subst hi; try reflexivity.
    rewrite Z.add_comm. rewrite Z.div_add by lia.
    rewrite Z.div_small by lia. reflexivity.
  - destruct r; simpl in *; subst hi; try reflexivity.
    rewrite Z.add_comm. change 32 with (2 * 16).
    rewrite Z.mod_add by lia. apply Z.mod_small. lia.
Qed.

Lemma call_word_testbit (a off m : Z) :
  0 <= m ->
  Z.testbit (recorded_word (RecordCall a off)) m
  = (Z.testbit a m && (m <? 24)) || (m =? 29)
    || (Z.testbit off (m - 24) && (m <? 32)).
Proof.
  intros Hm. cbn [recorded_word]. unfold u32.
  rewrite <- Z.land_ones by lia.
  rewrite !Z.lor_spec, !Z.land_spec, Z.shiftl_spec by lia.
  change 16777215 with (Z.ones 24). change 536870912 with (2 ^ 29).
  rewrite Z.pow2_bits_eqb by lia.
  rewrite !Z.testbit_ones_nonneg by lia.
  rewrite (Z.eqb_sym 29 m). reflexivity.
Qed.

(** The fields of the word [Profiler_RecordCall] stores, whatever the return
    offset: the offset's bits 4 to 7 land in the type nibble. *)
Lemma call_word_fields (a off : Z) :
  GetEventAddress (recorded_word (RecordCall a off)) = a mod 2 ^ 24 /\
  GetReturnOffset (recorded_word (RecordCall a off)) = off mod 16 /\
  GetEventType (recorded_word (RecordCall a off))
  = Z.lor 2 (Z.land (Z.shiftr off 4) 0xF).
Proof.
  unfold GetEventAddress, GetReturnOffset, GetEventType.
  split; [|split].
  - rewrite <- land_ones24. apply Z.bits_inj'. intros n Hn.
    rewrite !Z.land_spec, call_word_testbit by lia.
    change 16777215 with (Z.ones 24). rewrite Z.testbit_ones_nonneg by lia.
    destruct (Z.ltb_spec n 24) as [Hlt|Hge].
    + rewrite (Z.testbit_neg_r off (n - 24)) by lia.
      destruct (Z.eqb_spec n 29); [lia|].
      rewrite !andb_true_r, andb_false_l, !orb_false_r. reflexivity.
    + rewrite !andb_false_r. reflexivity.
  - change 16 with (2 ^ 4). rewrite <- Z.land_ones by lia.
    apply Z.bits_inj'. intros n Hn.
    rewrite !Z.land_spec, Z.shiftr_spec, call_word_testbit by lia.
    change 15 with (Z.ones 4). rewrite Z.testbit_ones_nonneg by lia.
    destruct (Z.ltb_spec n 4) as [Hlt|Hge].
    + destruct (Z.ltb_spec (n + 24) 24); [lia|].
      destruct (Z.eqb_spec (n + 24) 29); [lia|].
      destruct (Z.ltb_spec (n + 24) 32); [|lia].
      replace (n + 24 - 24) with n by lia.
      rewrite !andb_false_r, !andb_true_r. reflexivity.
    + rewrite !andb_false_r. reflexivity.
  - apply Z.bits_inj'. intros n Hn.
    rewrite Z.lor_spec, !Z.land_spec, !Z.shiftr_spec, call_word_testbit
      by lia.
    change 15 with (Z.ones 4). rewrite Z.testbit_ones_nonneg by lia.
    change 2 with (2 ^ 1). rewrite Z.pow2_bits_eqb by lia.
    destruct (Z.ltb_spec n 4) as [Hlt|Hge].
    + destruct (Z.ltb_spec (n + 28) 24); [lia|].
      destruct (Z.ltb_spec (n + 28) 32); [|lia].
      replace (n + 28 - 24) with (n + 4) by lia.
      destruct (Z.eqb_spec (n + 28) 29), (Z.eqb_spec 1 n); try lia;
        destruct (Z.testbit a (n + 28)), (Z.testbit off (n + 4));
        reflexivity.
    + destruct (Z.eqb_spec 1 n); [lia|].
      rewrite !andb_false_r. reflexivity.
Qed.

(** X1: every word an inline recorder stores decodes to the address cut to
    24 bits.  The six recorders other than [Profiler_RecordCall] store a
    word that decodes to their event type.  The word of a call decodes to
    the return offset modulo 16, and its type nibble is 2 combined with
    bits 4 to 7 of the return offset: with a return offset below 16 the
    type is [CALL] and the offset is recovered, while a larger offset
    spills into the type. *)
Theorem recorded_word_round_trip (r : Recorded) :
  GetEventAddress (recorded_word r) = Recorded_address r mod 2 ^ 24 /\
  match r with
  | RecordCall a off =>
      GetReturnOffset (recorded_word r) = off mod 16 /\
      GetEventType (recorded_word r) = Z.lor 2 (Z.land (Z.shiftr off 4) 0xF)
  | _ =>
      EventType_of_code (GetEventType (recorded_word r))
      = Some (Recorded_type r)
  end /\
  (offset_fits r ->
   EventType_of_code (GetEventType (recorded_word r))
   = Some (Recorded_type r) /\
   forall a off, r = RecordCall a off ->
     GetReturnOffset (recorded_word r) = off).
Proof.
  split; [|split].
  - destruct r as [a|a|a off|a|a|a|a];
      try (match goal with
           | |- GetEventAddress (recorded_word ?x) = _ =>
               exact (proj1 (proj2 (recorded_word_fields x I)))
           end).
    exact (proj1 (call_word_fields a off)).
  - destruct r as [a|a|a off|a|a|a|a];
      try (match goal with
           | |- EventType_of_code (GetEventType (recorded_word ?x)) = _ =>
               rewrite (proj1 (recorded_word_fields x I)); reflexivity
           end).
    exact (proj2 (call_word_fields a off)).
  - intros Hoff. destruct (recorded_word_fields r Hoff) as (Ht & Ha & Ho).
    split.
    + rewrite Ht. destruct r; reflexivity.
    + intros a off ->. exact Ho.
Qed.

(** X2: fed the word of a recorder call, [ProcessEvent] runs the handler of
    that recorder's event, on the 24-bit address and, for a call, with the
    recorded return offset. *)
Theorem ProcessEvent_of_recorded_word (r : Recorded) (d : ProfilerData) :
  offset_fits r ->
  ProcessEvent (recorded_word r) d = Process_recorded r d.
Proof.
  intros Hoff. destruct (recorded_word_fields r Hoff) as (Ht & Ha & Ho).
  unfold ProcessEvent. rewrite Ht, Ha, Ho.
  destruct r; reflexivity.
Qed.

(** X3: [MakeEvent] keeps the low 24 bits of the address for every event
    type, whatever the address. *)
Theorem MakeEvent_address_masked (t : EventType) (a : Z) :
  GetEventAddress (MakeEvent t a) = a mod 2 ^ 24.
Proof.
  unfold GetEventAddress, MakeEvent.
  rewrite Z.land_lor_distr_l.
  replace (Z.land (u32 (Z.shiftl (EventType_code t) 24)) 16777215) with 0
    by (destruct t; reflexivity).
  rewrite Z.lor_0_l, <- Z.land_assoc, Z.land_diag. apply land_ones24.
Qed.

Lemma GetEventType_range (event : Z) : 0 <= GetEventType event < 16.
Proof.
  unfold GetEventType. change 15 with (Z.ones 4).
  rewrite Z.land_ones by lia. apply Z.mod_pos_bound. lia.
Qed.

(** X4: a word whose type nibble is none of the seven event types (7..15)
    has no case in the dispatch and leaves the profiler state as it is. *)
Theorem ProcessEvent_ignores_unknown_type (event : Z) (d : ProfilerData) :
  7 <= GetEventType event -> ProcessEvent event d = d.
Proof.
  intros Ht. unfold ProcessEvent, EventType_of_code.
  repeat (match goal with
          | |- context [?x =? ?c] =>
              destruct (Z.eqb_spec x c) as [Heq|_]; [lia|]
          end).
  reflexivity.
Qed.

(** ** Event interpreter: what each handler touches *)

Lemma smap_find_adjust {V : Type} (k k' : Z) (f : V -> V) (m : list (Z * V)) :
  smap_find Z.compare k (smap_adjust Z.compare k' f m)
  = if k =? k' then option_map f (smap_find Z.compare k m)
    else smap_find Z.compare k m.
Proof.
  induction m as [|[k0 v0] m IH]; simpl.
  - destruct (k =? k'); reflexivity.
  - destruct (Z.compare_spec k' k0) as [->|Hlt|Hgt]; simpl.
    + destruct (Z.eqb_spec k k0) as [->|Hne].
      * rewrite Z.compare_refl. reflexivity.
      * destruct (Z.compare_spec k k0); [contradiction|reflexivity..].
    + rewrite IH. destruct (Z.compare_spec k k0) as [Heq|H1|H1];
        destruct (Z.eqb_spec k k'); try reflexivity; subst; lia.
    + rewrite IH. destruct (Z.compare_spec k k0) as [Heq|H1|H1];
        destruct (Z.eqb_spec k k'); try reflexivity; subst; lia.
Qed.

Lemma smap_find_None_above {V : Type} (k : Z) (m : list (Z * V)) :
  (forall x, In x (map fst m) -> k < x) -> smap_find Z.compare k m = None.
Proof.
  induction m as [|[k0 v0] m IH]; simpl; intros Hall; [reflexivity|].
  assert (k < k0) by (apply Hall; auto).
  destruct (Z.compare_spec k k0); try lia; apply IH; intros; apply Hall; auto.
Qed.

(** On a well-formed map, [m[k]] reaches the entry [find] returns. *)
Lemma smap_find_index_sorted {V : Type} (k : Z) (d : V) (f : V -> V)
    (m : list (Z * V)) :
  StronglySorted Z.lt (map fst m) ->
  smap_find Z.compare k (smap_index Z.compare k d f m)
  = Some (f (default d (smap_find Z.compare k m))).
Proof.
  induction m as [|[k0 v0] m IH]; simpl; intros Hs.
  - rewrite Z.compare_refl. reflexivity.
  - apply StronglySorted_inv in Hs. destruct Hs as [Hs Hall].
    rewrite List.Forall_forall in Hall.
    destruct (Z.compare_spec k k0) as [->|Hlt|Hgt]; simpl.
    + rewrite Z.compare_refl. reflexivity.
    + rewrite Z.compare_refl.
      rewrite smap_find_None_above; [reflexivity|].
      intros x Hx. specialize (Hall x Hx). lia.
    + destruct (Z.compare_spec k k0); try lia. apply IH, Hs.
Qed.

Lemma counters_at_update_ref (r : CallInfoRef) (f : CallInfo -> CallInfo)
    (m : list (Z * InstructionCost)) (k : Z) :
  counters_at (update_ref r f m) k = counters_at m k.
Proof.
  unfold counters_at.
  destruct r as [s t|s t]; simpl; rewrite smap_find_adjust;
    destruct (k =? s); try reflexivity;
    destruct (smap_find Z.compare k m); reflexivity.
Qed.

Lemma counters_at_bump_stack (f : CallInfo -> CallInfo)
    (stack : list CallFrame) (m : list (Z * InstructionCost)) (k : Z) :
  counters_at (bump_stack f stack m) k = counters_at m k.
Proof.
  unfold bump_stack. revert m.
  induction stack as [|fr stack IH]; intros m; simpl; [reflexivity|].
  rewrite IH. unfold bump_frame.
  rewrite <- (counters_at_update_ref (call_info fr) f m k).
  generalize (update_ref (call_info fr) f m).
  induction (jump_refs fr) as [|j js IHj]; intros m1; simpl; [reflexivity|].
  rewrite IHj. apply counters_at_update_ref.
Qed.

Lemma counters_at_index (k a : Z) (f : InstructionCost -> InstructionCost)
    (m : list (Z * InstructionCost)) :
  StronglySorted Z.lt (map fst m) ->
  counters_at (smap_index Z.compare k InstructionCost_default f m) a
  = if a =? k
    then Some (counters
                 (f (default InstructionCost_default
                       (smap_find Z.compare k m))))
    else counters_at m a.
Proof.
  intros Hs. unfold counters_at.
  destruct (Z.eqb_spec a k) as [->|Hne].
  - rewrite smap_find_index_sorted by exact Hs. reflexivity.
  - rewrite smap_find_index_other by exact Hne. reflexivity.
Qed.

Lemma pair_compare_eq (p q : Z * Z) : pair_compare p q = Eq -> p = q.
Proof.
  destruct p as [p1 p2], q as [q1 q2]. unfold pair_compare. simpl.
  destruct (Z.compare_spec p1 q1); try discriminate.
  destruct (Z.compare_spec p2 q2); try discriminate. congruence.
Qed.

Lemma pair_compare_refl (p : Z * Z) : pair_compare p p = Eq.
Proof. unfold pair_compare. rewrite !Z.compare_refl. reflexivity. Qed.

Lemma insert_or_assign_In {V : Type} (k : Z * Z) (v : V)
    (m : list ((Z * Z) * V)) :
  In (k, v) (smap_index pair_compare k v (fun _ => v) m).
Proof.
  induction m as [|[k' v'] m IH]; simpl; [auto|].
  destruct (pair_compare k k') eqn:E; simpl; auto.
  apply pair_compare_eq in E. subst. auto.
Qed.

(** X5: a jump neither pushes nor pops: the frames keep their address, call
    site, expected return address and call edge, all frames below the top
    are untouched, the instruction counter is unchanged and current-pc
    becomes the target; the jump edge is in the table afterwards and, when
    the stack is not empty, the top frame holds a reference to it. *)
Theorem ProcessJump_keeps_frames (addr : Z) (d : ProfilerData) :
  let d' := ProcessJump addr d in
  map frame_core (call_stack_ d') = map frame_core (call_stack_ d) /\
  removelast (call_stack_ d') = removelast (call_stack_ d) /\
  total_instructions_ d' = total_instructions_ d /\
  current_pc_ d' = addr /\
  (exists c ci,
     smap_find Z.compare (current_pc_ d) (instruction_costs_ d') = Some c /\
     smap_find Z.compare addr (jumps c) = Some ci) /\
  (forall top, last (call_stack_ d') = Some top ->
     In ((current_pc_ d, addr), JumpRef (current_pc_ d) addr)
        (jump_refs top)).
Proof.
  intros d'. subst d'. unfold ProcessJump.
  cbn [call_stack_ total_instructions_ current_pc_ instruction_costs_].
  assert (Hstack :
    map frame_core (back_insert_jump_ref (current_pc_ d, addr)
                      (JumpRef (current_pc_ d) addr) (call_stack_ d))
    = map frame_core (call_stack_ d) /\
    removelast (back_insert_jump_ref (current_pc_ d, addr)
                  (JumpRef (current_pc_ d) addr) (call_stack_ d))
    = removelast (call_stack_ d) /\
    forall top,
      last (back_insert_jump_ref (current_pc_ d, addr)
              (JumpRef (current_pc_ d) addr) (call_stack_ d)) = Some top ->
      In ((current_pc_ d, addr), JumpRef (current_pc_ d) addr)
         (jump_refs top)).
  { unfold back_insert_jump_ref.
    destruct (last (call_stack_ d)) as [top|] eqn:El.
    - apply last_Some in El. destruct El as [l ->].
      rewrite !removelast_last, !map_app. repeat split.
      intros top'. rewrite last_snoc. intros [= <-]. cbn [jump_refs set_jump_refs].
      apply insert_or_assign_In.
    - apply last_None in El. rewrite El. repeat split.
      intros top' Hl. discriminate. }
  destruct Hstack as (H1 & H2 & H3).
  split; [exact H1|]. split; [exact H2|]. split; [reflexivity|].
  split; [reflexivity|]. split; [|exact H3].
  destruct (smap_find_index_same (current_pc_ d) InstructionCost_default
    (fun c => set_jumps
       (smap_index Z.compare addr CallInfo_default incr_call_count (jumps c))
       c) (instruction_costs_ d)) as [v Hv].
  destruct (smap_find_index_same addr CallInfo_default incr_call_count
              (jumps v)) as [w Hw].
  eexists. eexists. split; [exact Hv|exact Hw].
Qed.

Lemma search_return_finds (pre post : list CallFrame) (fr : CallFrame)
    (addr : Z) (k : nat) :
  return_address fr = addr ->
  (forall f, In f post -> return_address f <> addr) ->
  (k <= length post)%nat ->
  search_return (pre ++ fr :: post) addr (length pre + 1 + k)
  = Some (length post + 1)%nat.
Proof.
  intros Hfr Hpost. induction k as [|k IH]; intros Hk.
  - replace (length pre + 1 + 0)%nat with (S (length pre)) by lia.
    cbn [search_return].
    rewrite lookup_app_r by lia. rewrite Nat.sub_diag.
    change ((fr :: post) !! O) with (Some fr). cbv beta iota.
    rewrite Hfr, Z.eqb_refl. f_equal. rewrite length_app. cbn [length]. lia.
  - replace (length pre + 1 + S k)%nat with (S (length pre + 1 + k)) by lia.
    cbn [search_return].
    rewrite lookup_app_r by lia.
    replace (length pre + 1 + k - length pre)%nat with (S k) by lia.
    change ((fr :: post) !! S k) with (post !! k).
    destruct (lookup_lt_is_Some_2 post k ltac:(lia)) as [f Hf].
    rewrite Hf. cbv beta iota.
    assert (Hin : In f post).
    { apply list_elem_of_In. eapply list_elem_of_lookup_2. exact Hf. }
    pose proof (Hpost f Hin) as Hne. apply Z.eqb_neq in Hne. rewrite Hne.
    apply IH. lia.
Qed.

(** X6: a return that the top frame does not expect but a deeper frame does
    unwinds like a longjmp: every frame from the top down through the
    innermost frame that expects the address is popped, the frames below it
    stay, and current-pc becomes the address. *)
Theorem ProcessReturn_unwinds_to_innermost_match
    (d : ProfilerData) (addr : Z) (pre post : list CallFrame)
    (fr : CallFrame) :
  call_stack_ d = pre ++ fr :: post ->
  post <> [] ->
  return_address fr = addr ->
  (forall f, In f post -> return_address f <> addr) ->
  call_stack_ (ProcessReturn addr d) = pre /\
  current_pc_ (ProcessReturn addr d) = addr.
Proof.
  intros Hst Hpost Hfr Hno. unfold ProcessReturn. rewrite Hst.
  destruct (exists_last Hpost) as (post' & top & Hp).
  assert (Hlast : last (pre ++ fr :: post) = Some top).
  { rewrite Hp. change (pre ++ fr :: post' ++ [top])
      with (pre ++ (fr :: post') ++ [top]).
    rewrite app_assoc. apply last_snoc. }
  rewrite Hlast. cbn [call_stack_ current_pc_].
  assert (Htop : return_address top <> addr).
  { apply Hno. rewrite Hp. apply in_or_app. right. left. reflexivity. }
  apply Z.eqb_neq in Htop. rewrite Htop.
  replace (length (pre ++ fr :: post))
    with (length pre + 1 + length post)%nat
    by (rewrite length_app; cbn [length]; lia).
  rewrite (search_return_finds pre post fr addr (length post) Hfr Hno)
    by lia.
  split; [|reflexivity].
  rewrite pop_frames_firstn. rewrite length_app. cbn [length].
  replace (length pre + S (length post) - (length post + 1))%nat
    with (length pre) by lia.
  apply take_app_length.
Qed.

Lemma ProcessReturn_stack_prefix (addr : Z) (d : ProfilerData) :
  exists n, call_stack_ (ProcessReturn addr d) = firstn n (call_stack_ d).
Proof.
  unfold ProcessReturn. destruct (last (call_stack_ d)) as [top|]; simpl.
  - destruct (return_address top =? addr).
    + eexists. apply removelast_firstn_len.
    + destruct (search_return _ _ _).
      * eexists. apply pop_frames_firstn.
      * exists O. rewrite pop_while_nonempty_clears by lia.
        destruct (call_stack_ d); reflexivity.
  - exists (length (call_stack_ d)). symmetry. apply firstn_all.
Qed.

Lemma ProcessEvent_frames_in_range (event : Z) (d : ProfilerData) :
  0 <= current_pc_ d < 2 ^ 24 ->
  Forall frame_in_range (call_stack_ d) ->
  Forall frame_in_range (call_stack_ (ProcessEvent event d)).
Proof.
  intros Hpc Hfr. pose proof (GetEventAddress_range event) as Ha.
  pose proof (GetReturnOffset_range event) as Ho.
  unfold ProcessEvent.
  destruct (EventType_of_code (GetEventType event)) as [[]|];
    try exact Hfr.
  - (* INSTR_EXECUTE *)
    unfold ProcessInstructionExecute.
    destruct (call_stack_ d) as [|f0 st] eqn:Est; cbn [call_stack_].
    + constructor; [|constructor]. unfold frame_in_range. simpl.
      split; [exact Ha|]. split; [lia|]. left. auto.
    + exact Hfr.
  - (* JUMP *)
    unfold ProcessJump, back_insert_jump_ref. cbn [call_stack_].
    destruct (last (call_stack_ d)) as [top|] eqn:El; [|exact Hfr].
    apply last_Some in El. destruct El as [l El]. rewrite El in *.
    rewrite removelast_last. apply Forall_app in Hfr.
    destruct Hfr as [Hl Ht]. apply Forall_app. split; [exact Hl|].
    constructor; [|constructor]. inversion Ht; subst. assumption.
  - (* CALL *)
    unfold ProcessCall. cbn [call_stack_]. apply Forall_app.
    split; [exact Hfr|]. constructor; [|constructor].
    unfold frame_in_range. simpl. split; [exact Ha|]. split; [exact Hpc|].
    right. exists (GetReturnOffset event). split; [exact Ho|].
    unfold u32. apply Z.mod_small. lia.
  - (* RETURN *)
    destruct (ProcessReturn_stack_prefix (GetEventAddress event) d)
      as [n ->].
    apply Forall_take. exact Hfr.
Qed.

(** X8: in every state reached from a cleared profiler, current-pc is a
    24-bit address and every frame on the call stack has a 24-bit entry
    address and call site and an expected return address that is either 0
    (synthesized root) or the call site plus 2 plus a return offset below
    16, computed without wrap-around. *)
Theorem reachable_frames_in_range (d0 : ProfilerData) (evs : list Z) :
  0 <= current_pc_ (ProcessBuffer evs (Clear d0)) < 2 ^ 24 /\
  Forall frame_in_range (call_stack_ (ProcessBuffer evs (Clear d0))).
Proof.
  assert (H : forall evs d,
            0 <= current_pc_ d < 2 ^ 24 /\
            Forall frame_in_range (call_stack_ d) ->
            0 <= current_pc_ (ProcessBuffer evs d) < 2 ^ 24 /\
            Forall frame_in_range (call_stack_ (ProcessBuffer evs d))).
  { clear. unfold ProcessBuffer.
    induction evs as [|e evs IH]; intros d [Hpc Hfr]; simpl; [auto|].
    apply IH. split.
    - apply ProcessEvent_pc_range, Hpc.
    - apply ProcessEvent_frames_in_range; assumption. }
  apply H. simpl. split; [lia|constructor].
Qed.

(** ** Event interpreter: the references held by frames stay valid *)

Lemma smap_find_index_keeps {V : Type} (k t : Z) (d : V) (f : V -> V)
    (m : list (Z * V)) :
  smap_find Z.compare t m <> None ->
  smap_find Z.compare t (smap_index Z.compare k d f m) <> None.
Proof.
  intros H. destruct (Z.eq_dec t k) as [->|Hne].
  - destruct (smap_find_index_same k d f m) as [v ->]. discriminate.
  - rewrite smap_find_index_other by exact Hne. exact H.
Qed.

Lemma smap_find_adjust_keeps {V : Type} (k t : Z) (f : V -> V)
    (m : list (Z * V)) :
  smap_find Z.compare t m <> None ->
  smap_find Z.compare t (smap_adjust Z.compare k f m) <> None.
Proof.
  intros H. rewrite smap_find_adjust.
  destruct (t =? k); [|exact H].
  destruct (smap_find Z.compare t m); [discriminate|contradiction].
Qed.

Lemma ref_live_alt (costs : list (Z * InstructionCost)) (r : CallInfoRef) :
  ref_live costs r <->
  exists c,
    smap_find Z.compare
      (match r with CallRef s _ | JumpRef s _ => s end) costs = Some c /\
    smap_find Z.compare
      (match r with CallRef _ t | JumpRef _ t => t end)
      (match r with CallRef _ _ => calls c | JumpRef _ _ => jumps c end)
    <> None.
Proof.
  destruct r as [s t|s t]; simpl; split.
  - intros (c & ci & H1 & H2). exists c. split; [exact H1|congruence].
  - intros (c & H1 & H2). exists c.
    destruct (smap_find Z.compare t (calls c)) as [ci|]; [eauto|contradiction].
  - intros (c & ci & H1 & H2). exists c. split; [exact H1|congruence].
  - intros (c & H1 & H2). exists c.
    destruct (smap_find Z.compare t (jumps c)) as [ci|]; [eauto|contradiction].
Qed.

Lemma ref_live_index (k : Z) (f : InstructionCost -> InstructionCost)
    (m : list (Z * InstructionCost)) (r : CallInfoRef) :
  StronglySorted Z.lt (map fst m) ->
  (forall c, edges_kept c (f c)) ->
  ref_live m r ->
  ref_live (smap_index Z.compare k InstructionCost_default f m) r.
Proof.
  intros Hs Hf. rewrite !ref_live_alt. intros (c & H1 & H2).
  set (s := match r with CallRef s _ | JumpRef s _ => s end) in *.
  destruct (Z.eq_dec s k) as [Heq|Hne].
  - exists (f c). rewrite Heq in *.
    rewrite smap_find_index_sorted by exact Hs. rewrite H1. cbn [default].
    split; [reflexivity|].
    destruct r; [apply (proj1 (Hf c))|apply (proj2 (Hf c))]; exact H2.
  - exists c. rewrite smap_find_index_other by exact Hne. auto.
Qed.

Lemma ref_live_adjust (k : Z) (f : InstructionCost -> InstructionCost)
    (m : list (Z * InstructionCost)) (r : CallInfoRef) :
  (forall c, edges_kept c (f c)) ->
  ref_live m r -> ref_live (smap_adjust Z.compare k f m) r.
Proof.
  intros Hf. rewrite !ref_live_alt. intros (c & H1 & H2).
  set (s := match r with CallRef s _ | JumpRef s _ => s end) in *.
  rewrite smap_find_adjust, H1.
  destruct (s =? k); [|exists c; auto].
  exists (f c). split; [reflexivity|].
  destruct r; [apply (proj1 (Hf c))|apply (proj2 (Hf c))]; exact H2.
Qed.

Lemma edges_kept_calls_index (t : Z) (g : CallInfo -> CallInfo)
    (c : InstructionCost) :
  edges_kept c
    (set_calls (smap_index Z.compare t CallInfo_default g (calls c)) c).
Proof.
  split; simpl; [|auto]. intros t0. apply smap_find_index_keeps.
Qed.

Lemma edges_kept_jumps_index (t : Z) (g : CallInfo -> CallInfo)
    (c : InstructionCost) :
  edges_kept c
    (set_jumps (smap_index Z.compare t CallInfo_default g (jumps c)) c).
Proof.
  split; simpl; [auto|]. intros t0. apply smap_find_index_keeps.
Qed.

Lemma ref_live_update_ref (r0 : CallInfoRef) (g : CallInfo -> CallInfo)
    (m : list (Z * InstructionCost)) (r : CallInfoRef) :
  ref_live m r -> ref_live (update_ref r0 g m) r.
Proof.
  destruct r0 as [s t|s t]; simpl; apply ref_live_adjust; intros c;
    split; simpl; auto; intros t0; apply smap_find_adjust_keeps.
Qed.

Lemma ref_live_bump_stack (g : CallInfo -> CallInfo) (stack : list CallFrame)
    (m : list (Z * InstructionCost)) (r : CallInfoRef) :
  ref_live m r -> ref_live (bump_stack g stack m) r.
Proof.
  unfold bump_stack. revert m.
  induction stack as [|fr stack IH]; intros m H; simpl; [exact H|].
  apply IH. unfold bump_frame.
  pose proof (ref_live_update_ref (call_info fr) g m r H) as H0. revert H0.
  generalize (update_ref (call_info fr) g m).
  induction (jump_refs fr) as [|j js IHj]; intros m1 H1; simpl; [exact H1|].
  apply IHj, ref_live_update_ref, H1.
Qed.

Lemma frame_live_mono (m m' : list (Z * InstructionCost)) (fr : CallFrame) :
  (forall r, ref_live m r -> ref_live m' r) ->
  frame_live m fr -> frame_live m' fr.
Proof.
  intros Hm (H1 & H2 & H3). split; [exact H1|]. split; [apply Hm, H2|].
  eapply List.Forall_impl; [|exact H3]. simpl. intros je [Ha Hb].
  split; [exact Ha|apply Hm, Hb].
Qed.

Lemma insert_or_assign_elems {V : Type} (k : Z * Z) (v : V)
    (m : list ((Z * Z) * V)) (je : (Z * Z) * V) :
  In je (smap_index pair_compare k v (fun _ => v) m) ->
  In je m \/ je = (k, v).
Proof.
  induction m as [|[k' v'] m IH]; simpl.
  - intros [<-|[]]. auto.
  - destruct (pair_compare k k') eqn:E; simpl.
    + apply pair_compare_eq in E. subst k'. intros [<-|H]; auto.
    + intros [<-|[<-|H]]; auto.
    + intros [<-|H]; [auto|]. destruct (IH H); auto.
Qed.

Lemma new_edge_live_calls (pc addr : Z) (g : CallInfo -> CallInfo)
    (m : list (Z * InstructionCost)) :
  ref_live
    (smap_index Z.compare pc InstructionCost_default
       (fun c =>
          set_calls (smap_index Z.compare addr CallInfo_default g (calls c)) c)
       m)
    (CallRef pc addr).
Proof.
  destruct (smap_find_index_same pc InstructionCost_default
    (fun c =>
       set_calls (smap_index Z.compare addr CallInfo_default g (calls c)) c)
    m) as [v Hv].
  destruct (smap_find_index_same addr CallInfo_default g (calls v))
    as [w Hw].
  simpl. eexists. eexists. split; [exact Hv|exact Hw].
Qed.

Lemma new_edge_live_jumps (pc addr : Z) (g : CallInfo -> CallInfo)
    (m : list (Z * InstructionCost)) :
  ref_live
    (smap_index Z.compare pc InstructionCost_default
       (fun c =>
          set_jumps (smap_index Z.compare addr CallInfo_default g (jumps c)) c)
       m)
    (JumpRef pc addr).
Proof.
  destruct (smap_find_index_same pc InstructionCost_default
    (fun c =>
       set_jumps (smap_index Z.compare addr CallInfo_default g (jumps c)) c)
    m) as [v Hv].
  destruct (smap_find_index_same addr CallInfo_default g (jumps v))
    as [w Hw].
  simpl. eexists. eexists. split; [exact Hv|exact Hw].
Qed.

Lemma ProcessEvent_frames_live (event : Z) (d : ProfilerData) :
  StronglySorted Z.lt (map fst (instruction_costs_ d)) ->
  Forall (frame_live (instruction_costs_ d)) (call_stack_ d) ->
  Forall (frame_live (instruction_costs_ (ProcessEvent event d)))
    (call_stack_ (ProcessEvent event d)).
Proof.
  intros Hs Hfr. unfold ProcessEvent.
  destruct (EventType_of_code (GetEventType event)) as [[]|];
    try exact Hfr.
  - (* INSTR_EXECUTE *)
    unfold ProcessInstructionExecute.
    set (addr := GetEventAddress event).
    set (costs1 := smap_index Z.compare addr InstructionCost_default _
                     (instruction_costs_ d)).
    assert (Hm1 : forall r, ref_live (instruction_costs_ d) r ->
                            ref_live costs1 r).
    { intros r. apply ref_live_index; [exact Hs|].
      intros c. split; simpl; auto. }
    destruct (call_stack_ d) as [|f0 st] eqn:Est;
      cbn [call_stack_ instruction_costs_ app].
    + constructor; [|constructor].
      split; [reflexivity|]. split; [|constructor].
      apply ref_live_bump_stack. cbn [call_info].
      apply new_edge_live_calls.
    + eapply List.Forall_impl; [|exact Hfr]. intros fr.
      apply frame_live_mono. intros r Hr.
      apply ref_live_bump_stack, Hm1, Hr.
  - (* JUMP *)
    unfold ProcessJump. cbn [call_stack_ instruction_costs_].
    set (pc := current_pc_ d). set (addr := GetEventAddress event).
    set (costs1 := smap_index Z.compare pc InstructionCost_default _
                     (instruction_costs_ d)).
    assert (Hm1 : forall r, ref_live (instruction_costs_ d) r ->
                            ref_live costs1 r).
    { intros r. apply ref_live_index; [exact Hs|].
      intros c. apply edges_kept_jumps_index. }
    assert (Hold : Forall (frame_live costs1) (call_stack_ d)).
    { eapply List.Forall_impl; [|exact Hfr]. intros fr.
      apply frame_live_mono, Hm1. }
    unfold back_insert_jump_ref.
    destruct (last (call_stack_ d)) as [top|] eqn:El; [|exact Hold].
    apply last_Some in El. destruct El as [l El]. rewrite El in *.
    rewrite removelast_last. apply Forall_app in Hold.
    destruct Hold as [Hl Ht]. apply Forall_app. split; [exact Hl|].
    constructor; [|constructor]. inversion Ht as [|? ? Htop _]; subst.
    destruct Htop as (H1 & H2 & H3).
    split; [exact H1|]. split; [exact H2|].
    cbn [jump_refs set_jump_refs]. apply List.Forall_forall. intros je Hje.
    apply insert_or_assign_elems in Hje. destruct Hje as [Hje| ->].
    * rewrite List.Forall_forall in H3. exact (H3 je Hje).
    * cbn [fst snd]. split; [reflexivity|]. apply new_edge_live_jumps.
  - (* CALL *)
    unfold ProcessCall. cbn [call_stack_ instruction_costs_].
    apply Forall_app. split.
    + eapply List.Forall_impl; [|exact Hfr]. intros fr.
      apply frame_live_mono. intros r.
      apply ref_live_index; [exact Hs|].
      intros c. apply edges_kept_calls_index.
    + constructor; [|constructor].
      split; [reflexivity|]. split; [|constructor].
      cbn [call_info]. apply new_edge_live_calls.
  - (* RETURN *)
    rewrite (proj1 (ProcessReturn_frame (GetEventAddress event) d)).
    destruct (ProcessReturn_stack_prefix (GetEventAddress event) d) as [n ->].
    apply Forall_take. exact Hfr.
  - (* DATA_READ *)
    unfold ProcessDataRead. cbn [call_stack_ instruction_costs_].
    eapply List.Forall_impl; [|exact Hfr]. intros fr.
    apply frame_live_mono. intros r Hr. apply ref_live_bump_stack.
    destruct (negb _); [|exact Hr].
    apply ref_live_index; [exact Hs| |exact Hr].
    intros c. split; simpl; auto.
  - (* DATA_WRITE *)
    unfold ProcessDataWrite. cbn [call_stack_ instruction_costs_].
    eapply List.Forall_impl; [|exact Hfr]. intros fr.
    apply frame_live_mono. intros r Hr. apply ref_live_bump_stack.
    destruct (negb _); [|exact Hr].
    apply ref_live_index; [exact Hs| |exact Hr].
    intros c. split; simpl; auto.
  - (* INSTR_READ *)
    unfold ProcessInstrRead. cbn [call_stack_ instruction_costs_].
    eapply List.Forall_impl; [|exact Hfr]. intros fr.
    apply frame_live_mono. intros r Hr. apply ref_live_bump_stack.
    destruct (negb _); [|exact Hr].
    apply ref_live_index; [exact Hs| |exact Hr].
    intros c. split; simpl; auto.
Qed.

(** X9: in every state reached from a cleared profiler, each frame's call
    edge is the table's edge from the frame's call site to its entry
    address, each active jump of a frame is the table's jump edge for its
    (source, target) pair, and all these edges are present in the table: no
    frame refers to a node that does not exist. *)
Theorem reachable_frames_live (d0 : ProfilerData) (evs : list Z) :
  Forall
    (frame_live (instruction_costs_ (ProcessBuffer evs (Clear d0))))
    (call_stack_ (ProcessBuffer evs (Clear d0))).
Proof.
  assert (H : forall evs d,
            StronglySorted Z.lt (map fst (instruction_costs_ d)) ->
            Forall (frame_live (instruction_costs_ d)) (call_stack_ d) ->
            Forall (frame_live (instruction_costs_ (ProcessBuffer evs d)))
              (call_stack_ (ProcessBuffer evs d))).
  { clear. unfold ProcessBuffer.
    induction evs as [|e evs IH]; intros d Hs Hfr; simpl; [exact Hfr|].
    apply IH.
    - apply ProcessEvent_costs_sorted, Hs.
    - apply ProcessEvent_frames_live; assumption. }
  apply H; simpl; constructor.
Qed.

(** ** Invariant checker *)

Lemma negative_checks_pass (cs : list (Z * CallInfo)) (valid : bool) :
  fold_left
    (fun valid call_entry =>
       let call_info := snd call_entry in
       if (u64 (inclusive_instructions call_info) <? 0)
          || (u64 (inclusive_instr_fetches call_info) <? 0)
          || (u64 (inclusive_data_reads call_info) <? 0)
          || (u64 (inclusive_data_writes call_info) <? 0)
       then false else valid)
    cs valid = valid.
Proof.
  assert (Hneg : forall x, (u64 x <? 0) = false).
  { intros x. apply Z.ltb_ge. unfold u64. apply Z.mod_pos_bound. lia. }
  revert valid. induction cs as [|ce cs IH]; intros valid; simpl;
    [reflexivity|].
  rewrite !Hneg. simpl. apply IH.
Qed.

Lemma CheckProfilerInvariants_fold (total : Z)
    (costs : list (Z * InstructionCost)) (valid : bool) :
  fold_left
    (fun valid entry =>
       let cost := snd entry in
       let valid := if total <? self_cost cost then false else valid in
       fold_left
         (fun valid call_entry =>
            let call_info := snd call_entry in
            if (u64 (inclusive_instructions call_info) <? 0)
               || (u64 (inclusive_instr_fetches call_info) <? 0)
               || (u64 (inclusive_data_reads call_info) <? 0)
               || (u64 (inclusive_data_writes call_info) <? 0)
            then false else valid)
         (calls cost) valid)
    costs valid = true <->
  valid = true /\ Forall (fun entry => self_cost (snd entry) <= total) costs.
Proof.
  revert valid. induction costs as [|e m IH]; intros valid; simpl.
  - split; [intros ->; auto|tauto].
  - rewrite negative_checks_pass, IH.
    destruct (Z.ltb_spec total (self_cost (snd e))) as [Hlt|Hge].
    + split; [intros [H _]; discriminate|].
      intros [_ H]. inversion H; subst. lia.
    + split.
      * intros [-> H]. split; [reflexivity|]. constructor; assumption.
      * intros [-> H]. inversion H; subst. auto.
Qed.

Lemma CheckProfilerInvariants_spec (data : ProfilerData) :
  CheckProfilerInvariants data = true <->
  sum_self (instruction_costs_ data) = total_instructions_ data /\
  Forall (fun entry => self_cost (snd entry) <= total_instructions_ data)
    (instruction_costs_ data).
Proof.
  unfold CheckProfilerInvariants. cbv zeta.
  rewrite CheckProfilerInvariants_fold.
  destruct (Z.eqb_spec (sum_self (instruction_costs_ data))
              (total_instructions_ data)) as [Heq|Hne]; simpl.
  - tauto.
  - split; [intros [H _]; discriminate|tauto].
Qed.

(** X10: [CheckProfilerInvariants] returns true exactly when the 64-bit sum
    of all [self_cost]s equals the instruction counter and no [self_cost]
    exceeds the counter; its checks for negative inclusive counters can
    never fail. *)
Theorem CheckProfilerInvariants_true_iff (data : ProfilerData) :
  CheckProfilerInvariants data = true <->
  sum_self (instruction_costs_ data) = total_instructions_ data /\
  Forall (fun entry => self_cost (snd entry) <= total_instructions_ data)
    (instruction_costs_ data).
Proof. apply CheckProfilerInvariants_spec. Qed.

Lemma ProcessBuffer_conserves_exactly (evs : list Z) (d : ProfilerData)
    (n : Z) :
  0 <= n -> n + Z.of_nat (length evs) < 2 ^ 64 ->
  Forall nonneg_self (instruction_costs_ d) /\
  exact_sum_self (instruction_costs_ d) = total_instructions_ d /\
  total_instructions_ d <= n ->
  Forall nonneg_self (instruction_costs_ (ProcessBuffer evs d)) /\
  exact_sum_self (instruction_costs_ (ProcessBuffer evs d))
  = total_instructions_ (ProcessBuffer evs d) /\
  total_instructions_ (ProcessBuffer evs d) <= n + Z.of_nat (length evs).
Proof.
  unfold ProcessBuffer. revert d n.
  induction evs as [|e evs IH]; intros d n Hn Hlen Inv; simpl.
  - rewrite Z.add_0_r. exact Inv.
  - cbn [length] in Hlen.
    replace (n + Z.of_nat (S (length evs)))
      with (n + 1 + Z.of_nat (length evs)) by lia.
    apply IH; [lia|lia|].
    apply ProcessEvent_conserves_exactly; [lia|exact Inv].
Qed.

(** X11: every state reached from a cleared profiler by fewer than 2^64
    events passes [CheckProfilerInvariants]. *)
Theorem reachable_state_passes_CheckProfilerInvariants
    (d0 : ProfilerData) (evs : list Z) :
  Z.of_nat (length evs) < 2 ^ 64 ->
  CheckProfilerInvariants (ProcessBuffer evs (Clear d0)) = true.
Proof.
  intros Hlen. apply CheckProfilerInvariants_spec.
  destruct (ProcessBuffer_conserves_exactly evs (Clear d0) 0)
    as (Hnn & Hsum & _); [lia|lia| |].
  { simpl. repeat split; [constructor|lia]. }
  split.
  - rewrite sum_self_exact, Hsum. unfold u64. apply Z.mod_small.
    rewrite <- Hsum. pose proof (exact_sum_nonneg _ Hnn).
    destruct (ProcessBuffer_conserves_exactly evs (Clear d0) 0)
      as (_ & Hsum' & Hle); [lia|lia| |].
    { simpl. repeat split; [constructor|lia]. }
    lia.
  - apply List.Forall_forall. intros e He. rewrite <- Hsum.
    apply self_cost_le_exact_sum; [exact Hnn|]. apply in_map. exact He.
Qed.

(** ** Function grouper: totals and call edges *)

Lemma sum_field_exact (field : InstructionCost -> Z)
    (instrs : list (Z * InstructionCost)) (acc : Z) :
  fold_left (fun acc instr => u64 (acc + field (snd instr))) instrs (u64 acc)
  = u64 (acc + fold_right (fun instr s => field (snd instr) + s) 0 instrs).
Proof.
  revert acc. induction instrs as [|i l IH]; intros acc; simpl.
  - f_equal. lia.
  - rewrite u64_idemp_l, IH. f_equal. lia.
Qed.

Lemma add_call_totals (i2f : list (Z * Z)) (addr : Z)
    (cs : list (Z * CallInfo)) (func : GroupedFunction) :
  let func' := fold_left (add_call i2f addr) cs func in
  total_self_instructions func' = total_self_instructions func /\
  total_self_instr_fetches func' = total_self_instr_fetches func /\
  total_self_data_reads func' = total_self_data_reads func /\
  total_self_data_writes func' = total_self_data_writes func.
Proof.
  revert func. induction cs as [|ce cs IH]; intros func; simpl; [auto|].
  destruct (IH (add_call i2f addr func ce)) as (-> & -> & -> & ->).
  unfold add_call. destruct (smap_find _ _ _); auto.
Qed.

Lemma add_jump_totals (i2f : list (Z * Z)) (cross : list (Z * Z)) (addr : Z)
    (js : list (Z * CallInfo)) (func : GroupedFunction) :
  let func' := fold_left (add_jump i2f cross addr) js func in
  total_self_instructions func' = total_self_instructions func /\
  total_self_instr_fetches func' = total_self_instr_fetches func /\
  total_self_data_reads func' = total_self_data_reads func /\
  total_self_data_writes func' = total_self_data_writes func.
Proof.
  revert func. induction js as [|je js IH]; intros func; simpl; [auto|].
  destruct (IH (add_jump i2f cross addr func je)) as (-> & -> & -> & ->).
  unfold add_jump. destruct (Nat.eqb _ _); [auto|].
  destruct (smap_find _ _ _); auto.
Qed.

Lemma build_function_totals (i2f : list (Z * Z)) (cross : list (Z * Z))
    (func_addr : Z) (instrs : list (Z * InstructionCost)) :
  let func := build_function i2f cross func_addr instrs in
  total_self_instructions func = sum_field self_cost instrs /\
  total_self_instr_fetches func = sum_field instr_fetches instrs /\
  total_self_data_reads func = sum_field data_reads instrs /\
  total_self_data_writes func = sum_field data_writes instrs.
Proof.
  unfold build_function, sum_field.
  assert (H : forall func,
    let func' := fold_left (add_instruction i2f cross) instrs func in
    total_self_instructions func'
    = fold_left (fun acc instr => u64 (acc + self_cost (snd instr))) instrs
        (total_self_instructions func) /\
    total_self_instr_fetches func'
    = fold_left (fun acc instr => u64 (acc + instr_fetches (snd instr)))
        instrs (total_self_instr_fetches func) /\
    total_self_data_reads func'
    = fold_left (fun acc instr => u64 (acc + data_reads (snd instr))) instrs
        (total_self_data_reads func) /\
    total_self_data_writes func'
    = fold_left (fun acc instr => u64 (acc + data_writes (snd instr))) instrs
        (total_self_data_writes func)).
  { induction instrs as [|[a c] instrs IH]; intros func; simpl; [auto|].
    destruct (IH (add_instruction i2f cross func (a, c)))
      as (-> & -> & -> & ->).
    unfold add_instruction. cbn [fst snd].
    match goal with
    | |- context [fold_left (add_jump i2f cross a) (jumps c) ?f1] =>
        destruct (add_jump_totals i2f cross a (jumps c) f1)
          as (-> & -> & -> & ->)
    end.
    match goal with
    | |- context [fold_left (add_call i2f a) (calls c) ?f0] =>
        destruct (add_call_totals i2f a (calls c) f0) as (-> & -> & -> & ->)
    end.
    simpl. auto. }
  apply (H (mkGroupedFunction func_addr [] [] 0 0 0 0)).
Qed.

(** Each function of the output is [build_function] applied to one group
    of [temp_functions]. *)
Lemma ConvertToGroupedData_built (data : ProfilerData) :
  let costs := instruction_costs_ data in
  let g := ConvertToGroupedData data in
  grouped_total_instructions_ g = total_instructions_ data /\
  forall e f,
    In (e, f) (functions_ g) ->
    f = build_function
          (build_instruction_to_function (function_entries costs) costs)
          (cross_boundary_jumps costs) e (instructions f).
Proof.
  cbv zeta. unfold ConvertToGroupedData. cbv zeta.
  remember (instruction_costs_ data) as costs eqn:Ec. clear Ec.
  destruct (group_instructions_spec (function_entries costs) costs)
    as (H1 & H2 & H3 & H4).
  destruct (group_instructions costs
              (build_instruction_to_function (function_entries costs) costs))
    as [i2f' temp] eqn:Eg.
  cbn [fst snd] in H1, H2, H3, H4. subst i2f'.
  destruct costs as [|entry0 costs0].
  - simpl. split; [reflexivity|]. intros e f [].
  - remember (entry0 :: costs0) as costs eqn:Ec.
    destruct (AddFunction_fold
      (fun fe => build_function
                   (build_instruction_to_function (function_entries costs)
                      costs)
                   (cross_boundary_jumps costs) (fst fe) (snd fe)) temp
      (SetTotalInstructions (total_instructions_ data)
         (mkGroupedProfilerData [] [] 0)) H2) as (F1 & _ & F3).
    { intros k k' []. }
    split; [rewrite F3; reflexivity|].
    rewrite F1. cbn [functions_ SetTotalInstructions app].
    intros e f Hin. apply in_map_iff in Hin.
    destruct Hin as ([e' l] & [= <- <-] & _). cbn [fst snd].
    rewrite (proj1 (build_function_instructions _ _ e' l)). reflexivity.
Qed.

(** X12: in the output of [ConvertToGroupedData], the four self totals of
    every function are the 64-bit sums of the matching counters over the
    function's own instructions (the first check of
    [CheckGroupedInvariants]). *)
Theorem grouped_function_totals (data : ProfilerData) (e : Z)
    (f : GroupedFunction) :
  In (e, f) (GetFunctions (ConvertToGroupedData data)) ->
  total_self_instructions f = sum_field self_cost (instructions f) /\
  total_self_instr_fetches f = sum_field instr_fetches (instructions f) /\
  total_self_data_reads f = sum_field data_reads (instructions f) /\
  total_self_data_writes f = sum_field data_writes (instructions f).
Proof.
  intros Hin. destruct (ConvertToGroupedData_built data) as [_ Hb].
  rewrite (Hb e f Hin) at 1 3 5 7. apply build_function_totals.
Qed.

Lemma sum_over_functions_exact (field : GroupedFunction -> Z)
    (fs : list (Z * GroupedFunction)) :
  sum_over_functions field fs
  = u64 (fold_right (fun fe s => field (snd fe) + s) 0 fs).
Proof.
  unfold sum_over_functions.
  assert (H : forall acc,
    fold_left (fun acc fe => u64 (acc + field (snd fe))) fs (u64 acc)
    = u64 (acc + fold_right (fun fe s => field (snd fe) + s) 0 fs)).
  { induction fs as [|fe fs IH]; intros acc; simpl.
    - f_equal. lia.
    - rewrite u64_idemp_l, IH. f_equal. lia. }
  exact (H 0).
Qed.

Lemma sum_field_u64 (field : InstructionCost -> Z)
    (instrs : list (Z * InstructionCost)) :
  sum_field field instrs
  = u64 (fold_right (fun instr s => field (snd instr) + s) 0 instrs).
Proof. unfold sum_field. exact (sum_field_exact field instrs 0). Qed.

Lemma exact_field_sum_Permutation (field : InstructionCost -> Z)
    (l1 l2 : list (Z * InstructionCost)) :
  Permutation l1 l2 ->
  fold_right (fun instr s => field (snd instr) + s) 0 l1
  = fold_right (fun instr s => field (snd instr) + s) 0 l2.
Proof. induction 1; simpl; lia. Qed.

Lemma exact_field_sum_app (field : InstructionCost -> Z)
    (l1 l2 : list (Z * InstructionCost)) :
  fold_right (fun instr s => field (snd instr) + s) 0 (l1 ++ l2)
  = fold_right (fun instr s => field (snd instr) + s) 0 l1
    + fold_right (fun instr s => field (snd instr) + s) 0 l2.
Proof. induction l1 as [|x l1 IH]; simpl; lia. Qed.

(** The sum over the functions of a total that is itself the sum over the
    function's instructions is the sum over all instructions. *)
Lemma sum_of_function_sums (ffield : GroupedFunction -> Z)
    (field : InstructionCost -> Z) (fs : list (Z * GroupedFunction)) :
  (forall fe, In fe fs ->
     ffield (snd fe) = sum_field field (instructions (snd fe))) ->
  sum_over_functions ffield fs
  = sum_field field (concat (map (fun fe => instructions (snd fe)) fs)).
Proof.
  intros Hf. rewrite sum_over_functions_exact, sum_field_u64.
  induction fs as [|fe fs IH]; simpl; [reflexivity|].
  rewrite exact_field_sum_app.
  rewrite (Hf fe (or_introl eq_refl)), sum_field_u64.
  rewrite u64_idemp_l. apply u64_add_r. apply IH.
  intros fe' Hin. apply Hf. right. exact Hin.
Qed.

Lemma grouped_sums (data : ProfilerData) :
  let fs := GetFunctions (ConvertToGroupedData data) in
  let costs := instruction_costs_ data in
  sum_over_functions total_self_instructions fs = sum_field self_cost costs /\
  sum_over_functions total_self_instr_fetches fs
  = sum_field instr_fetches costs /\
  sum_over_functions total_self_data_reads fs = sum_field data_reads costs /\
  sum_over_functions total_self_data_writes fs
  = sum_field data_writes costs.
Proof.
  intros fs costs.
  destruct (ConvertToGroupedData_functions data)
    as (_ & _ & _ & Hperm & _).
  rewrite map_map in Hperm. cbn [fst snd] in Hperm. fold costs in Hperm.
  destruct (ConvertToGroupedData_built data) as [_ Hb].
  assert (Ht : forall fe, In fe fs ->
    total_self_instructions (snd fe)
    = sum_field self_cost (instructions (snd fe)) /\
    total_self_instr_fetches (snd fe)
    = sum_field instr_fetches (instructions (snd fe)) /\
    total_self_data_reads (snd fe)
    = sum_field data_reads (instructions (snd fe)) /\
    total_self_data_writes (snd fe)
    = sum_field data_writes (instructions (snd fe))).
  { intros [e f] Hin. cbn [snd]. rewrite (Hb e f Hin) at 1 3 5 7.
    apply build_function_totals. }
  assert (Hsum : forall ffield field,
    (forall fe, In fe fs ->
       ffield (snd fe) = sum_field field (instructions (snd fe))) ->
    sum_over_functions ffield fs = sum_field field costs).
  { intros ffield field Hf. rewrite (sum_of_function_sums ffield field fs Hf).
    rewrite !sum_field_u64. f_equal.
    apply exact_field_sum_Permutation. exact Hperm. }
  repeat split; apply Hsum; intros fe Hin; apply (Ht fe Hin).
Qed.

(** X13: grouping conserves the totals.  The grand total of the grouped data
    is the profiler's instruction counter, and for each of the four
    counters the 64-bit sum of the per-function self totals equals the
    64-bit sum of that counter over the whole instruction-cost table. *)
Theorem grouping_conserves_totals (data : ProfilerData) :
  let g := ConvertToGroupedData data in
  let costs := instruction_costs_ data in
  grouped_total_instructions_ g = total_instructions_ data /\
  sum_over_functions total_self_instructions (GetFunctions g)
  = sum_field self_cost costs /\
  sum_over_functions total_self_instr_fetches (GetFunctions g)
  = sum_field instr_fetches costs /\
  sum_over_functions total_self_data_reads (GetFunctions g)
  = sum_field data_reads costs /\
  sum_over_functions total_self_data_writes (GetFunctions g)
  = sum_field data_writes costs.
Proof.
  intros g costs. split.
  - apply (proj1 (ConvertToGroupedData_built data)).
  - apply grouped_sums.
Qed.

(** ** Callgrind serializer: the text is built block by block *)

Lemma append_nil_l (a : string) : String.append EmptyString a = a.
Proof. reflexivity. Qed.

Lemma put_costs_append (out : string) (cycles instrs reads writes : Z) :
  put_costs out cycles instrs reads writes
  = String.append out (put_costs EmptyString cycles instrs reads writes).
Proof. rewrite !put_costs_text. reflexivity. Qed.

Lemma put_position_append (out : string) (last_address addr : Z) :
  put_position out last_address addr
  = String.append out (put_position EmptyString last_address addr).
Proof.
  unfold put_position, put.
  destruct (last_address =? 0); [rewrite append_assoc; reflexivity|].
  destruct (_ && _); [rewrite append_assoc; reflexivity|].
  destruct (_ && _); [reflexivity|].
  destruct (_ =? _); [reflexivity|]. rewrite append_assoc. reflexivity.
Qed.

Lemma fold_left_append {X : Type} (step : string * Z -> X -> string * Z)
    (xs : list X) :
  (forall out l x,
     step (out, l) x
     = (String.append out (fst (step (EmptyString, l) x)),
        snd (step (EmptyString, l) x))) ->
  forall out l,
    fold_left step xs (out, l)
    = (String.append out (fst (fold_left step xs (EmptyString, l))),
       snd (fold_left step xs (EmptyString, l))).
Proof.
  intros Hstep. induction xs as [|x xs IH]; intros out l; simpl.
  - rewrite append_nil_r. reflexivity.
  - rewrite (Hstep out l x). rewrite IH.
    destruct (step (EmptyString, l) x) as [s1 l1] eqn:E1. cbn [fst snd].
    rewrite (IH s1 l1). cbn [fst snd]. rewrite append_assoc. reflexivity.
Qed.

Lemma write_call_append (out : string) (l : Z) (call : FunctionCall) :
  write_call (out, l) call
  = (String.append out (fst (write_call (EmptyString, l) call)),
     snd (write_call (EmptyString, l) call)).
Proof.
  unfold write_call. cbn [fst snd]. f_equal.
  rewrite !put_costs_text. unfold put. rewrite !append_assoc. reflexivity.
Qed.

Lemma write_instruction_append (cba : list (Z * list FunctionCall))
    (out : string) (l : Z) (instr : Z * InstructionCost) :
  write_instruction cba (out, l) instr
  = (String.append out (fst (write_instruction cba (EmptyString, l) instr)),
     snd (write_instruction cba (EmptyString, l) instr)).
Proof.
  unfold write_instruction. cbn [fst snd].
  rewrite (put_position_append out), (put_costs_append (String.append _ _)).
  rewrite (put_costs_append (put_position EmptyString l (fst instr))).
  rewrite append_assoc.
  destruct (smap_find Z.compare (fst instr) cba) as [cs|].
  - rewrite (fold_left_append write_call cs write_call_append
               (String.append out _)).
    rewrite (fold_left_append write_call cs write_call_append
               (String.append (put_position _ _ _) _)).
    cbn [fst snd]. rewrite append_assoc. reflexivity.
  - reflexivity.
Qed.

Lemma write_function_append (out : string)
    (func_entry : Z * GroupedFunction) :
  write_function out func_entry
  = String.append out (write_function EmptyString func_entry).
Proof.
  unfold write_function.
  rewrite (fold_left_append _ (instructions (snd func_entry))
             (write_instruction_append _)
             (put (put (put out "fn=0x") (hex (fst func_entry))) nl)).
  rewrite (fold_left_append _ (instructions (snd func_entry))
             (write_instruction_append _)
             (put (put (put EmptyString "fn=0x") (hex (fst func_entry))) nl)).
  cbn [fst snd]. unfold put. rewrite !append_assoc. reflexivity.
Qed.

Lemma WriteBody_blocks (out : string) (data : GroupedProfilerData) :
  WriteBody out data
  = String.append out
      (concat_strings (map (write_function EmptyString) (GetFunctions data))).
Proof.
  unfold WriteBody.
  assert (H : forall fs out,
    fold_left write_function fs out
    = String.append out
        (concat_strings (map (write_function EmptyString) fs))).
  { induction fs as [|fe fs IH]; intros o; simpl.
    - rewrite append_nil_r. reflexivity.
    - rewrite IH, write_function_append, append_assoc. reflexivity. }
  destruct (GetFunctions data) as [|fe fs] eqn:E.
  - simpl. rewrite append_nil_r. reflexivity.
  - apply H.
Qed.

(** X14: the file is the header followed by one block per function, in the
    order of the function map, and the text of a block depends on its
    function only: neither on what was written before it nor on the
    addresses of the previous block (the delta encoding restarts).  With no
    function the file is the header alone. *)
Theorem WriteToFile_is_header_then_blocks (data : GroupedProfilerData) :
  WriteToFile data
  = String.append (WriteHeader EmptyString data)
      (concat_strings (map (write_function EmptyString) (GetFunctions data)))
  /\
  (GetFunctions data = [] -> WriteToFile data = WriteHeader EmptyString data)
  /\
  (forall out fe,
     write_function out fe
     = String.append out (write_function EmptyString fe)).
Proof.
  unfold WriteToFile. split; [apply WriteBody_blocks|]. split.
  - intros E. unfold WriteBody. rewrite E. reflexivity.
  - apply write_function_append.
Qed.

Lemma WriteHeader_text (out : string) (data : GroupedProfilerData) :
  WriteHeader out data
  = (out ++ header_preamble ++ "summary:"
       ++ cost_fields_text
            (u64 (sum_over_functions total_self_instructions
                    (GetFunctions data)
                  + 3 * (sum_over_functions total_self_instr_fetches
                           (GetFunctions data)
                         + sum_over_functions total_self_data_reads
                             (GetFunctions data)
                         + sum_over_functions total_self_data_writes
                             (GetFunctions data))))
            (sum_over_functions total_self_instructions (GetFunctions data))
            (sum_over_functions total_self_data_reads (GetFunctions data))
            (sum_over_functions total_self_data_writes (GetFunctions data))
       ++ nl)%string.
Proof.
  unfold WriteHeader.
  rewrite function_totals_sums, cycles_of_formula.
  unfold put, header_preamble, cost_fields_text.
  rewrite !append_assoc. reflexivity.
Qed.

(** X15: a block starts with the [fn=] line of its function, and the cost
    line of the function's first instruction follows with an absolute
    address. *)
Theorem function_block_starts_absolute
    (e : Z) (f : GroupedFunction) (a : Z) (c : InstructionCost)
    (rest : list (Z * InstructionCost)) :
  instructions f = (a, c) :: rest ->
  exists tail,
    write_function EmptyString (e, f)
    = ("fn=0x" ++ hex e ++ nl ++ "0x" ++ hex a
         ++ cost_fields_text
              (u64 (self_cost c
                    + 3 * (instr_fetches c + data_reads c + data_writes c)))
              (self_cost c) (data_reads c) (data_writes c)
         ++ tail)%string.
Proof.
  intros Hi. unfold write_function. cbn [fst snd]. rewrite Hi.
  cbn [fold_left].
  destruct (fold_left_extends
    (write_instruction (build_calls_by_address (fn_calls f))) fst rest
    (write_instruction (build_calls_by_address (fn_calls f))
       (put (put (put EmptyString "fn=0x") (hex e)) nl, 0) (a, c))
    (write_instruction_extends _)) as [t1 ->].
  unfold write_instruction at 1. cbn [fst snd].
  change (put_position (put (put (put EmptyString "fn=0x") (hex e)) nl) 0 a)
    with (put (put (put (put (put EmptyString "fn=0x") (hex e)) nl) "0x")
            (hex a)).
  rewrite put_costs_text, cycles_of_formula.
  destruct (smap_find Z.compare a (build_calls_by_address (fn_calls f)))
    as [cs|].
  - match goal with
    | |- context [fold_left write_call cs ?st] =>
        destruct (write_call_extends cs st) as [t2 ->]
    end.
    cbn [fst]. exists (t2 ++ t1 ++ nl)%string.
    unfold put, cost_fields_text. rewrite !append_assoc. reflexivity.
  - cbn [fst]. exists (t1 ++ nl)%string.
    unfold put, cost_fields_text. rewrite !append_assoc. reflexivity.
Qed.

(** X16: a flush does not alter the profiler state it reads, and for every
    state reached from a cleared profiler the summary line of the flushed
    file carries the profiler's instruction counter in its Instructions
    field, the table-wide data-read and data-write sums in the next two,
    and the cycles computed from these; the function blocks follow. *)
Theorem FlushToFile_summary (d0 : ProfilerData) (evs : list Z) :
  let d := ProcessBuffer evs (Clear d0) in
  let costs := instruction_costs_ d in
  let fetches := sum_field instr_fetches costs in
  let reads := sum_field data_reads costs in
  let writes := sum_field data_writes costs in
  Finalize d = d /\
  FlushToFile d
  = (header_preamble ++ "summary:"
       ++ cost_fields_text
            (u64 (total_instructions_ d + 3 * (fetches + reads + writes)))
            (total_instructions_ d) reads writes
       ++ nl
       ++ concat_strings
            (map (write_function EmptyString)
               (GetFunctions (ConvertToGroupedData d))))%string.
Proof.
  intros d costs fetches reads writes. split; [reflexivity|].
  unfold FlushToFile, Finalize, WriteToFile.
  rewrite WriteBody_blocks, WriteHeader_text.
  destruct (grouped_sums d) as (-> & -> & -> & ->).
  fold costs. fold fetches reads writes.
  assert (Hsum : sum_field self_cost costs = total_instructions_ d).
  { change (sum_field self_cost costs) with (sum_self costs).
    rewrite sum_self_exact. apply ProcessBuffer_conserves. reflexivity. }
  rewrite Hsum. rewrite !append_assoc. reflexivity.
Qed.

(** ** Function grouper: the call edges of the output *)

Lemma smap_index_const_In {V : Type} (k0 k : Z) (d w v : V)
    (m : list (Z * V)) :
  In (k, v) (smap_index Z.compare k0 d (fun _ => w) m) ->
  In (k, v) m \/ (k = k0 /\ v = w).
Proof.
  induction m as [|[k' v'] m IH]; simpl.
  - intros [[= <- <-]|[]]. auto.
  - destruct (Z.compare_spec k0 k') as [->|Hlt|Hgt]; simpl.
    + intros [[= <- <-]|H]; auto.
    + intros [[= <- <-]|[[= <- <-]|H]]; auto.
    + intros [[= <- <-]|H]; [auto|]. destruct (IH H); auto.
Qed.

Lemma build_instruction_to_function_In (entries : list Z)
    (costs : list (Z * InstructionCost)) (k v : Z) :
  In (k, v) (build_instruction_to_function entries costs) ->
  v = owning_function entries k /\ In k (map fst costs).
Proof.
  unfold build_instruction_to_function.
  assert (H : forall m0 : list (Z * Z),
    In (k, v)
      (fold_left
         (fun i2f entry =>
            smap_index Z.compare (fst entry) 0
              (fun _ => owning_function entries (fst entry)) i2f)
         costs m0) ->
    In (k, v) m0 \/ (v = owning_function entries k /\ In k (map fst costs))).
  { induction costs as [|[a c] m IH]; intros m0 Hin; simpl in *; [auto|].
    apply IH in Hin. destruct Hin as [Hin|[Hv Hk]]; [|auto].
    apply smap_index_const_In in Hin.
    destruct Hin as [Hin|[-> ->]]; auto. }
  intros Hin. apply H in Hin. destruct Hin as [[]|Hin]. exact Hin.
Qed.

Lemma instruction_in_its_function (data : ProfilerData) (a : Z)
    (c : InstructionCost) :
  In (a, c) (instruction_costs_ data) ->
  exists f,
    In (owning_function (function_entries (instruction_costs_ data)) a, f)
       (functions_ (ConvertToGroupedData data)) /\
    In (a, c) (instructions f).
Proof.
  intros Hin.
  destruct (ConvertToGroupedData_functions data)
    as (_ & _ & _ & Hperm & Hown).
  assert (Hc : In (a, c)
    (concat (map snd
       (map (fun fe => (fst fe, instructions (snd fe)))
          (functions_ (ConvertToGroupedData data)))))).
  { eapply Permutation_in; [symmetry; exact Hperm|exact Hin]. }
  apply in_concat in Hc. destruct Hc as (l & Hl & Hal).
  apply in_map_iff in Hl. destruct Hl as ([e l'] & Hl1 & Hl2).
  cbn [snd] in Hl1. subst l'.
  pose proof (Hown e l a c Hl2 Hal) as He.
  apply in_map_iff in Hl2. destruct Hl2 as ([e' f] & [= <- <-] & Hf).
  exists f. rewrite <- He. auto.
Qed.

Lemma push_call_In (fc fc0 : FunctionCall) (func : GroupedFunction) :
  In fc (fn_calls (push_call fc0 func)) <-> In fc (fn_calls func) \/ fc = fc0.
Proof.
  unfold push_call. cbn [fn_calls]. rewrite in_app_iff. simpl.
  split.
  - intros [H|[<-|[]]]; auto.
  - intros [H| ->]; auto.
Qed.

Lemma add_call_fold_In (i2f : list (Z * Z)) (addr : Z)
    (cs : list (Z * CallInfo)) (func : GroupedFunction) (fc : FunctionCall) :
  In fc (fn_calls (fold_left (add_call i2f addr) cs func)) <->
  In fc (fn_calls func) \/
  exists t ci v,
    In (t, ci) cs /\ smap_find Z.compare t i2f = Some v /\
    fc = make_FunctionCall addr v ci.
Proof.
  revert func. induction cs as [|[t0 ci0] cs IH]; intros func; simpl.
  - split; [auto|]. intros [H|(t & ci & v & [] & _)]. exact H.
  - rewrite IH. unfold add_call at 1. cbn [fst snd].
    destruct (smap_find Z.compare t0 i2f) as [v0|] eqn:Ef.
    + rewrite push_call_In. split.
      * intros [[H| ->]|(t & ci & v & H1 & H2 & H3)]; [auto| |].
        -- right. exists t0, ci0, v0. auto.
        -- right. exists t, ci, v. auto.
      * intros [H|(t & ci & v & [[= <- <-]|H1] & H2 & H3)]; [auto| |].
        -- left. right. congruence.
        -- right. exists t, ci, v. auto.
    + split.
      * intros [H|(t & ci & v & H1 & H2 & H3)]; [auto|].
        right. exists t, ci, v. auto.
      * intros [H|(t & ci & v & [[= <- <-]|H1] & H2 & H3)]; [auto| |].
        -- congruence.
        -- right. exists t, ci, v. auto.
Qed.

Lemma add_jump_fold_In (i2f : list (Z * Z)) (cross : list (Z * Z))
    (addr : Z) (js : list (Z * CallInfo)) (func : GroupedFunction)
    (fc : FunctionCall) :
  In fc (fn_calls (fold_left (add_jump i2f cross addr) js func)) <->
  In fc (fn_calls func) \/
  exists t ci v,
    In (t, ci) js /\ sset_count pair_compare (addr, t) cross <> O /\
    smap_find Z.compare t i2f = Some v /\
    fc = make_FunctionCall addr v ci.
Proof.
  revert func. induction js as [|[t0 ci0] js IH]; intros func; simpl.
  - split; [auto|]. intros [H|(t & ci & v & [] & _)]. exact H.
  - rewrite IH. unfold add_jump at 1. cbn [fst snd].
    destruct (Nat.eqb_spec (sset_count pair_compare (addr, t0) cross) 0)
      as [Hz|Hnz].
    + split.
      * intros [H|(t & ci & v & H1 & H2 & H3 & H4)]; [auto|].
        right. exists t, ci, v. auto.
      * intros [H|(t & ci & v & [[= <- <-]|H1] & H2 & H3 & H4)]; [auto| |].
        -- contradiction.
        -- right. exists t, ci, v. auto.
    + destruct (smap_find Z.compare t0 i2f) as [v0|] eqn:Ef.
      * rewrite push_call_In. split.
        -- intros [[H| ->]|(t & ci & v & H1 & H2 & H3 & H4)]; [auto| |].
           ++ right. exists t0, ci0, v0. auto.
           ++ right. exists t, ci, v. auto.
        -- intros [H|(t & ci & v & [[= <- <-]|H1] & H2 & H3 & H4)];
             [auto| |].
           ++ left. right. congruence.
           ++ right. exists t, ci, v. auto.
      * split.
        -- intros [H|(t & ci & v & H1 & H2 & H3 & H4)]; [auto|].
           right. exists t, ci, v. auto.
        -- intros [H|(t & ci & v & [[= <- <-]|H1] & H2 & H3 & H4)];
             [auto| |].
           ++ congruence.
           ++ right. exists t, ci, v. auto.
Qed.

Lemma add_instruction_fold_In (i2f : list (Z * Z)) (cross : list (Z * Z))
    (instrs : list (Z * InstructionCost)) (func : GroupedFunction)
    (fc : FunctionCall) :
  In fc (fn_calls (fold_left (add_instruction i2f cross) instrs func)) <->
  In fc (fn_calls func) \/
  exists a c, In (a, c) instrs /\ emitted_by i2f cross a c fc.
Proof.
  revert func. induction instrs as [|[a0 c0] instrs IH]; intros func; simpl.
  - split; [auto|]. intros [H|(a & c & [] & _)]. exact H.
  - rewrite IH. unfold add_instruction at 1. cbn [fst snd].
    rewrite add_jump_fold_In, add_call_fold_In. cbn [fn_calls].
    unfold emitted_by. split.
    + intros [[[H|(t & ci & v & H1 & H2 & H3)]
              |(t & ci & v & H1 & H2 & H3 & H4)]
             |(a & c & H1 & H2)].
      * auto.
      * right. exists a0, c0. split; [auto|]. exists t, ci, v. auto.
      * right. exists a0, c0. split; [auto|]. exists t, ci, v. auto.
      * right. exists a, c. auto.
    + intros [H|(a & c & [[= <- <-]|H1] & (t & ci & v & H2 & H3 & H4))].
      * auto.
      * left. destruct H4 as [H4|[H4 H5]].
        -- left. right. exists t, ci, v. auto.
        -- right. exists t, ci, v. auto.
      * right. exists a, c. split; [exact H1|]. exists t, ci, v. auto.
Qed.

Lemma build_function_calls (i2f : list (Z * Z)) (cross : list (Z * Z))
    (e : Z) (instrs : list (Z * InstructionCost)) (fc : FunctionCall) :
  In fc (fn_calls (build_function i2f cross e instrs)) <->
  exists a c, In (a, c) instrs /\ emitted_by i2f cross a c fc.
Proof.
  unfold build_function. rewrite add_instruction_fold_In. cbn [fn_calls].
  split; [intros [[]|H]; exact H|auto].
Qed.

Lemma sset_count_In (k : Z * Z) (s : list (Z * Z)) :
  sset_count pair_compare k s <> O <-> In k s.
Proof.
  induction s as [|k' s IH]; simpl; [tauto|].
  destruct (pair_compare k k') eqn:E.
  - apply pair_compare_eq in E. subst. split; [auto|discriminate].
  - rewrite IH. split; [auto|]. intros [<-|H]; [|exact H].
    rewrite pair_compare_refl in E. discriminate.
  - rewrite IH. split; [auto|]. intros [<-|H]; [|exact H].
    rewrite pair_compare_refl in E. discriminate.
Qed.

Lemma pair_insert_In (k x : Z * Z) (s : list (Z * Z)) :
  x = k \/ In x s -> In x (sset_insert pair_compare k s).
Proof.
  induction s as [|k' s IH]; simpl.
  - intros [->|[]]. auto.
  - destruct (pair_compare k k') eqn:E; simpl.
    + apply pair_compare_eq in E. subst. intros [->|H]; auto.
    + intros [->|H]; auto.
    + intros [->|[->|H]]; auto.
Qed.

Lemma scan_jump_fold_marks (src t e : Z) (ci : CallInfo)
    (js : list (Z * CallInfo)) (st : list Z * list (Z * Z)) :
  StronglySorted Z.lt (fst st) -> In e (fst st) ->
  Z.min src t < e < Z.max src t -> In (t, ci) js ->
  In (src, t) (snd (fold_left (scan_jump src) js st)).
Proof.
  assert (Hmono : forall js st x,
    In x (snd st) -> In x (snd (fold_left (scan_jump src) js st))).
  { clear. induction js as [|je js IH]; intros st x H; simpl; [exact H|].
    apply IH. unfold scan_jump. destruct (negb _); [|exact H].
    simpl. apply pair_insert_In. auto. }
  revert st. induction js as [|je js IH]; intros st Hs He Hb Hin;
    [contradiction|]. simpl.
  destruct Hin as [->|Hin].
  - apply Hmono. unfold scan_jump. cbn [fst].
    destruct (Nat.eqb_spec (upper_bound (fst st) (Z.min src t))
                (lower_bound (fst st) (Z.max src t))) as [Heq|_].
    + exfalso. exact (bounds_differ_intro _ _ _ _ Hs He Hb Heq).
    + simpl. apply pair_insert_In. auto.
  - apply IH; [apply scan_jump_sorted, Hs|apply scan_jump_mono, He|
               exact Hb|exact Hin].
Qed.

Lemma scan_jumps_marks (src t e : Z) (c : InstructionCost) (ci : CallInfo)
    (m : list (Z * InstructionCost)) (st : list Z * list (Z * Z)) :
  StronglySorted Z.lt (fst st) -> In e (fst st) ->
  Z.min src t < e < Z.max src t ->
  In (src, c) m -> In (t, ci) (jumps c) ->
  In (src, t) (snd (scan_jumps m st)).
Proof.
  assert (Hmono : forall js s0 (st : list Z * list (Z * Z)) x,
    In x (snd st) -> In x (snd (fold_left (scan_jump s0) js st))).
  { clear. induction js as [|je js IH]; intros s0 st x H; simpl; [exact H|].
    apply IH. unfold scan_jump. destruct (negb _); [|exact H].
    simpl. apply pair_insert_In. auto. }
  assert (Hmono2 : forall m (st : list Z * list (Z * Z)) x,
    In x (snd st) -> In x (snd (scan_jumps m st))).
  { unfold scan_jumps. induction m0 as [|en m0 IH]; intros st0 x H; simpl;
      [exact H|]. apply IH, Hmono, H. }
  unfold scan_jumps in *. revert st.
  induction m as [|entry m IH]; intros st Hs He Hb Hin Hj; [contradiction|].
  simpl. destruct Hin as [->|Hin].
  - apply Hmono2. cbn [fst snd].
    eapply scan_jump_fold_marks; eassumption.
  - apply IH; [apply scan_jump_fold_sorted, Hs|apply scan_jump_fold_mono, He|
               exact Hb|exact Hin|exact Hj].
Qed.

Lemma owning_function_of_entry (entries : list Z) (t : Z) :
  StronglySorted Z.lt entries -> In t entries ->
  owning_function entries t = t.
Proof.
  intros Hs Hin. eapply owns_functional.
  - apply owning_function_owns, Hs.
  - left. split; [exact Hin|]. split; [lia|auto].
Qed.

(** X17: every [FunctionCall] in the output comes from an edge recorded at
    an instruction of the function that holds it (a call, or a jump marked
    as boundary-crossing) to a target that has an entry in the cost table;
    its target function is the function owning that target and is itself a
    function of the output, so every call resolves (the second check of
    [CheckGroupedInvariants]).  Edges to addresses without a table entry
    produce no call. *)
Theorem grouped_calls_resolve (data : ProfilerData) (e : Z)
    (f : GroupedFunction) (fc : FunctionCall) :
  let costs := instruction_costs_ data in
  let g := ConvertToGroupedData data in
  In (e, f) (GetFunctions g) -> In fc (fn_calls f) ->
  exists c t ci,
    In (caller_address fc, c) (instructions f) /\
    (In (t, ci) (calls c) \/
     (In (t, ci) (jumps c) /\
      In (caller_address fc, t) (cross_boundary_jumps costs))) /\
    In t (map fst costs) /\
    owns (function_entries costs) t (target_function fc) /\
    fc = make_FunctionCall (caller_address fc) (target_function fc) ci /\
    exists f', In (target_function fc, f') (GetFunctions g).
Proof.
  intros costs g Hf Hfc.
  destruct (ConvertToGroupedData_built data) as [_ Hb].
  rewrite (Hb e f Hf) in Hfc. apply build_function_calls in Hfc.
  destruct Hfc as (a & c & Hac & (t & ci & v & Hfind & -> & Hedge)).
  apply smap_find_In in Hfind.
  apply build_instruction_to_function_In in Hfind.
  destruct Hfind as [-> Hk]. fold costs in Hk |- *.
  exists c, t, ci. cbn [caller_address target_function make_FunctionCall].
  split; [exact Hac|]. split.
  { destruct Hedge as [H|[H1 H2]]; [auto|]. right. split; [exact H1|].
    apply sset_count_In. exact H2. }
  split; [exact Hk|]. split.
  { apply owning_function_owns, function_entries_sorted. }
  split; [reflexivity|].
  apply in_map_iff in Hk. destruct Hk as ([t' ct] & Ht & Hin).
  cbn [fst] in Ht. subst t'.
  destruct (instruction_in_its_function data t ct Hin) as (f' & Hf' & _).
  exists f'. exact Hf'.
Qed.

(** X18: a recorded call from an instruction [s] to a target [t] that has a
    table entry appears in the output as a [FunctionCall] of the function
    owning [s], from [s] to the function owning [t], with the call's count
    and inclusive counters. *)
Theorem recorded_call_becomes_FunctionCall (data : ProfilerData) (s t : Z)
    (c : InstructionCost) (ci : CallInfo) :
  let costs := instruction_costs_ data in
  let entries := function_entries costs in
  In (s, c) costs -> In (t, ci) (calls c) -> In t (map fst costs) ->
  exists f,
    In (owning_function entries s, f)
       (GetFunctions (ConvertToGroupedData data)) /\
    In (s, c) (instructions f) /\
    In (make_FunctionCall s (owning_function entries t) ci) (fn_calls f).
Proof.
  intros costs entries Hs Ht Hk.
  destruct (instruction_in_its_function data s c Hs) as (f & Hf & Hi).
  exists f. split; [exact Hf|]. split; [exact Hi|].
  destruct (ConvertToGroupedData_built data) as [_ Hb].
  rewrite (Hb _ f Hf). apply build_function_calls.
  exists s, c. split; [exact Hi|].
  exists t, ci, (owning_function entries t).
  split; [apply build_instruction_to_function_find, Hk|].
  split; [reflexivity|auto].
Qed.

(** X19: a recorded jump from [s] to [t] that spans a call target, with [t]
    in the cost table, makes [t] a function entry and appears in the output
    as a synthesized [FunctionCall] of the function owning [s], from [s] to
    the function [t], with the jump's count and inclusive counters. *)
Theorem crossing_jump_becomes_FunctionCall (data : ProfilerData)
    (s t e : Z) (c : InstructionCost) (ci : CallInfo) :
  let costs := instruction_costs_ data in
  let entries := function_entries costs in
  In (s, c) costs -> In (t, ci) (jumps c) ->
  recorded_call_target costs e -> Z.min s t < e < Z.max s t ->
  In t (map fst costs) ->
  In t entries /\
  exists f,
    In (owning_function entries s, f)
       (GetFunctions (ConvertToGroupedData data)) /\
    In (s, c) (instructions f) /\
    In (make_FunctionCall s t ci) (fn_calls f) /\
    exists f', In (t, f') (GetFunctions (ConvertToGroupedData data)).
Proof.
  intros costs entries Hs Ht He Hb Hk.
  assert (Hentry : In t entries).
  { unfold entries, function_entries.
    eapply scan_jumps_promotes; try eassumption.
    - simpl. apply call_target_entries_sorted.
    - simpl. apply call_target_entries_complete, He. }
  assert (Hcross : In (s, t) (cross_boundary_jumps costs)).
  { unfold cross_boundary_jumps.
    eapply scan_jumps_marks; try eassumption.
    - simpl. apply call_target_entries_sorted.
    - simpl. apply call_target_entries_complete, He. }
  assert (Hown : owning_function entries t = t).
  { apply owning_function_of_entry; [apply function_entries_sorted|].
    exact Hentry. }
  split; [exact Hentry|].
  destruct (instruction_in_its_function data s c Hs) as (f & Hf & Hi).
  exists f. split; [exact Hf|]. split; [exact Hi|]. split.
  - destruct (ConvertToGroupedData_built data) as [_ Hbuilt].
    rewrite (Hbuilt _ f Hf). apply build_function_calls.
    exists s, c. split; [exact Hi|].
    exists t, ci, t. split.
    + rewrite <- Hown at 2. apply build_instruction_to_function_find, Hk.
    + split; [reflexivity|]. right. split; [exact Ht|].
      apply sset_count_In. exact Hcross.
  - apply in_map_iff in Hk. destruct Hk as ([t' ct] & Ht' & Hin).
    cbn [fst] in Ht'. subst t'.
    destruct (instruction_in_its_function data t ct Hin) as (f' & Hf' & _).
    exists f'. fold costs entries in Hf'. rewrite Hown in Hf'. exact Hf'.
Qed.

(** ** Event buffers and the two threads *)

Lemma ProcessBuffer_app (l1 l2 : list Z) (d : ProfilerData) :
  ProcessBuffer (l1 ++ l2) d = ProcessBuffer l2 (ProcessBuffer l1 d).
Proof. unfold ProcessBuffer. apply fold_left_app. Qed.

Lemma read_slots_insert_above (ev : gmap Z Z) (j w : Z) (n : nat) (i : Z) :
  i + Z.of_nat n <= j ->
  read_slots (<[j := w]> ev) i n = read_slots ev i n.
Proof.
  revert i. induction n as [|n IH]; intros i Hle; [reflexivity|].
  cbn [read_slots]. rewrite lookup_insert_ne by lia.
  rewrite IH by lia. reflexivity.
Qed.

Lemma read_slots_snoc (ev : gmap Z Z) (w : Z) (n : nat) (i : Z) (l : list Z) :
  read_slots ev i n = Some l ->
  read_slots (<[i + Z.of_nat n := w]> ev) i (S n) = Some (l ++ [w]).
Proof.
  revert i l. induction n as [|n IH]; intros i l Hl.
  - injection Hl as <-. cbn [read_slots]. rewrite Z.add_0_r.
    rewrite lookup_insert_eq. reflexivity.
  - cbn [read_slots] in Hl.
    destruct (ev !! i) as [x|] eqn:Hx; [|discriminate].
    destruct (read_slots ev (i + 1) n) as [l'|] eqn:Hl'; [|discriminate].
    injection Hl as <-.
    change (read_slots (<[i + Z.of_nat (S n) := w]> ev) i (S (S n)))
      with (match <[i + Z.of_nat (S n) := w]> ev !! i,
                  read_slots (<[i + Z.of_nat (S n) := w]> ev) (i + 1) (S n)
            with
            | Some word, Some l0 => Some (word :: l0)
            | _, _ => None
            end).
    rewrite lookup_insert_ne by lia. rewrite Hx.
    replace (i + Z.of_nat (S n)) with (i + 1 + Z.of_nat n) by lia.
    rewrite (IH (i + 1) l' Hl'). reflexivity.
Qed.

Lemma read_slots_length (ev : gmap Z Z) (n : nat) (i : Z) (l : list Z) :
  read_slots ev i n = Some l -> length l = n.
Proof.
  revert i l. induction n as [|n IH]; intros i l Hl.
  - injection Hl as <-. reflexivity.
  - cbn [read_slots] in Hl.
    destruct (ev !! i) as [x|]; [|discriminate].
    destruct (read_slots ev (i + 1) n) as [l'|] eqn:Hl'; [|discriminate].
    injection Hl as <-. cbn [length]. f_equal. eapply IH, Hl'.
Qed.

Lemma process_slots_read (ev : gmap Z Z) (n : nat) (i : Z) (l : list Z)
    (d : ProfilerData) :
  read_slots ev i n = Some l -> 0 <= i -> i + Z.of_nat n <= BUFFER_SIZE ->
  process_slots ev i n d = Done (ProcessBuffer l d).
Proof.
  revert i l d. induction n as [|n IH]; intros i l d Hl Hi Hle.
  - injection Hl as <-. reflexivity.
  - cbn [read_slots] in Hl. cbn [process_slots].
    destruct (ev !! i) as [x|]; [|discriminate].
    destruct (read_slots ev (i + 1) n) as [l'|] eqn:Hl'; [|discriminate].
    injection Hl as <-.
    destruct (Z.leb_spec 0 i); [|lia].
    destruct (Z.ltb_spec i BUFFER_SIZE); [|lia].
    cbn [andb]. rewrite (IH (i + 1) l') by (auto; lia). reflexivity.
Qed.

Lemma queued_words_insert_ne (pool : list EventBuffer) (b f : nat)
    (buf : EventBuffer) :
  f <> b -> queued_words (<[b := buf]> pool) f = queued_words pool f.
Proof.
  intros Hne. unfold queued_words.
  rewrite list_lookup_insert_ne by congruence. reflexivity.
Qed.

Lemma queued_words_alter_ne (pool : list EventBuffer) (b f : nat)
    (g : EventBuffer -> EventBuffer) :
  f <> b -> queued_words (alter g b pool) f = queued_words pool f.
Proof.
  intros Hne. unfold queued_words.
  rewrite list_lookup_alter_ne by congruence. reflexivity.
Qed.

Lemma queue_words_insert_notin (pool : list EventBuffer) (b : nat)
    (buf : EventBuffer) (q : list nat) :
  ~ In b q -> queue_words (<[b := buf]> pool) q = queue_words pool q.
Proof.
  induction q as [|f q IH]; intros Hn; [reflexivity|].
  cbn [queue_words]. rewrite queued_words_insert_ne, IH.
  - reflexivity.
  - intros H. apply Hn. right. exact H.
  - intros ->. apply Hn. left. reflexivity.
Qed.

Lemma queue_words_alter_notin (pool : list EventBuffer) (b : nat)
    (g : EventBuffer -> EventBuffer) (q : list nat) :
  ~ In b q -> queue_words (alter g b pool) q = queue_words pool q.
Proof.
  induction q as [|f q IH]; intros Hn; [reflexivity|].
  cbn [queue_words]. rewrite queued_words_alter_ne, IH.
  - reflexivity.
  - intros H. apply Hn. right. exact H.
  - intros ->. apply Hn. left. reflexivity.
Qed.

Lemma queue_words_snoc (pool : list EventBuffer) (q : list nat) (b : nat)
    (l r : list Z) :
  queue_words pool q = Some l -> queued_words pool b = Some r ->
  queue_words pool (q ++ [b]) = Some (l ++ r).
Proof.
  revert l. induction q as [|f q IH]; intros l Hl Hr.
  - injection Hl as <-. cbn [app queue_words]. rewrite Hr.
    rewrite app_nil_r. reflexivity.
  - cbn [app queue_words] in Hl |- *.
    destruct (queued_words pool f) as [x|]; [|discriminate].
    destruct (queue_words pool q) as [y|]; [|discriminate].
    injection Hl as <-. rewrite (IH y eq_refl Hr).
    rewrite app_assoc. reflexivity.
Qed.

Lemma cursor_words_insert_ne (w : World) (pool : list EventBuffer) (f : nat)
    (buf : EventBuffer) :
  ~ In f (current w) ->
  cursor_words w (<[f := buf]> pool) = cursor_words w pool.
Proof.
  unfold cursor_words, current. intros Hn.
  destruct (g_client_buffer_manager w) as [[b|]|]; try reflexivity.
  rewrite list_lookup_insert_ne; [reflexivity|].
  intros ->. apply Hn. left. reflexivity.
Qed.
Lemma record_word_blocks (word : Z) (p : ProfilerThread) (b : nat) (i : Z)
    (sc : nat) :
  (b < length (buffer_pool_ p))%nat -> 0 <= i -> i + 1 = BUFFER_SIZE ->
  empty_buffers_ p = [] -> running_ p = true ->
  record_word word (filling p b i sc) = Blocked.
Proof.
  intros Hb Hi Hlast Hempty Hrun.
  unfold record_word, store_and_advance, filling.
  cbn [profiler_current_buffer_ptr g_profiler].
  destruct (lookup_lt_is_Some_2 _ _ Hb) as [buf Hbuf]. rewrite Hbuf.
  destruct (Z.leb_spec 0 i); [|lia].
  destruct (Z.ltb_spec i BUFFER_SIZE); [|lia].
  cbn [andb outcome_bind profiler_current_buffer_ptr profiler_buffer_end_ptr].
  rewrite Hlast.
  destruct (decide _) as [_|Hne]; [|congruence].
  unfold Profiler_SwitchBuffer, GetClientBufferManager, SwitchBuffer.
  cbn [g_client_buffer_manager g_profiler outcome_bind
       profiler_current_buffer_ptr switch_calls].
  destruct (decide (b = b)) as [_|Hne]; [|congruence].
  cbn [outcome_bind]. unfold GetEmptyBuffer, PushFilledBuffer.
  cbn [empty_buffers_ running_ filled_buffers_ buffer_pool_].
  rewrite Hempty, Hrun. reflexivity.
Qed.

Lemma held_words_insert_ne (c : ConsumerAt) (pool : list EventBuffer)
    (b : nat) (buf : EventBuffer) :
  ~ In b (held c) ->
  held_words c (<[b := buf]> pool) = held_words c pool.
Proof.
  destruct c as [|f|f]; cbn [held held_words]; intros Hn; try reflexivity.
  apply queued_words_insert_ne. intros ->. apply Hn. left. reflexivity.
Qed.

Lemma held_words_alter_ne (c : ConsumerAt) (pool : list EventBuffer)
    (b : nat) (g : EventBuffer -> EventBuffer) :
  ~ In b (held c) ->
  held_words c (alter g b pool) = held_words c pool.
Proof.
  destruct c as [|f|f]; cbn [held held_words]; intros Hn; try reflexivity.
  apply queued_words_alter_ne. intros ->. apply Hn. left. reflexivity.
Qed.

(** The shape of a state in which the emitter holds a buffer. *)
Lemma Inv_emitting (d0 : ProfilerData) (ws : list Z) (m : Machine) :
  Inv d0 ws m -> Emitting m ->
  exists p b i sc buf processed h q cw,
    m_world m = filling p b i sc /\
    running_ p = true /\
    length (buffer_pool_ p) = BUFFER_POOL_SIZE /\
    List.NoDup (b :: held (m_at m) ++ filled_buffers_ p ++ empty_buffers_ p) /\
    (forall x,
       In x (b :: held (m_at m) ++ filled_buffers_ p ++ empty_buffers_ p) ->
       (x < BUFFER_POOL_SIZE)%nat) /\
    length (b :: held (m_at m) ++ filled_buffers_ p ++ empty_buffers_ p)
      = BUFFER_POOL_SIZE /\
    0 <= i < BUFFER_SIZE /\
    buffer_pool_ p !! b = Some buf /\
    read_slots (events buf) 0 (Z.to_nat i) = Some cw /\
    held_words (m_at m) (buffer_pool_ p) = Some h /\
    queue_words (buffer_pool_ p) (filled_buffers_ p) = Some q /\
    m_data m = ProcessBuffer processed d0 /\
    processed ++ h ++ q ++ cw = ws.
Proof.
  intros (p & processed & rest & Hp & Hrun & Hlen & Hnd & Hlt & Hall & Hok
          & Hd & Hpend & Hws) HE.
  specialize (Hall HE). destruct HE as [b Hb].
  destruct m as [[gp gm ptr endp sc] c d].
  cbn [m_world m_at m_data g_profiler g_client_buffer_manager] in *.
  subst gp gm.
  unfold emitter_ok in Hok. cbn in Hok.
  destruct Hok as (i & -> & -> & Hi).
  unfold in_use, current in Hnd, Hlt, Hall. cbn in Hnd, Hlt, Hall.
  unfold pending, cursor_words in Hpend. cbn in Hpend.
  destruct (held_words c (buffer_pool_ p)) as [h|] eqn:Hh; [|discriminate].
  destruct (queue_words (buffer_pool_ p) (filled_buffers_ p)) as [q|] eqn:Hq;
    [|discriminate].
  destruct (buffer_pool_ p !! b) as [buf|] eqn:Hbuf; [|discriminate].
  destruct (decide (b = b)) as [_|Hne]; [|congruence].
  destruct (read_slots (events buf) 0 (Z.to_nat i)) as [cw|] eqn:Hcw;
    [|discriminate].
  injection Hpend as <-.
  exists p, b, i, sc, buf, processed, h, q, cw.
  repeat split; auto; lia.
Qed.

(** A state of that shape satisfies the invariant. *)
Lemma Inv_filling (d0 : ProfilerData) (p : ProfilerThread) (b : nat) (i : Z)
    (sc : nat) (c : ConsumerAt) (d : ProfilerData) (buf : EventBuffer)
    (processed h q cw : list Z) :
  running_ p = true ->
  length (buffer_pool_ p) = BUFFER_POOL_SIZE ->
  List.NoDup (b :: held c ++ filled_buffers_ p ++ empty_buffers_ p) ->
  (forall x, In x (b :: held c ++ filled_buffers_ p ++ empty_buffers_ p) ->
     (x < BUFFER_POOL_SIZE)%nat) ->
  length (b :: held c ++ filled_buffers_ p ++ empty_buffers_ p)
    = BUFFER_POOL_SIZE ->
  0 <= i < BUFFER_SIZE ->
  buffer_pool_ p !! b = Some buf ->
  read_slots (events buf) 0 (Z.to_nat i) = Some cw ->
  held_words c (buffer_pool_ p) = Some h ->
  queue_words (buffer_pool_ p) (filled_buffers_ p) = Some q ->
  d = ProcessBuffer processed d0 ->
  Inv d0 (processed ++ h ++ q ++ cw) (mkMachine (filling p b i sc) c d).
Proof.
  intros Hrun Hlen Hnd Hlt Hall Hi Hbuf Hcw Hh Hq Hd.
  exists p, processed, (h ++ q ++ cw).
  cbn [m_world m_at m_data filling g_profiler].
  repeat split; auto.
  - exists i. cbn. repeat split; auto; lia.
  - unfold pending, cursor_words. cbn. rewrite Hh, Hq, Hbuf.
    destruct (decide (b = b)) as [_|Hne]; [|congruence].
    rewrite Hcw. reflexivity.
Qed.
Lemma placed_Permutation (l l' : list nat) :
  Permutation l l' ->
  List.NoDup l -> (forall x, In x l -> (x < BUFFER_POOL_SIZE)%nat) ->
  List.NoDup l' /\ (forall x, In x l' -> (x < BUFFER_POOL_SIZE)%nat) /\
  length l' = length l.
Proof.
  intros HP Hnd Hlt. split; [|split].
  - eapply Permutation_NoDup; eassumption.
  - intros x Hx. apply Hlt. eapply Permutation_in; [|exact Hx].
    apply Permutation_sym, HP.
  - symmetry. apply Permutation_length, HP.
Qed.

Lemma Inv_emit (d0 : ProfilerData) (ws : list Z) (m m' : Machine)
    (r : Recorded) :
  Inv d0 ws m -> Emitting m -> run_action (Emit r) m = Done m' ->
  Inv d0 (ws ++ [recorded_word r]) m' /\ Emitting m'.
Proof.
  intros HI HE Hstep.
  destruct (Inv_emitting _ _ _ HI HE)
    as (p & b & i & sc & buf & processed & h & q & cw & Hw & Hr & Hlen & Hnd
        & Hlt & Hall & Hi & Hbuf & Hcw & Hh & Hq & Hd & <-).
  destruct m as [w c d]. cbn [m_world m_at m_data] in *. subst w.
  cbn [run_action m_world m_at m_data] in Hstep.
  rewrite Profiler_Record_word in Hstep.
  assert (Hb : (b < length (buffer_pool_ p))%nat).
  { rewrite Hlen. apply Hlt. left. reflexivity. }
  set (word := recorded_word r) in *.
  assert (Hcw' : read_slots (<[i := word]> (events buf)) 0
                   (Z.to_nat (i + 1)) = Some (cw ++ [word])).
  { replace (Z.to_nat (i + 1)) with (S (Z.to_nat i)) by lia.
    pose proof (read_slots_snoc (events buf) word (Z.to_nat i) 0 cw Hcw) as H.
    replace (0 + Z.of_nat (Z.to_nat i)) with i in H by lia. exact H. }
  assert (Hnb : ~ In b (held c ++ filled_buffers_ p ++ empty_buffers_ p)).
  { inversion Hnd; auto. }
  assert (Hnh : ~ In b (held c)).
  { intros H. apply Hnb, in_or_app. left. exact H. }
  assert (Hnf : ~ In b (filled_buffers_ p)).
  { intros H. apply Hnb, in_or_app. right. apply in_or_app. left. exact H. }
  destruct (Z.eq_dec (i + 1) BUFFER_SIZE) as [Hlast|Hnl].
  - destruct (empty_buffers_ p) as [|b' rest] eqn:Hempty.
    + rewrite record_word_blocks in Hstep by (auto; lia). discriminate.
    + rewrite (record_word_switches word p b b' rest i sc) in Hstep
        by (auto; lia).
      injection Hstep as <-.
      split; [|exists b'; reflexivity].
      assert (Hb' : (b' < BUFFER_POOL_SIZE)%nat).
      { apply Hlt. right. apply in_or_app. right. apply in_or_app. right.
        left. reflexivity. }
      assert (Hbb' : b' <> b).
      { intros ->. apply Hnb. apply in_or_app. right. apply in_or_app.
        right. left. reflexivity. }
      unfold handed_over, store_in. rewrite Hbuf.
      cbn [running_ filled_buffers_ empty_buffers_ buffer_pool_ tail].
      rewrite Hempty. cbn [tail].
      set (pool' := alter (fun buf0 => mkEventBuffer (events buf0) BUFFER_SIZE)
                      b (<[b := mkEventBuffer (<[i := word]> (events buf))
                                   (count buf)]> (buffer_pool_ p))).
      assert (Hlen' : length pool' = BUFFER_POOL_SIZE).
      { subst pool'. rewrite length_alter, length_insert. exact Hlen. }
      destruct (lookup_lt_is_Some_2 pool' b') as [buf' Hbuf'];
        [rewrite Hlen'; exact Hb'|].
      replace ((processed ++ h ++ q ++ cw) ++ [word])
        with (processed ++ h ++ (q ++ (cw ++ [word])) ++ []).
      2:{ rewrite app_nil_r, <- !app_assoc. reflexivity. }
      assert (HP : Permutation
                (b :: held c ++ filled_buffers_ p ++ b' :: rest)
                (b' :: held c ++ (filled_buffers_ p ++ [b]) ++ rest)).
      { rewrite (app_assoc (held c)).
        rewrite <- (Permutation_middle (held c ++ filled_buffers_ p) rest b').
        rewrite perm_swap. apply perm_skip.
        rewrite <- !app_assoc. cbn [app].
        rewrite (app_assoc (held c) (filled_buffers_ p) (b :: rest)).
        rewrite <- (Permutation_middle (held c ++ filled_buffers_ p) rest b).
        rewrite <- app_assoc. reflexivity. }
      destruct (placed_Permutation _ _ HP Hnd Hlt) as (Hnd' & Hlt' & Hall').
      apply Inv_filling with (buf := buf'); auto.
      * cbn [filled_buffers_ empty_buffers_]. rewrite Hall'. exact Hall.
      * unfold BUFFER_SIZE. lia.
      * cbn [buffer_pool_]. fold pool'. subst pool'.
        rewrite held_words_alter_ne, held_words_insert_ne by exact Hnh.
        exact Hh.
      * cbn [buffer_pool_ filled_buffers_]. fold pool'.
        apply queue_words_snoc.
        -- subst pool'.
           rewrite queue_words_alter_notin, queue_words_insert_notin
             by exact Hnf.
           exact Hq.
        -- subst pool'. unfold queued_words.
           rewrite list_lookup_alter_eq, list_lookup_insert_eq by exact Hb.
           cbn [fmap option_fmap option_map events count].
           rewrite <- Hcw', Hlast. reflexivity.
  - rewrite record_word_fills in Hstep by (auto; lia).
    injection Hstep as <-.
    split; [|exists b; reflexivity].
    unfold store_in. rewrite Hbuf.
    replace ((processed ++ h ++ q ++ cw) ++ [word])
      with (processed ++ h ++ q ++ (cw ++ [word])).
    2:{ rewrite <- !app_assoc. reflexivity. }
    apply Inv_filling
      with (buf := mkEventBuffer (<[i := word]> (events buf)) (count buf));
      auto.
    + cbn [buffer_pool_]. rewrite length_insert. exact Hlen.
    + lia.
    + cbn [buffer_pool_]. apply list_lookup_insert_eq. exact Hb.
    + cbn [buffer_pool_]. rewrite held_words_insert_ne by exact Hnh.
      exact Hh.
    + cbn [buffer_pool_ filled_buffers_].
      rewrite queue_words_insert_notin by exact Hnf. exact Hq.
Qed.
Lemma queued_words_inv (pool : list EventBuffer) (b : nat) (l : list Z) :
  queued_words pool b = Some l ->
  exists buf,
    pool !! b = Some buf /\ 0 <= count buf <= BUFFER_SIZE /\
    read_slots (events buf) 0 (Z.to_nat (count buf)) = Some l.
Proof.
  unfold queued_words. intros H.
  destruct (pool !! b) as [buf|]; [|discriminate].
  destruct (Z.leb_spec 0 (count buf)); [|discriminate].
  destruct (Z.leb_spec (count buf) BUFFER_SIZE); [|discriminate].
  exists buf. repeat split; auto.
Qed.

Lemma pending_set_profiler (p' : ProfilerThread) (w : World)
    (c : ConsumerAt) (d : ProfilerData) :
  pending (mkMachine (set_profiler p' w) c d)
  = match held_words c (buffer_pool_ p'),
          queue_words (buffer_pool_ p') (filled_buffers_ p'),
          cursor_words w (buffer_pool_ p') with
    | Some h, Some q, Some cw => Some (h ++ q ++ cw)
    | _, _, _ => None
    end.
Proof. reflexivity. Qed.

(** A step of the consumer thread always completes; it keeps the invariant,
    does not touch the emitter's pointers, and reduces the backlog by one. *)
Lemma Inv_consume (d0 : ProfilerData) (ws : list Z) (m : Machine) :
  Inv d0 ws m ->
  exists m',
    ThreadFunc_step m = Done m' /\ Inv d0 ws m' /\
    g_client_buffer_manager (m_world m')
      = g_client_buffer_manager (m_world m) /\
    backlog m' = Nat.pred (backlog m).
Proof.
  intros HI.
  pose proof HI as (p & processed & rest & Hp & Hrun & Hlen & Hnd & Hlt & Hall
                    & Hok & Hd & Hpend & Hws).
  destruct m as [[gp gm ptr endp sc] c d].
  cbn [m_world m_at m_data g_profiler g_client_buffer_manager] in *.
  subst gp.
  unfold ThreadFunc_step, backlog. cbn [m_world m_at m_data g_profiler].
  unfold in_use, Emitting in Hnd, Hlt, Hall.
  cbn [m_world m_at g_profiler] in Hnd, Hlt, Hall.
  unfold pending in Hpend. cbn [m_world m_at g_profiler] in Hpend.
  destruct (held_words c (buffer_pool_ p)) as [h|] eqn:Hh; [|discriminate].
  destruct (queue_words (buffer_pool_ p) (filled_buffers_ p)) as [q|] eqn:Hq;
    [|discriminate].
  destruct (cursor_words _ (buffer_pool_ p)) as [cw|] eqn:Hcw; [|discriminate].
  injection Hpend as <-.
  destruct c as [|f|f].
  - rewrite Hrun. destruct (filled_buffers_ p) as [|f fs] eqn:Hf.
    + eexists. split; [reflexivity|]. split; [exact HI|].
      split; [reflexivity|].
      cbn [m_world m_at g_profiler]. rewrite Hf. reflexivity.
    + eexists. split; [reflexivity|].
      cbn [m_world m_at m_data set_profiler g_profiler
           g_client_buffer_manager filled_buffers_].
      split; [|split; [reflexivity|cbn [length]; lia]].
      cbn [queue_words] in Hq.
      destruct (queued_words (buffer_pool_ p) f) as [l|] eqn:Hl;
        [|discriminate].
      destruct (queue_words (buffer_pool_ p) fs) as [r|] eqn:Hr;
        [|discriminate].
      injection Hq as <-. cbn [held_words] in Hh. injection Hh as <-.
      eexists _, processed, (l ++ r ++ cw).
      cbn [m_world m_at m_data g_profiler set_profiler].
      split; [reflexivity|].
      cbn [running_ buffer_pool_ filled_buffers_ empty_buffers_].
      split; [first [exact Hrun|reflexivity]|]. split; [exact Hlen|].
      split; [exact Hnd|]. split; [exact Hlt|]. split; [exact Hall|].
      split; [exact Hok|].
      split; [exact Hd|]. split.
      * rewrite pending_set_profiler.
        cbn [held_words buffer_pool_ filled_buffers_].
        rewrite Hl, Hr, Hcw. reflexivity.
      * rewrite <- Hws. cbn [app]. rewrite <- !app_assoc. reflexivity.
  - cbn [held_words] in Hh.
    destruct (queued_words_inv _ _ _ Hh) as (buf & Hbuf & Hc & Hread).
    unfold BufferConsumer_ProcessBuffer. rewrite Hbuf.
    rewrite (process_slots_read _ _ _ _ _ Hread) by lia.
    eexists. split; [reflexivity|]. cbn [outcome_bind fst snd].
    cbn [m_world m_at m_data set_profiler g_profiler
         g_client_buffer_manager filled_buffers_].
    split; [|split; [reflexivity|lia]].
    cbn [held] in Hnd, Hlt.
    pose proof (List.NoDup_remove_2 _ _ _ Hnd) as Hnot.
    assert (Hnc : ~ In f (current (mkWorld (Some p) gm ptr endp sc))).
    { intros H. apply Hnot, in_or_app. left. exact H. }
    assert (Hnf : ~ In f (filled_buffers_ p)).
    { intros H. apply Hnot, in_or_app. right. apply in_or_app. left.
      exact H. }
    eexists _, (processed ++ h), (q ++ cw).
    cbn [m_world m_at m_data g_profiler set_profiler].
    split; [reflexivity|].
    cbn [running_ buffer_pool_ filled_buffers_ empty_buffers_].
    split; [first [exact Hrun|reflexivity]|].
    split; [rewrite length_insert; exact Hlen|].
    split; [exact Hnd|]. split; [exact Hlt|]. split; [exact Hall|].
      split; [exact Hok|].
    split; [rewrite ProcessBuffer_app, Hd; reflexivity|]. split.
    + rewrite pending_set_profiler.
      cbn [held_words buffer_pool_ filled_buffers_].
      rewrite queue_words_insert_notin by exact Hnf. rewrite Hq.
      rewrite cursor_words_insert_ne by exact Hnc.
      rewrite Hcw. reflexivity.
    + rewrite <- Hws, <- !app_assoc. reflexivity.
  - eexists. split; [reflexivity|].
    cbn [m_world m_at m_data set_profiler g_profiler
         g_client_buffer_manager filled_buffers_].
    split; [|split; [reflexivity|lia]].
    cbn [held_words] in Hh. injection Hh as <-.
    cbn [held] in Hnd, Hlt.
    assert (HP : Permutation
              (current (mkWorld (Some p) gm ptr endp sc) ++ [f]
                 ++ filled_buffers_ p ++ empty_buffers_ p)
              (current (mkWorld (Some p) gm ptr endp sc) ++ []
                 ++ filled_buffers_ p ++ empty_buffers_ p ++ [f])).
    { apply Permutation_app_head. cbn [app].
      rewrite app_assoc. apply Permutation_cons_append. }
    destruct (placed_Permutation _ _ HP Hnd Hlt) as (Hnd' & Hlt' & Hall').
    eexists _, processed, (q ++ cw).
    cbn [m_world m_at m_data g_profiler set_profiler].
    split; [reflexivity|].
    cbn [running_ buffer_pool_ filled_buffers_ empty_buffers_].
    split; [first [exact Hrun|reflexivity]|]. split; [exact Hlen|].
    split; [exact Hnd'|]. split; [exact Hlt'|].
    split; [intros HE; etransitivity; [exact Hall'|exact (Hall HE)]|].
    split; [exact Hok|].
    split; [exact Hd|]. split; [|exact Hws].
    rewrite pending_set_profiler.
    cbn [held_words buffer_pool_ filled_buffers_].
    rewrite Hq, Hcw. reflexivity.
Qed.
Lemma Inv_started :
  Inv ProfilerData_new [] Machine_started /\ Emitting Machine_started.
Proof.
  split; [|exists O; reflexivity].
  change Machine_started
    with (mkMachine
            (filling
               (mkProfilerThread true [] (seq 1 15)
                  (replicate BUFFER_POOL_SIZE (mkEventBuffer ∅ 0)))
               O 0 O)
            AtTake ProfilerData_new).
  change (@nil Z) with (@nil Z ++ [] ++ [] ++ []).
  apply Inv_filling with (buf := mkEventBuffer ∅ 0);
    try reflexivity.
  - cbn [held app filled_buffers_ empty_buffers_].
    change (O :: seq 1 15) with (seq 0 16). apply List.seq_NoDup.
  - cbn [held app filled_buffers_ empty_buffers_].
    change (O :: seq 1 15) with (seq 0 16).
    intros x Hx. apply in_seq in Hx. unfold BUFFER_POOL_SIZE. lia.
  - unfold BUFFER_SIZE. lia.
Qed.

Lemma Inv_run (d0 : ProfilerData) (acts : list Action) (ws : list Z)
    (m m' : Machine) :
  Inv d0 ws m -> Emitting m -> run acts m = Done m' ->
  Inv d0 (ws ++ emitted acts) m' /\ Emitting m'.
Proof.
  revert ws m. induction acts as [|a acts IH]; intros ws m HI HE Hrun.
  - injection Hrun as <-. cbn [emitted]. rewrite app_nil_r. auto.
  - cbn [run] in Hrun.
    destruct (run_action a m) as [m1| |] eqn:Hstep; try discriminate.
    cbn [outcome_bind] in Hrun. destruct a as [r|].
    + destruct (Inv_emit _ _ _ _ _ HI HE Hstep) as [HI1 HE1].
      cbn [emitted].
      replace (ws ++ recorded_word r :: emitted acts)
        with ((ws ++ [recorded_word r]) ++ emitted acts)
        by (rewrite <- app_assoc; reflexivity).
      eapply IH; eassumption.
    + cbn [run_action] in Hstep.
      destruct (Inv_consume _ _ _ HI) as (m1' & Hs & HI1 & Hm & _).
      rewrite Hs in Hstep. injection Hstep as ->.
      cbn [emitted]. eapply IH; [exact HI1| |exact Hrun].
      destruct HE as [b Hb]. exists b. rewrite Hm. exact Hb.
Qed.

(** [CleanupClient] while the emitter holds a buffer: the events of the
    partial buffer stay pending, and no manager is left. *)
Lemma Inv_cleanup (d0 : ProfilerData) (ws : list Z) (m : Machine) :
  Inv d0 ws m -> Emitting m ->
  exists w',
    CleanupClient (m_world m) = Done w' /\
    Inv d0 ws (mkMachine w' (m_at m) (m_data m)) /\
    g_client_buffer_manager w' = None.
Proof.
  intros HI HE.
  destruct (Inv_emitting _ _ _ HI HE)
    as (p & b & i & sc & buf & processed & h & q & cw & Hw & Hr & Hlen & Hnd
        & Hlt & Hall & Hi & Hbuf & Hcw & Hh & Hq & Hd & <-).
  destruct m as [w c d]. cbn [m_world m_at m_data] in *. subst w.
  assert (Hb : (b < length (buffer_pool_ p))%nat).
  { rewrite Hlen. apply Hlt. left. reflexivity. }
  assert (Hnb : ~ In b (held c ++ filled_buffers_ p ++ empty_buffers_ p)).
  { inversion Hnd; auto. }
  assert (Hnh : ~ In b (held c)).
  { intros H. apply Hnb, in_or_app. left. exact H. }
  assert (Hnf : ~ In b (filled_buffers_ p)).
  { intros H. apply Hnb, in_or_app. right. apply in_or_app. left. exact H. }
  unfold CleanupClient, filling.
  cbn [g_client_buffer_manager profiler_current_buffer_ptr g_profiler].
  destruct (decide (b = b)) as [_|Hne]; [|congruence].
  eexists. split; [reflexivity|]. split; [|reflexivity].
  cbn [outcome_bind set_profiler g_profiler g_client_buffer_manager
       profiler_current_buffer_ptr profiler_buffer_end_ptr switch_calls].
  set (pool' := alter (fun buf0 => mkEventBuffer (events buf0) i) b
                  (buffer_pool_ p)).
  assert (Hh' : held_words c pool' = Some h).
  { subst pool'. rewrite held_words_alter_ne by exact Hnh. exact Hh. }
  assert (Hq' : queue_words pool' (filled_buffers_ p) = Some q).
  { subst pool'. rewrite queue_words_alter_notin by exact Hnf. exact Hq. }
  assert (Hb' : queued_words pool' b = Some cw).
  { subst pool'. unfold queued_words. rewrite list_lookup_alter_eq, Hbuf.
    cbn [fmap option_fmap option_map events count].
    destruct (Z.leb_spec 0 i); [|lia].
    destruct (Z.leb_spec i BUFFER_SIZE); [|lia]. exact Hcw. }
  assert (Hnd0 : List.NoDup (held c ++ filled_buffers_ p ++ empty_buffers_ p)).
  { inversion Hnd; auto. }
  destruct (Z.ltb_spec 0 i) as [Hpos|Hzero].
  - eexists _, processed, (h ++ (q ++ cw) ++ []).
    cbn [m_world m_at m_data g_profiler].
    split; [reflexivity|].
    unfold PushFilledBuffer.
    cbn [running_ buffer_pool_ filled_buffers_ empty_buffers_].
    assert (HP : Permutation
              (b :: held c ++ filled_buffers_ p ++ empty_buffers_ p)
              (held c ++ (filled_buffers_ p ++ [b]) ++ empty_buffers_ p)).
    { rewrite <- !app_assoc. cbn [app].
      rewrite (app_assoc (held c) (filled_buffers_ p) (b :: empty_buffers_ p)).
      rewrite <- (Permutation_middle (held c ++ filled_buffers_ p)
                    (empty_buffers_ p) b).
      rewrite <- app_assoc. reflexivity. }
    destruct (placed_Permutation _ _ HP Hnd Hlt) as (Hnd' & Hlt' & _).
    split; [exact Hr|].
    split; [subst pool'; rewrite length_alter; exact Hlen|].
    split; [exact Hnd'|]. split; [exact Hlt'|].
    split; [intros [x Hx]; discriminate Hx|].
    split; [exact I|]. split; [exact Hd|]. split.
    + unfold pending, cursor_words.
      cbn [m_world m_at g_profiler g_client_buffer_manager buffer_pool_
           filled_buffers_].
      fold pool'. rewrite Hh'. rewrite (queue_words_snoc _ _ _ _ _ Hq' Hb').
      reflexivity.
    + rewrite app_nil_r. reflexivity.
  - assert (i = 0) as -> by lia.
    cbn [Z.to_nat read_slots] in Hcw. injection Hcw as <-.
    eexists _, processed, (h ++ q ++ []).
    cbn [m_world m_at m_data g_profiler].
    split; [reflexivity|].
    cbn [running_ buffer_pool_ filled_buffers_ empty_buffers_].
    split; [exact Hr|].
    split; [subst pool'; rewrite length_alter; exact Hlen|].
    split; [exact Hnd0|].
    split; [intros x Hx; apply Hlt; right; exact Hx|].
    split; [intros [x Hx]; discriminate Hx|].
    split; [exact I|]. split; [exact Hd|]. split; [|reflexivity].
    unfold pending, cursor_words.
    cbn [m_world m_at g_profiler g_client_buffer_manager buffer_pool_
         filled_buffers_].
    fold pool'. rewrite Hh', Hq'. reflexivity.
Qed.

(** Working off the backlog. *)
Lemma Inv_drain (d0 : ProfilerData) (ws : list Z) (n : nat) (m : Machine) :
  Inv d0 ws m -> backlog m = n ->
  exists m',
    run (repeat Consume n) m = Done m' /\ Inv d0 ws m' /\
    backlog m' = O /\
    g_client_buffer_manager (m_world m')
      = g_client_buffer_manager (m_world m).
Proof.
  revert m. induction n as [|n IH]; intros m HI Hn.
  - exists m. cbn [repeat run]. auto.
  - destruct (Inv_consume _ _ _ HI) as (m1 & Hs & HI1 & Hm & Hb).
    destruct (IH m1 HI1) as (m' & Hrun & HI' & Hb' & Hm'); [lia|].
    exists m'. cbn [repeat run run_action]. rewrite Hs.
    cbn [outcome_bind]. repeat split; auto. congruence.
Qed.

(** With no backlog and no buffer with the emitter, nothing is pending. *)
Lemma pending_drained (d0 : ProfilerData) (ws : list Z) (m : Machine) :
  Inv d0 ws m -> backlog m = O ->
  g_client_buffer_manager (m_world m) = None ->
  pending m = Some [] /\ m_data m = ProcessBuffer ws d0.
Proof.
  intros (p & processed & rest & Hp & Hrun & Hlen & Hnd & Hlt & Hall & Hok
          & Hd & Hpend & Hws) Hb Hm.
  destruct m as [[gp gm ptr endp sc] c d].
  cbn [m_world m_at m_data g_profiler g_client_buffer_manager] in *.
  subst gp gm. unfold backlog in Hb. cbn [m_world m_at g_profiler] in Hb.
  assert (Hf : filled_buffers_ p = []).
  { destruct (filled_buffers_ p); [reflexivity|]. cbn [length] in Hb. lia. }
  assert (Hc : c = AtTake) by (destruct c; [reflexivity| |]; lia).
  subst c. unfold pending, cursor_words in Hpend |- *.
  cbn [m_world m_at g_profiler g_client_buffer_manager held_words]
    in Hpend |- *.
  rewrite Hf in Hpend |- *. cbn [queue_words app] in Hpend |- *.
  injection Hpend as <-. split; [reflexivity|].
  rewrite app_nil_r in Hws. subst ws. exact Hd.
Qed.
(** What a recorder call comes to in a state of the invariant: it
    completes, or it waits because the cursor is at the last slot and no
    empty buffer is left.  It never stores outside a buffer. *)
Lemma emit_outcome (d0 : ProfilerData) (ws : list Z) (m : Machine)
    (r : Recorded) :
  Inv d0 ws m -> Emitting m ->
  (exists m', run_action (Emit r) m = Done m') \/
  (run_action (Emit r) m = Blocked /\
   exists p b,
     g_profiler (m_world m) = Some p /\ empty_buffers_ p = [] /\
     profiler_current_buffer_ptr (m_world m) = Some (b, BUFFER_SIZE - 1)).
Proof.
  intros HI HE.
  destruct (Inv_emitting _ _ _ HI HE)
    as (p & b & i & sc & buf & processed & h & q & cw & Hw & Hr & Hlen & Hnd
        & Hlt & Hall & Hi & Hbuf & Hcw & Hh & Hq & Hd & <-).
  destruct m as [w c d]. cbn [m_world m_at m_data] in *. subst w.
  cbn [run_action m_world m_at m_data]. rewrite Profiler_Record_word.
  assert (Hb : (b < length (buffer_pool_ p))%nat).
  { rewrite Hlen. apply Hlt. left. reflexivity. }
  destruct (Z.eq_dec (i + 1) BUFFER_SIZE) as [Hlast|Hnl].
  - destruct (empty_buffers_ p) as [|b' rest] eqn:Hempty.
    + right. rewrite record_word_blocks by (auto; lia).
      split; [reflexivity|]. exists p, b.
      cbn [filling g_profiler profiler_current_buffer_ptr].
      repeat split; auto. do 2 f_equal. lia.
    + left. rewrite (record_word_switches _ p b b' rest) by (auto; lia).
      eexists. reflexivity.
  - left. rewrite record_word_fills by (auto; lia).
    eexists. reflexivity.
Qed.

Lemma Inv_counts (d0 : ProfilerData) (ws : list Z) (m : Machine) :
  Inv d0 ws m -> Emitting m ->
  exists p,
    g_profiler (m_world m) = Some p /\
    (1 + length (held (m_at m)) + length (filled_buffers_ p)
       + length (empty_buffers_ p) = BUFFER_POOL_SIZE)%nat.
Proof.
  intros HI HE.
  destruct (Inv_emitting _ _ _ HI HE)
    as (p & b & i & sc & buf & processed & h & q & cw & Hw & Hr & Hlen & Hnd
        & Hlt & Hall & _).
  exists p. rewrite Hw. split; [reflexivity|].
  cbn [length] in Hall. rewrite !length_app in Hall. lia.
Qed.

Lemma Inv_pool_Permutation (d0 : ProfilerData) (ws : list Z) (m : Machine) :
  Inv d0 ws m -> Emitting m ->
  Permutation (in_use m) (seq 0 BUFFER_POOL_SIZE).
Proof.
  intros (p & processed & rest & Hp & Hrun & Hlen & Hnd & Hlt & Hall & _) HE.
  apply NoDup_Permutation_bis.
  - exact Hnd.
  - rewrite length_seq, (Hall HE). reflexivity.
  - intros x Hx. apply in_seq. specialize (Hlt x Hx). lia.
Qed.
Lemma AddEvent_fold (evs : list Z) (buf : EventBuffer) (l : list Z) :
  0 <= count buf <= BUFFER_SIZE ->
  read_slots (events buf) 0 (Z.to_nat (count buf)) = Some l ->
  let buf' := fold_left (fun b e => AddEvent e b) evs buf in
  count buf' = Z.min (count buf + Z.of_nat (length evs)) BUFFER_SIZE /\
  read_slots (events buf') 0 (Z.to_nat (count buf'))
    = Some (l ++ firstn (Z.to_nat (BUFFER_SIZE - count buf)) evs).
Proof.
  revert buf l. induction evs as [|e evs IH]; intros buf l Hc Hl.
  - cbn [fold_left length]. split; [lia|].
    rewrite firstn_nil, app_nil_r. exact Hl.
  - cbn [fold_left length]. unfold AddEvent at 2 4 6.
    destruct (Z.ltb_spec (count buf) BUFFER_SIZE) as [Hlt|Hge].
    + set (buf1 := mkEventBuffer (<[count buf := e]> (events buf))
                     (count buf + 1)).
      assert (Hl1 : read_slots (events buf1) 0 (Z.to_nat (count buf1))
                    = Some (l ++ [e])).
      { subst buf1. cbn [events count].
        replace (Z.to_nat (count buf + 1)) with (S (Z.to_nat (count buf)))
          by lia.
        pose proof (read_slots_snoc (events buf) e (Z.to_nat (count buf)) 0 l
                      Hl) as H.
        replace (0 + Z.of_nat (Z.to_nat (count buf))) with (count buf) in H
          by lia.
        exact H. }
      destruct (IH buf1 (l ++ [e])) as [H1 H2];
        [subst buf1; cbn [count]; lia|exact Hl1|].
      split.
      * rewrite H1. subst buf1. cbn [count]. lia.
      * rewrite H2. subst buf1. cbn [count].
        replace (Z.to_nat (BUFFER_SIZE - count buf))
          with (S (Z.to_nat (BUFFER_SIZE - (count buf + 1)))) by lia.
        cbn [firstn]. rewrite <- app_assoc. reflexivity.
    + destruct (IH buf l Hc Hl) as [H1 H2]. split.
      * rewrite H1. lia.
      * rewrite H2.
        replace (Z.to_nat (BUFFER_SIZE - count buf)) with O by lia.
        reflexivity.
Qed.

(** X20: a buffer filled through [AddEvent] keeps the first 8192 events
    and drops the rest without a sign: after [Clear] and any number of
    [AddEvent] calls the count is the number of calls capped at
    [BUFFER_SIZE], [IsFull] holds exactly when at least 8192 events were
    added, and the consumer's [ProcessBuffer] gives exactly the first 8192
    of them to [ProcessEvent], in order, and leaves the buffer empty. *)
Theorem AddEvent_keeps_first_BUFFER_SIZE_events (evs : list Z)
    (buf : EventBuffer) (d : ProfilerData) :
  let buf' := fold_left (fun b e => AddEvent e b) evs (EventBuffer_Clear buf) in
  count buf' = Z.min (Z.of_nat (length evs)) BUFFER_SIZE /\
  IsFull buf' = (BUFFER_SIZE <=? Z.of_nat (length evs)) /\
  BufferConsumer_ProcessBuffer (Some O) [buf'] d
    = Done ([EventBuffer_Clear buf'],
            ProcessBuffer (firstn (Z.to_nat BUFFER_SIZE) evs) d) /\
  count (EventBuffer_Clear buf') = 0.
Proof.
  intros buf'.
  destruct (AddEvent_fold evs (EventBuffer_Clear buf) [])
    as [H1 H2]; [cbn [EventBuffer_Clear count]; unfold BUFFER_SIZE; lia
                |reflexivity|].
  fold buf' in H1, H2. cbn [EventBuffer_Clear count] in H1, H2.
  rewrite Z.add_0_l in H1. rewrite Z.sub_0_r in H2. cbn [app] in H2.
  split; [exact H1|]. split; [|split; [|reflexivity]].
  - unfold IsFull. rewrite H1.
    destruct (Z.leb_spec BUFFER_SIZE (Z.of_nat (length evs)));
      destruct (Z.leb_spec BUFFER_SIZE
                  (Z.min (Z.of_nat (length evs)) BUFFER_SIZE));
      try reflexivity; lia.
  - unfold BufferConsumer_ProcessBuffer.
    change ([buf'] !! O) with (Some buf'). cbv beta iota.
    rewrite (process_slots_read _ _ _ _ d H2)
      by (unfold BUFFER_SIZE in *; lia).
    reflexivity.
Qed.
Lemma emitted_map_Emit (rs : list Recorded) :
  emitted (map Emit rs) = map recorded_word rs.
Proof.
  induction rs as [|r rs IH]; [reflexivity|].
  cbn [map emitted]. rewrite IH. reflexivity.
Qed.

(** A recorder call that completes adds one event and leaves the consumer
    alone. *)
Lemma emit_counts_one (d0 : ProfilerData) (ws : list Z) (m m' : Machine)
    (r : Recorded) :
  Inv d0 ws m -> Emitting m -> run_action (Emit r) m = Done m' ->
  recorded_count m' = recorded_count m + 1 /\
  m_at m' = m_at m /\ m_data m' = m_data m.
Proof.
  intros HI HE Hstep.
  destruct (Inv_emitting _ _ _ HI HE)
    as (p & b & i & sc & buf & processed & h & q & cw & Hw & Hr & Hlen & Hnd
        & Hlt & Hall & Hi & Hbuf & Hcw & Hh & Hq & Hd & <-).
  destruct m as [w c d]. cbn [m_world m_at m_data] in *. subst w.
  cbn [run_action m_world m_at m_data] in Hstep.
  rewrite Profiler_Record_word in Hstep.
  assert (Hb : (b < length (buffer_pool_ p))%nat).
  { rewrite Hlen. apply Hlt. left. reflexivity. }
  unfold recorded_count.
  destruct (Z.eq_dec (i + 1) BUFFER_SIZE) as [Hlast|Hnl].
  - destruct (empty_buffers_ p) as [|b' rest] eqn:Hempty.
    + rewrite record_word_blocks in Hstep by (auto; lia). discriminate.
    + rewrite (record_word_switches _ p b b' rest i sc) in Hstep
        by (auto; lia).
      injection Hstep as <-.
      cbn [m_world m_at m_data filling g_profiler
           profiler_current_buffer_ptr].
      unfold handed_over. cbn [filled_buffers_].
      rewrite (proj2 (store_in_queues _ _ _ _)).
      rewrite length_app. cbn [length].
      repeat split. lia.
  - rewrite record_word_fills in Hstep by (auto; lia).
    injection Hstep as <-.
    cbn [m_world m_at m_data filling g_profiler profiler_current_buffer_ptr].
    rewrite (proj2 (store_in_queues _ _ _ _)).
    repeat split. lia.
Qed.

(** With the consumer idle at the head of its loop, a recorder call waits
    exactly when all sixteen buffers are in use and the last slot of the
    current one is being written. *)
Lemma emit_blocks_iff (d0 : ProfilerData) (ws : list Z) (m : Machine)
    (r : Recorded) :
  Inv d0 ws m -> Emitting m -> m_at m = AtTake ->
  0 <= recorded_count m < Z.of_nat BUFFER_POOL_SIZE * BUFFER_SIZE /\
  (run_action (Emit r) m = Blocked <->
   recorded_count m = Z.of_nat BUFFER_POOL_SIZE * BUFFER_SIZE - 1).
Proof.
  intros HI HE Hat.
  destruct (Inv_counts _ _ _ HI HE) as (p0 & Hp0 & Hcount).
  destruct (emit_outcome _ _ _ r HI HE) as [[m' Hd]|(Hbl & p1 & b1 & Hp1 & He
                                                     & Hptr)].
  - destruct (Inv_emitting _ _ _ HI HE)
      as (p & b & i & sc & buf & processed & h & q & cw & Hw & Hr & Hlen & Hnd
          & Hlt & Hall & Hi & Hbuf & _).
    assert (Hb : (b < length (buffer_pool_ p))%nat).
    { rewrite Hlen. apply Hlt. left. reflexivity. }
    destruct m as [w c d]. cbn [m_world m_at m_data] in *. subst w c.
    cbn [filling g_profiler] in Hp0. injection Hp0 as <-.
    cbn [held length] in Hcount.
    unfold recorded_count.
    cbn [m_world filling g_profiler profiler_current_buffer_ptr].
    cbn [run_action m_world] in Hd |- *.
    rewrite Profiler_Record_word in Hd |- *.
    unfold BUFFER_POOL_SIZE in *. unfold BUFFER_SIZE in *.
    split; [lia|]. rewrite Hd. split; [discriminate|].
    intros Hcap. exfalso.
    assert (Hi' : i + 1 = 8192) by lia.
    assert (He : empty_buffers_ p = []).
    { destruct (empty_buffers_ p); [reflexivity|]. cbn [length] in Hcount.
      lia. }
    rewrite record_word_blocks in Hd; auto; try discriminate.
    lia.
  - rewrite Hp0 in Hp1. injection Hp1 as <-.
    rewrite He in Hcount. cbn [length] in Hcount. rewrite Hat in Hcount.
    cbn [held length] in Hcount.
    unfold recorded_count. rewrite Hp0, Hptr.
    unfold BUFFER_POOL_SIZE in *. unfold BUFFER_SIZE in *.
    split; [lia|]. split; [lia|]. intros _. exact Hbl.
Qed.

(** Recorder calls alone, up to the capacity of the pool. *)
Lemma emit_only_run (d0 : ProfilerData) (rs : list Recorded) (ws : list Z)
    (m : Machine) :
  Inv d0 ws m -> Emitting m -> m_at m = AtTake ->
  recorded_count m + Z.of_nat (length rs)
    < Z.of_nat BUFFER_POOL_SIZE * BUFFER_SIZE ->
  exists m',
    run (map Emit rs) m = Done m' /\
    Inv d0 (ws ++ map recorded_word rs) m' /\ Emitting m' /\
    m_at m' = AtTake /\
    recorded_count m' = recorded_count m + Z.of_nat (length rs) /\
    m_data m' = m_data m.
Proof.
  revert ws m. induction rs as [|r rs IH]; intros ws m HI HE Hat Hcap.
  - exists m. cbn [map run length]. rewrite app_nil_r.
    repeat split; auto. lia.
  - cbn [length] in Hcap.
    destruct (emit_blocks_iff _ _ _ r HI HE Hat) as [Hrange Hiff].
    destruct (emit_outcome _ _ _ r HI HE) as [[m1 Hd]|(Hbl & _)].
    2:{ apply Hiff in Hbl. lia. }
    destruct (Inv_emit _ _ _ _ _ HI HE Hd) as [HI1 HE1].
    destruct (emit_counts_one _ _ _ _ _ HI HE Hd) as (Hc1 & Hat1 & Hd1).
    destruct (IH _ m1 HI1 HE1) as (m' & Hrun & HI' & HE' & Hat' & Hc' & Hd');
      [congruence|lia|].
    exists m'. cbn [map run]. rewrite Hd. cbn [outcome_bind].
    split; [exact Hrun|]. split.
    { cbn [map].
      replace (ws ++ recorded_word r :: map recorded_word rs)
        with ((ws ++ [recorded_word r]) ++ map recorded_word rs)
        by (rewrite <- app_assoc; reflexivity).
      exact HI'. }
    split; [exact HE'|]. split; [exact Hat'|].
    split; [cbn [length]; lia|congruence].
Qed.

Lemma recorded_count_started : recorded_count Machine_started = 0.
Proof. reflexivity. Qed.

(** The emitter alone, from the start. *)
Lemma emit_only_capacity (rs : list Recorded) (r : Recorded) :
  Z.of_nat (length rs) < Z.of_nat BUFFER_POOL_SIZE * BUFFER_SIZE ->
  exists m,
    run (map Emit rs) Machine_started = Done m /\
    m_data m = ProfilerData_new /\
    (run_action (Emit r) m = Blocked <->
     Z.of_nat (length rs) = Z.of_nat BUFFER_POOL_SIZE * BUFFER_SIZE - 1).
Proof.
  intros Hcap. destruct Inv_started as [HI0 HE0].
  destruct (emit_only_run _ rs _ _ HI0 HE0 eq_refl)
    as (m & Hrun & HI & HE & Hat & Hc & Hd);
    [rewrite recorded_count_started; lia|].
  exists m. split; [exact Hrun|]. split; [exact Hd|].
  rewrite recorded_count_started, Z.add_0_l in Hc. rewrite <- Hc.
  apply (emit_blocks_iff _ _ _ r HI HE Hat).
Qed.

(** X21: with the consumer thread not running, the emitter can record
    131071 events (sixteen buffers of 8192 events, less one): a run of
    fewer than 131072 recorder calls from the start completes and leaves
    [data_] untouched, and the next recorder call waits for an empty
    buffer exactly when 131071 events have been recorded. *)
Theorem emitter_capacity_without_consumer (rs : list Recorded)
    (r : Recorded) :
  Z.of_nat (length rs) < Z.of_nat BUFFER_POOL_SIZE * BUFFER_SIZE ->
  exists m,
    run (map Emit rs) Machine_started = Done m /\
    m_data m = ProfilerData_new /\
    (run_action (Emit r) m = Blocked <->
     Z.of_nat (length rs) = Z.of_nat BUFFER_POOL_SIZE * BUFFER_SIZE - 1).
Proof. apply emit_only_capacity. Qed.
(** X22: in every state reached by a schedule of recorder calls and consumer
    steps after [Profiler_Initialize], a step of the consumer thread
    completes, and a recorder call either completes or waits for an empty
    buffer with the cursor at the last slot of its buffer and the empty
    queue empty.  No step stores or reads outside the written part of a
    buffer. *)
Theorem reachable_steps_never_undefined (acts : list Action) (m : Machine) :
  run acts Machine_started = Done m ->
  (exists m', run_action Consume m = Done m') /\
  forall r,
    (exists m', run_action (Emit r) m = Done m') \/
    (run_action (Emit r) m = Blocked /\
     exists p b,
       g_profiler (m_world m) = Some p /\ empty_buffers_ p = [] /\
       profiler_current_buffer_ptr (m_world m) = Some (b, BUFFER_SIZE - 1)).
Proof.
  intros Hrun.
  destruct Inv_started as [HI0 HE0].
  destruct (Inv_run _ _ _ _ _ HI0 HE0 Hrun) as [HI HE].
  split.
  - destruct (Inv_consume _ _ _ HI) as (m' & Hs & _).
    exists m'. exact Hs.
  - intros r. eapply emit_outcome; eassumption.
Qed.

(** X23: events reach [ProcessEvent] in the order in which they were
    recorded, none lost and none twice: in every state reached by a
    schedule, [data_] is the result of processing a prefix of the recorded
    words, and the remaining words are exactly those pending in the buffer
    held by the consumer, the filled queue and the emitter's current
    buffer, in that order. *)
Theorem events_processed_in_recorded_order (acts : list Action)
    (m : Machine) :
  run acts Machine_started = Done m ->
  exists processed rest,
    m_data m = ProcessBuffer processed ProfilerData_new /\
    pending m = Some rest /\
    processed ++ rest = emitted acts.
Proof.
  intros Hrun.
  destruct Inv_started as [HI0 HE0].
  destruct (Inv_run _ _ _ _ _ HI0 HE0 Hrun)
    as [(p & processed & rest & _ & _ & _ & _ & _ & _ & _ & Hd & Hp & Hws) _].
  exists processed, rest. auto.
Qed.

(** X24: the sixteen buffers of the pool are conserved: in every state
    reached by a schedule each buffer is in exactly one place, with the
    emitter, with the consumer, in the filled queue or in the empty
    queue. *)
Theorem pool_buffers_conserved (acts : list Action) (m : Machine) :
  run acts Machine_started = Done m ->
  Permutation (in_use m) (seq 0 BUFFER_POOL_SIZE).
Proof.
  intros Hrun.
  destruct Inv_started as [HI0 HE0].
  destruct (Inv_run _ _ _ _ _ HI0 HE0 Hrun) as [HI HE].
  eapply Inv_pool_Permutation; eassumption.
Qed.

(** X25: a recorder call that has to wait for an empty buffer can complete
    after three steps of the consumer thread. *)
Theorem waiting_emitter_resumes (acts : list Action) (m : Machine)
    (r : Recorded) :
  run acts Machine_started = Done m ->
  run_action (Emit r) m = Blocked ->
  exists m3 m4,
    run [Consume; Consume; Consume] m = Done m3 /\
    run_action (Emit r) m3 = Done m4.
Proof.
  intros Hrun Hblocked.
  destruct Inv_started as [HI0 HE0].
  destruct (Inv_run _ _ _ _ _ HI0 HE0 Hrun) as [HI HE].
  destruct (Inv_consume _ _ _ HI) as (m1 & Hs1 & HI1 & Hm1 & Hb1).
  destruct (Inv_consume _ _ _ HI1) as (m2 & Hs2 & HI2 & Hm2 & Hb2).
  destruct (Inv_consume _ _ _ HI2) as (m3 & Hs3 & HI3 & Hm3 & Hb3).
  assert (HE3 : Emitting m3).
  { destruct HE as [b Hb]. exists b. congruence. }
  assert (H3 : run [Consume; Consume; Consume] m = Done m3).
  { cbn [run run_action]. rewrite Hs1. cbn [outcome_bind]. rewrite Hs2.
    cbn [outcome_bind]. rewrite Hs3. reflexivity. }
  destruct (emit_outcome _ _ _ r HI HE) as [[m' Hd]|(_ & p & b & Hp & He & _)];
    [congruence|].
  destruct (emit_outcome _ _ _ r HI3 HE3)
    as [[m4 Hd]|(_ & p3 & b3 & Hp3 & He3 & _)].
  - exists m3, m4. auto.
  - exfalso.
    destruct (Inv_counts _ _ _ HI HE) as (p' & Hp' & Hcount).
    destruct (Inv_counts _ _ _ HI3 HE3) as (p3' & Hp3' & Hcount3).
    rewrite Hp in Hp'. injection Hp' as <-.
    rewrite Hp3 in Hp3'. injection Hp3' as <-.
    rewrite He in Hcount. rewrite He3 in Hcount3.
    unfold backlog in Hb1, Hb2, Hb3. rewrite Hp3 in Hb3. rewrite Hp in Hb1.
    rewrite Hb2, Hb1 in Hb3. unfold BUFFER_POOL_SIZE in *.
    cbn [length] in Hcount, Hcount3.
    destruct (m_at m), (m_at m3); cbn [held length] in Hcount, Hcount3; lia.
Qed.

(** X26: shutting the client down and letting the consumer work off its
    backlog processes every recorded event: after a schedule,
    [CleanupClient] completes, and after as many consumer steps as the
    backlog counts nothing is pending and [data_] is the result of
    [ProcessEvent] on all recorded words in the order of recording. *)
Theorem cleanup_then_drain_processes_everything (acts : list Action)
    (m : Machine) :
  run acts Machine_started = Done m ->
  exists w' m',
    CleanupClient (m_world m) = Done w' /\
    run (repeat Consume (backlog (mkMachine w' (m_at m) (m_data m))))
        (mkMachine w' (m_at m) (m_data m)) = Done m' /\
    pending m' = Some [] /\
    m_data m' = ProcessBuffer (emitted acts) ProfilerData_new.
Proof.
  intros Hrun.
  destruct Inv_started as [HI0 HE0].
  destruct (Inv_run _ _ _ _ _ HI0 HE0 Hrun) as [HI HE].
  destruct (Inv_cleanup _ _ _ HI HE) as (w' & Hc & HIc & Hm).
  destruct (Inv_drain _ _ _ _ HIc eq_refl) as (m' & Hd & HI' & Hb & Hm').
  exists w', m'. split; [exact Hc|]. split; [exact Hd|].
  apply (pending_drained _ _ _ HI' Hb). rewrite Hm'. exact Hm.
Qed.

(** ** Event interpreter: what each event adds to the edges *)

Lemma CallInfoRef_eqb_eq (r r' : CallInfoRef) :
  CallInfoRef_eqb r r' = true <-> r = r'.
Proof.
  destruct r as [s t|s t], r' as [s' t'|s' t']; cbn [CallInfoRef_eqb];
    split; intros H; try discriminate.
  - apply andb_true_iff in H. destruct H as [H1 H2].
    apply Z.eqb_eq in H1, H2. congruence.
  - injection H as -> ->. rewrite !Z.eqb_refl. reflexivity.
  - apply andb_true_iff in H. destruct H as [H1 H2].
    apply Z.eqb_eq in H1, H2. congruence.
  - injection H as -> ->. rewrite !Z.eqb_refl. reflexivity.
Qed.

Lemma edge_info_update_ref (r r' : CallInfoRef) (f : CallInfo -> CallInfo)
    (costs : list (Z * InstructionCost)) :
  edge_info (update_ref r' f costs) r
  = if CallInfoRef_eqb r r' then option_map f (edge_info costs r)
    else edge_info costs r.
Proof.
  destruct r as [s t|s t], r' as [s' t'|s' t'];
    cbn [edge_info update_ref CallInfoRef_eqb];
    rewrite smap_find_adjust;
    destruct (Z.eqb_spec s s') as [->|Hs]; cbn [andb];
    destruct (smap_find Z.compare s' costs) as [c|] eqn:Hc;
    cbn [option_map]; try reflexivity;
    try (destruct (smap_find Z.compare s costs); reflexivity).
  - cbn [set_calls calls]. rewrite smap_find_adjust.
    destruct (t =? t'); reflexivity.
  - destruct (t =? t'); reflexivity.
  - cbn [set_jumps jumps]. rewrite smap_find_adjust.
    destruct (t =? t'); reflexivity.
  - destruct (t =? t'); reflexivity.
Qed.

Lemma option_map_iter (f : CallInfo -> CallInfo) (n m : nat)
    (o : option CallInfo) :
  option_map (Nat.iter n f) (option_map (Nat.iter m f) o)
  = option_map (Nat.iter (m + n) f) o.
Proof.
  destruct o as [x|]; [|reflexivity]. cbn [option_map]. f_equal.
  rewrite Nat.add_comm. symmetry. apply Nat.iter_add.
Qed.

Lemma edge_info_fold_refs (f : CallInfo -> CallInfo) (l : list CallInfoRef)
    (costs : list (Z * InstructionCost)) (r : CallInfoRef) :
  edge_info (fold_left (fun cs r' => update_ref r' f cs) l costs) r
  = option_map (Nat.iter (count_refs r l) f) (edge_info costs r).
Proof.
  revert costs. induction l as [|r' l IH]; intros costs.
  - cbn [fold_left count_refs Nat.iter].
    destruct (edge_info costs r); reflexivity.
  - cbn [fold_left count_refs]. rewrite IH, edge_info_update_ref.
    destruct (CallInfoRef_eqb r r').
    + change (option_map f (edge_info costs r))
        with (option_map (Nat.iter 1 f) (edge_info costs r)).
      apply option_map_iter.
    + reflexivity.
Qed.

Lemma bump_frame_fold (f : CallInfo -> CallInfo)
    (costs : list (Z * InstructionCost)) (fr : CallFrame) :
  bump_frame f costs fr
  = fold_left (fun cs r' => update_ref r' f cs) (frame_refs fr) costs.
Proof.
  unfold bump_frame, frame_refs. cbn [fold_left].
  generalize (update_ref (call_info fr) f costs).
  induction (jump_refs fr) as [|je l IH]; intros cs; [reflexivity|].
  cbn [fold_left map]. apply IH.
Qed.

Lemma bump_stack_fold (f : CallInfo -> CallInfo) (stack : list CallFrame)
    (costs : list (Z * InstructionCost)) :
  bump_stack f stack costs
  = fold_left (fun cs r' => update_ref r' f cs) (flat_map frame_refs stack)
      costs.
Proof.
  unfold bump_stack. revert costs.
  induction stack as [|fr stack IH]; intros costs; [reflexivity|].
  cbn [fold_left flat_map]. rewrite fold_left_app, IH, bump_frame_fold.
  reflexivity.
Qed.

(** The loop over the stack applies [f] to an edge once for every
    reference to it. *)
Lemma edge_info_bump_stack (f : CallInfo -> CallInfo)
    (stack : list CallFrame) (costs : list (Z * InstructionCost))
    (r : CallInfoRef) :
  edge_info (bump_stack f stack costs) r
  = option_map (Nat.iter (refs_to r stack) f) (edge_info costs r).
Proof. rewrite bump_stack_fold. apply edge_info_fold_refs. Qed.

(** [instruction_costs_[k]] with an update that leaves the edge maps as
    they are. *)
Lemma edge_info_index_counters (k : Z)
    (F : InstructionCost -> InstructionCost)
    (costs : list (Z * InstructionCost)) (r : CallInfoRef) :
  StronglySorted Z.lt (map fst costs) ->
  (forall c, calls (F c) = calls c /\ jumps (F c) = jumps c) ->
  edge_info (smap_index Z.compare k InstructionCost_default F costs) r
  = edge_info costs r.
Proof.
  intros Hs HF.
  assert (Hfind : forall s,
            match smap_find Z.compare s
                    (smap_index Z.compare k InstructionCost_default F costs)
            with
            | Some c' =>
                exists c,
                  c' = F c /\
                  (smap_find Z.compare s costs = Some c \/
                   (smap_find Z.compare s costs = None /\
                    c = InstructionCost_default)) \/
                  smap_find Z.compare s costs = Some c'
            | None => smap_find Z.compare s costs = None
            end).
  { intros s. destruct (Z.eq_dec s k) as [->|Hne].
    - rewrite smap_find_index_sorted by exact Hs.
      destruct (smap_find Z.compare k costs) as [c|]; cbn [default].
      + exists c. left. split; [reflexivity|left; reflexivity].
      + exists InstructionCost_default. left. split; [reflexivity|].
        right. split; reflexivity.
    - rewrite smap_find_index_other by exact Hne.
      destruct (smap_find Z.compare s costs) as [c|]; [|reflexivity].
      exists c. right. reflexivity. }
  destruct r as [s t|s t]; cbn [edge_info]; specialize (Hfind s);
    destruct (smap_find Z.compare s
                (smap_index Z.compare k InstructionCost_default F costs))
      as [c'|].
  - destruct Hfind as (c & [[-> [Hc|[Hc ->]]]|Hc]); rewrite Hc.
    + rewrite (proj1 (HF c)). reflexivity.
    + rewrite (proj1 (HF _)). reflexivity.
    + reflexivity.
  - rewrite Hfind. reflexivity.
  - destruct Hfind as (c & [[-> [Hc|[Hc ->]]]|Hc]); rewrite Hc.
    + rewrite (proj2 (HF c)). reflexivity.
    + rewrite (proj2 (HF _)). reflexivity.
    + reflexivity.
  - rewrite Hfind. reflexivity.
Qed.

Lemma Forall_snd_smap_index {V : Type} (P : V -> Prop) (k : Z) (d : V)
    (f : V -> V) (m : list (Z * V)) :
  Forall (fun e => P (snd e)) m -> (forall v, P v -> P (f v)) -> P (f d) ->
  Forall (fun e => P (snd e)) (smap_index Z.compare k d f m).
Proof.
  intros Hm Hf Hd. induction Hm as [|[k' v] m Hv Hm IH].
  - cbn [smap_index]. constructor; [exact Hd|constructor].
  - cbn [smap_index]. destruct (Z.compare k k').
    + constructor; [apply Hf, Hv|exact Hm].
    + constructor; [exact Hd|]. constructor; [exact Hv|exact Hm].
    + constructor; [exact Hv|exact IH].
Qed.

Lemma Forall_snd_smap_adjust {V : Type} (P : V -> Prop) (k : Z)
    (f : V -> V) (m : list (Z * V)) :
  Forall (fun e => P (snd e)) m -> (forall v, P v -> P (f v)) ->
  Forall (fun e => P (snd e)) (smap_adjust Z.compare k f m).
Proof.
  intros Hm Hf. induction Hm as [|[k' v] m Hv Hm IH].
  - constructor.
  - cbn [smap_adjust]. destruct (Z.compare k k').
    + constructor; [apply Hf, Hv|exact Hm].
    + constructor; [exact Hv|exact IH].
    + constructor; [exact Hv|exact IH].
Qed.

Lemma edge_maps_sorted_update_ref (r : CallInfoRef) (f : CallInfo -> CallInfo)
    (costs : list (Z * InstructionCost)) :
  edge_maps_sorted costs -> edge_maps_sorted (update_ref r f costs).
Proof.
  intros H. unfold edge_maps_sorted.
  destruct r as [s t|s t]; cbn [update_ref];
    apply (Forall_snd_smap_adjust
             (fun c => StronglySorted Z.lt (map fst (calls c)) /\
                       StronglySorted Z.lt (map fst (jumps c))));
    try exact H; intros c [Hc Hj]; cbn [set_calls set_jumps calls jumps];
    rewrite smap_adjust_keys; auto.
Qed.

Lemma edge_maps_sorted_bump_stack (f : CallInfo -> CallInfo)
    (stack : list CallFrame) (costs : list (Z * InstructionCost)) :
  edge_maps_sorted costs -> edge_maps_sorted (bump_stack f stack costs).
Proof.
  rewrite bump_stack_fold. generalize (flat_map frame_refs stack).
  intros l. revert costs. induction l as [|r l IH]; intros costs H.
  - exact H.
  - cbn [fold_left]. apply IH, edge_maps_sorted_update_ref, H.
Qed.

Lemma edge_maps_sorted_index (k : Z) (F : InstructionCost -> InstructionCost)
    (costs : list (Z * InstructionCost)) :
  edge_maps_sorted costs ->
  (forall c,
     StronglySorted Z.lt (map fst (calls c)) /\
     StronglySorted Z.lt (map fst (jumps c)) ->
     StronglySorted Z.lt (map fst (calls (F c))) /\
     StronglySorted Z.lt (map fst (jumps (F c)))) ->
  edge_maps_sorted (smap_index Z.compare k InstructionCost_default F costs).
Proof.
  intros H HF. unfold edge_maps_sorted.
  apply (Forall_snd_smap_index
           (fun c => StronglySorted Z.lt (map fst (calls c)) /\
                     StronglySorted Z.lt (map fst (jumps c))));
    [exact H|exact HF|].
  apply HF. split; constructor.
Qed.

Lemma ProcessEvent_edge_maps_sorted (event : Z) (d : ProfilerData) :
  edge_maps_sorted (instruction_costs_ d) ->
  edge_maps_sorted (instruction_costs_ (ProcessEvent event d)).
Proof.
  intros Hs. unfold ProcessEvent.
  destruct (EventType_of_code (GetEventType event)) as [[]|]; try exact Hs.
  - unfold ProcessInstructionExecute.
    destruct (call_stack_ d); cbn [instruction_costs_];
      apply edge_maps_sorted_bump_stack.
    + apply edge_maps_sorted_index.
      * apply edge_maps_sorted_index; [exact Hs|]. intros x H. exact H.
      * intros x [Hc Hj]. cbn [set_calls calls jumps].
        split; [apply smap_index_sorted, Hc|exact Hj].
    + apply edge_maps_sorted_index; [exact Hs|]. intros x H. exact H.
  - unfold ProcessJump. cbn [instruction_costs_].
    apply edge_maps_sorted_index; [exact Hs|].
    intros x [Hc Hj]. cbn [set_jumps calls jumps].
    split; [exact Hc|apply smap_index_sorted, Hj].
  - unfold ProcessCall. cbn [instruction_costs_].
    apply edge_maps_sorted_index; [exact Hs|].
    intros x [Hc Hj]. cbn [set_calls calls jumps].
    split; [apply smap_index_sorted, Hc|exact Hj].
  - rewrite (proj1 (ProcessReturn_frame _ d)). exact Hs.
  - unfold ProcessDataRead. cbn [instruction_costs_].
    apply edge_maps_sorted_bump_stack.
    destruct (negb _); [|exact Hs].
    apply edge_maps_sorted_index; [exact Hs|]. intros x H. exact H.
  - unfold ProcessDataWrite. cbn [instruction_costs_].
    apply edge_maps_sorted_bump_stack.
    destruct (negb _); [|exact Hs].
    apply edge_maps_sorted_index; [exact Hs|]. intros x H. exact H.
  - unfold ProcessInstrRead. cbn [instruction_costs_].
    apply edge_maps_sorted_bump_stack.
    destruct (negb _); [|exact Hs].
    apply edge_maps_sorted_index; [exact Hs|]. intros x H. exact H.
Qed.

Lemma reachable_edge_maps_sorted (d0 : ProfilerData) (evs : list Z) :
  edge_maps_sorted (instruction_costs_ (ProcessBuffer evs (Clear d0))).
Proof.
  unfold ProcessBuffer.
  assert (H0 : edge_maps_sorted (instruction_costs_ (Clear d0)))
    by constructor.
  revert H0. generalize (Clear d0).
  induction evs as [|e evs IH]; intros d H; [exact H|].
  cbn [fold_left]. apply IH, ProcessEvent_edge_maps_sorted, H.
Qed.

Lemma edge_maps_sorted_find (costs : list (Z * InstructionCost)) (k : Z)
    (c : InstructionCost) :
  edge_maps_sorted costs -> smap_find Z.compare k costs = Some c ->
  StronglySorted Z.lt (map fst (calls c)) /\
  StronglySorted Z.lt (map fst (jumps c)).
Proof.
  intros H Hf. unfold edge_maps_sorted in H.
  rewrite List.Forall_forall in H.
  induction costs as [|[k' v] m IH]; [discriminate|].
  cbn [smap_find] in Hf. destruct (Z.compare k k').
  - injection Hf as <-. apply (H (k', v)). left. reflexivity.
  - apply IH; [|exact Hf]. intros x Hx. apply H. right. exact Hx.
  - apply IH; [|exact Hf]. intros x Hx. apply H. right. exact Hx.
Qed.

(** [instruction_costs_[pc].calls[addr]] updated by [g]. *)
Lemma edge_info_index_calls (pc addr : Z) (g : CallInfo -> CallInfo)
    (costs : list (Z * InstructionCost)) (r : CallInfoRef) :
  StronglySorted Z.lt (map fst costs) -> edge_maps_sorted costs ->
  edge_info
    (smap_index Z.compare pc InstructionCost_default
       (fun c =>
          set_calls (smap_index Z.compare addr CallInfo_default g (calls c)) c)
       costs) r
  = if CallInfoRef_eqb r (CallRef pc addr)
    then Some (g (default CallInfo_default (edge_info costs r)))
    else edge_info costs r.
Proof.
  intros Hs He.
  assert (Hc0 : StronglySorted Z.lt
                  (map fst
                     (calls (default InstructionCost_default
                               (smap_find Z.compare pc costs))))).
  { destruct (smap_find Z.compare pc costs) as [c|] eqn:Hc; cbn [default].
    - apply (edge_maps_sorted_find _ _ _ He Hc).
    - constructor. }
  destruct r as [s t|s t]; cbn [edge_info CallInfoRef_eqb].
  - destruct (Z.eqb_spec s pc) as [->|Hne]; cbn [andb].
    + rewrite smap_find_index_sorted by exact Hs. cbn [set_calls calls].
      destruct (Z.eqb_spec t addr) as [->|Hnt].
      * rewrite smap_find_index_sorted by exact Hc0.
        destruct (smap_find Z.compare pc costs); reflexivity.
      * rewrite smap_find_index_other by exact Hnt.
        destruct (smap_find Z.compare pc costs); reflexivity.
    + rewrite smap_find_index_other by exact Hne. reflexivity.
  - destruct (Z.eq_dec s pc) as [->|Hne].
    + rewrite smap_find_index_sorted by exact Hs. cbn [set_calls jumps].
      destruct (smap_find Z.compare pc costs); reflexivity.
    + rewrite smap_find_index_other by exact Hne. reflexivity.
Qed.

(** [instruction_costs_[pc].jumps[addr]] updated by [g]. *)
Lemma edge_info_index_jumps (pc addr : Z) (g : CallInfo -> CallInfo)
    (costs : list (Z * InstructionCost)) (r : CallInfoRef) :
  StronglySorted Z.lt (map fst costs) -> edge_maps_sorted costs ->
  edge_info
    (smap_index Z.compare pc InstructionCost_default
       (fun c =>
          set_jumps (smap_index Z.compare addr CallInfo_default g (jumps c)) c)
       costs) r
  = if CallInfoRef_eqb r (JumpRef pc addr)
    then Some (g (default CallInfo_default (edge_info costs r)))
    else edge_info costs r.
Proof.
  intros Hs He.
  assert (Hc0 : StronglySorted Z.lt
                  (map fst
                     (jumps (default InstructionCost_default
                               (smap_find Z.compare pc costs))))).
  { destruct (smap_find Z.compare pc costs) as [c|] eqn:Hc; cbn [default].
    - apply (edge_maps_sorted_find _ _ _ He Hc).
    - constructor. }
  destruct r as [s t|s t]; cbn [edge_info CallInfoRef_eqb].
  - destruct (Z.eq_dec s pc) as [->|Hne].
    + rewrite smap_find_index_sorted by exact Hs. cbn [set_jumps calls].
      destruct (smap_find Z.compare pc costs); reflexivity.
    + rewrite smap_find_index_other by exact Hne. reflexivity.
  - destruct (Z.eqb_spec s pc) as [->|Hne]; cbn [andb].
    + rewrite smap_find_index_sorted by exact Hs. cbn [set_jumps jumps].
      destruct (Z.eqb_spec t addr) as [->|Hnt].
      * rewrite smap_find_index_sorted by exact Hc0.
        destruct (smap_find Z.compare pc costs); reflexivity.
      * rewrite smap_find_index_other by exact Hnt.
        destruct (smap_find Z.compare pc costs); reflexivity.
    + rewrite smap_find_index_other by exact Hne. reflexivity.
Qed.

(** X7: a data read, data write or instruction fetch is charged to the
    current instruction, not to the address of the event.  On a table in
    key order, the matching self counter of the entry at current-pc goes up
    by one (the entry being created when absent) and all other self
    counters of all addresses stay; when current-pc is the reserved root
    address 0 no self counter changes and no entry is created.  Whatever
    current-pc is, 0 included, the matching inclusive counter of every
    edge goes up by one for each reference the frames of the stack hold to
    it, so at current-pc 0 the access is still charged to the active
    edges.  The call stack, current-pc and the instruction counter are
    unchanged. *)
Theorem data_access_charged_to_current_pc (addr : Z) (d : ProfilerData) :
  StronglySorted Z.lt (map fst (instruction_costs_ d)) ->
  let pc := current_pc_ d in
  let old :=
    default InstructionCost_default
      (smap_find Z.compare pc (instruction_costs_ d)) in
  let charged (d' : ProfilerData) (now : Z * Z * Z * Z)
      (incr : CallInfo -> CallInfo) : Prop :=
    call_stack_ d' = call_stack_ d /\
    current_pc_ d' = pc /\
    total_instructions_ d' = total_instructions_ d /\
    (forall a,
       counters_at (instruction_costs_ d') a
       = if (a =? pc) && negb (pc =? 0) then Some now
         else counters_at (instruction_costs_ d) a) /\
    (forall r,
       edge_info (instruction_costs_ d') r
       = option_map (Nat.iter (refs_to r (call_stack_ d)) incr)
           (edge_info (instruction_costs_ d) r)) in
  charged (ProcessDataRead addr d)
    (self_cost old, instr_fetches old, u64 (data_reads old + 1),
     data_writes old)
    incr_inclusive_data_reads /\
  charged (ProcessDataWrite addr d)
    (self_cost old, instr_fetches old, data_reads old,
     u64 (data_writes old + 1))
    incr_inclusive_data_writes /\
  charged (ProcessInstrRead addr d)
    (self_cost old, u64 (instr_fetches old + 1), data_reads old,
     data_writes old)
    incr_inclusive_instr_fetches.
Proof.
  intros Hs pc old charged. subst charged. cbv beta.
  assert (Hkeep : forall F r,
            (forall c, calls (F c) = calls c /\ jumps (F c) = jumps c) ->
            edge_info
              (if negb (pc =? 0)
               then smap_index Z.compare pc InstructionCost_default F
                      (instruction_costs_ d)
               else instruction_costs_ d) r
            = edge_info (instruction_costs_ d) r).
  { intros F r HF. destruct (negb (pc =? 0)); [|reflexivity].
    apply edge_info_index_counters; assumption. }
  assert (Hself : forall F a,
            counters_at
              (if negb (pc =? 0)
               then smap_index Z.compare pc InstructionCost_default F
                      (instruction_costs_ d)
               else instruction_costs_ d) a
            = if (a =? pc) && negb (pc =? 0) then Some (counters (F old))
              else counters_at (instruction_costs_ d) a).
  { intros F a. destruct (Z.eqb_spec pc 0) as [H0|H0]; cbn [negb].
    - rewrite andb_false_r. reflexivity.
    - rewrite andb_true_r, counters_at_index by exact Hs. reflexivity. }
  unfold ProcessDataRead, ProcessDataWrite, ProcessInstrRead.
  cbn [call_stack_ current_pc_ total_instructions_ instruction_costs_].
  fold pc.
  split; [|split];
    (split; [reflexivity|]; split; [reflexivity|]; split; [reflexivity|];
     split;
     [intros a; rewrite counters_at_bump_stack, Hself; reflexivity
     |intros r; rewrite edge_info_bump_stack, Hkeep;
      [reflexivity|intros c; split; reflexivity]]).
Qed.

(** X27: an executed instruction is charged to its own address only.  In
    every state reached from a cleared profiler, [ProcessInstructionExecute]
    sets current-pc, adds one to the instruction counter and to the
    [self_cost] of the address (creating the entry when absent) and leaves
    the four self counters of every other address as they are, except that
    an entry for the root address 0 comes into being when the stack was
    empty; a non-empty stack keeps its frames and an empty one gets the
    synthesized root frame. *)
Theorem ProcessInstructionExecute_charges_its_address
    (d0 : ProfilerData) (evs : list Z) (addr : Z) :
  let d := ProcessBuffer evs (Clear d0) in
  let d' := ProcessInstructionExecute addr d in
  let old :=
    default InstructionCost_default
      (smap_find Z.compare addr (instruction_costs_ d)) in
  current_pc_ d' = addr /\
  total_instructions_ d' = u64 (total_instructions_ d + 1) /\
  call_stack_ d'
  = match call_stack_ d with
    | [] => [mkCallFrame addr 0 0 (CallRef 0 addr) []]
    | _ :: _ => call_stack_ d
    end /\
  counters_at (instruction_costs_ d') addr
  = Some (u64 (self_cost old + 1), instr_fetches old, data_reads old,
          data_writes old) /\
  forall a, a <> addr ->
    counters_at (instruction_costs_ d') a
    = match call_stack_ d, a =? 0 with
      | [], true =>
          Some (counters
                  (default InstructionCost_default
                     (smap_find Z.compare 0 (instruction_costs_ d))))
      | _, _ => counters_at (instruction_costs_ d) a
      end.
Proof.
  intros d d' old.
  pose proof (reachable_costs_sorted d0 evs) as Hs. fold d in Hs.
  assert (Hs1 : StronglySorted Z.lt
                  (map fst
                     (smap_index Z.compare addr InstructionCost_default
                        (fun c => set_self_cost (u64 (self_cost c + 1)) c)
                        (instruction_costs_ d))))
    by (apply smap_index_sorted, Hs).
  subst d'. unfold ProcessInstructionExecute.
  destruct (call_stack_ d) as [|fr st] eqn:Hst;
    cbn [current_pc_ total_instructions_ call_stack_ instruction_costs_ app].
  - split; [reflexivity|]. split; [reflexivity|]. split; [reflexivity|].
    split.
    + rewrite counters_at_bump_stack, counters_at_index by exact Hs1.
      destruct (Z.eqb_spec addr 0) as [->|Hne].
      * rewrite smap_find_index_sorted by exact Hs. reflexivity.
      * rewrite counters_at_index by exact Hs. rewrite Z.eqb_refl.
        reflexivity.
    + intros a Ha.
      rewrite counters_at_bump_stack, counters_at_index by exact Hs1.
      destruct (Z.eqb_spec a 0) as [->|Hne].
      * rewrite smap_find_index_other by exact Ha. reflexivity.
      * rewrite counters_at_index by exact Hs.
        destruct (Z.eqb_spec a addr); [contradiction|reflexivity].
  - split; [reflexivity|]. split; [reflexivity|]. split; [reflexivity|].
    split.
    + rewrite counters_at_bump_stack, counters_at_index by exact Hs.
      rewrite Z.eqb_refl. reflexivity.
    + intros a Ha.
      rewrite counters_at_bump_stack, counters_at_index by exact Hs.
      destruct (Z.eqb_spec a addr); [contradiction|reflexivity].
Qed.

(** X28: a call and a jump count their own edge only.  In every state
    reached from a cleared profiler, [ProcessCall] adds one to the call
    count of the edge from current-pc to the target, except that a call
    made at the root address 0 is not counted, and [ProcessJump] adds one
    to the count of the jump edge from current-pc to the target; the edge
    is created with zero counters when absent, its inclusive counters stay,
    and every other call or jump edge of the table is left as it is. *)
Theorem ProcessCall_and_ProcessJump_count_their_edge
    (d0 : ProfilerData) (evs : list Z) (addr off : Z) :
  let d := ProcessBuffer evs (Clear d0) in
  let pc := current_pc_ d in
  let costs := instruction_costs_ d in
  let old r := default CallInfo_default (edge_info costs r) in
  edge_info (instruction_costs_ (ProcessCall addr off d)) (CallRef pc addr)
  = Some (if pc =? 0 then old (CallRef pc addr)
          else incr_call_count (old (CallRef pc addr))) /\
  (forall r, r <> CallRef pc addr ->
     edge_info (instruction_costs_ (ProcessCall addr off d)) r
     = edge_info costs r) /\
  edge_info (instruction_costs_ (ProcessJump addr d)) (JumpRef pc addr)
  = Some (incr_call_count (old (JumpRef pc addr))) /\
  (forall r, r <> JumpRef pc addr ->
     edge_info (instruction_costs_ (ProcessJump addr d)) r
     = edge_info costs r).
Proof.
  intros d pc costs old.
  pose proof (reachable_costs_sorted d0 evs) as Hs.
  pose proof (reachable_edge_maps_sorted d0 evs) as He.
  fold d in Hs, He. fold costs in Hs, He.
  unfold ProcessCall, ProcessJump. cbn [instruction_costs_].
  fold pc costs.
  assert (Hneq : forall r r', r <> r' -> CallInfoRef_eqb r r' = false).
  { intros r r' Hne. destruct (CallInfoRef_eqb r r') eqn:E; [|reflexivity].
    apply CallInfoRef_eqb_eq in E. contradiction. }
  assert (Hrefl : forall r, CallInfoRef_eqb r r = true).
  { intros r. apply CallInfoRef_eqb_eq. reflexivity. }
  split; [|split; [|split]].
  - rewrite edge_info_index_calls by assumption. rewrite Hrefl.
    destruct (pc =? 0); reflexivity.
  - intros r Hr. rewrite edge_info_index_calls by assumption.
    rewrite (Hneq _ _ Hr). reflexivity.
  - rewrite edge_info_index_jumps by assumption. rewrite Hrefl. reflexivity.
  - intros r Hr. rewrite edge_info_index_jumps by assumption.
    rewrite (Hneq _ _ Hr). reflexivity.
Qed.

(** X29: inclusive costs are added once per reference.  In every state
    reached from a cleared profiler with a non-empty stack, an executed
    instruction adds one to [inclusive_instructions] of an edge for every
    reference the frames of the stack hold to it, as a frame's call edge or
    as one of its active jumps (so an edge held by two frames of a
    recursion is charged twice), and leaves edges without a reference as
    they are; with an empty stack only the synthesized root edge from 0 to
    the address is counted and charged.  A data read, data write or
    instruction fetch does the same with its own inclusive counter. *)
Theorem inclusive_costs_added_once_per_reference
    (d0 : ProfilerData) (evs : list Z) (addr : Z) (r : CallInfoRef) :
  let d := ProcessBuffer evs (Clear d0) in
  let costs := instruction_costs_ d in
  let times f := option_map (Nat.iter (refs_to r (call_stack_ d)) f) in
  edge_info (instruction_costs_ (ProcessInstructionExecute addr d)) r
  = match call_stack_ d with
    | [] =>
        if CallInfoRef_eqb r (CallRef 0 addr)
        then Some (incr_inclusive_instructions
                     (incr_call_count
                        (default CallInfo_default (edge_info costs r))))
        else edge_info costs r
    | _ :: _ => times incr_inclusive_instructions (edge_info costs r)
    end /\
  edge_info (instruction_costs_ (ProcessDataRead addr d)) r
  = times incr_inclusive_data_reads (edge_info costs r) /\
  edge_info (instruction_costs_ (ProcessDataWrite addr d)) r
  = times incr_inclusive_data_writes (edge_info costs r) /\
  edge_info (instruction_costs_ (ProcessInstrRead addr d)) r
  = times incr_inclusive_instr_fetches (edge_info costs r).
Proof.
  intros d costs times.
  pose proof (reachable_costs_sorted d0 evs) as Hs.
  pose proof (reachable_edge_maps_sorted d0 evs) as He.
  fold d in Hs, He. fold costs in Hs, He.
  assert (Hkeep : forall k F,
            (forall c, calls (F c) = calls c /\ jumps (F c) = jumps c) ->
            edge_info
              (if negb (k =? 0)
               then smap_index Z.compare k InstructionCost_default F costs
               else costs) r
            = edge_info costs r).
  { intros k F HF. destruct (negb (k =? 0)); [|reflexivity].
    apply edge_info_index_counters; assumption. }
  split; [|split; [|split]].
  - unfold ProcessInstructionExecute. fold costs.
    destruct (call_stack_ d) as [|fr st] eqn:Hst; cbn [instruction_costs_ app].
    + rewrite edge_info_bump_stack.
      rewrite edge_info_index_calls.
      * rewrite edge_info_index_counters
          by (try exact Hs; intros c; split; reflexivity).
        unfold refs_to. cbn [flat_map frame_refs call_info jump_refs map app
                             count_refs].
        destruct (CallInfoRef_eqb r (CallRef 0 addr)); [reflexivity|].
        destruct (edge_info costs r); reflexivity.
      * apply smap_index_sorted, Hs.
      * apply edge_maps_sorted_index; [exact He|]. intros c H. exact H.
    + rewrite edge_info_bump_stack.
      rewrite edge_info_index_counters
        by (try exact Hs; intros c; split; reflexivity).
      reflexivity.
  - unfold ProcessDataRead. cbn [instruction_costs_].
    rewrite edge_info_bump_stack. fold costs. rewrite Hkeep; [reflexivity|].
    intros c. split; reflexivity.
  - unfold ProcessDataWrite. cbn [instruction_costs_].
    rewrite edge_info_bump_stack. fold costs. rewrite Hkeep; [reflexivity|].
    intros c. split; reflexivity.
  - unfold ProcessInstrRead. cbn [instruction_costs_].
    rewrite edge_info_bump_stack. fold costs. rewrite Hkeep; [reflexivity|].
    intros c. split; reflexivity.
Qed.

(** ** Callgrind serializer: the call lines *)

Lemma write_call_text (st : string * Z) (call : FunctionCall) :
  fst (write_call st call) = (fst st ++ call_text call)%string.
Proof.
  unfold write_call, call_text. cbn [fst].
  rewrite put_costs_text, cycles_of_formula. unfold put, cost_fields_text.
  rewrite !append_assoc. reflexivity.
Qed.

Lemma write_call_step_extends (st : string * Z) (call : FunctionCall) :
  exists s, fst (write_call st call) = (fst st ++ s)%string.
Proof. exists (call_text call). apply write_call_text. Qed.

Lemma build_calls_by_address_fold (fc : FunctionCall)
    (cs : list FunctionCall) (m : list (Z * list FunctionCall)) :
  StronglySorted Z.lt (map fst m) ->
  In fc cs \/
  (exists l, smap_find Z.compare (caller_address fc) m = Some l /\ In fc l) ->
  exists l,
    smap_find Z.compare (caller_address fc)
      (fold_left
         (fun m call =>
            smap_index Z.compare (caller_address call) []
              (fun v => v ++ [call]) m)
         cs m) = Some l /\
    In fc l.
Proof.
  revert m. induction cs as [|call cs IH]; intros m Hs H.
  - destruct H as [[]|H]. exact H.
  - cbn [fold_left]. apply IH; [apply smap_index_sorted, Hs|].
    destruct H as [[->|Hin]|(l & Hl & Hfc)].
    + right. rewrite smap_find_index_sorted by exact Hs.
      eexists. split; [reflexivity|]. apply in_or_app. right. left.
      reflexivity.
    + left. exact Hin.
    + right. destruct (Z.eq_dec (caller_address fc) (caller_address call))
        as [Heq|Hne].
      * rewrite <- Heq. rewrite smap_find_index_sorted by exact Hs.
        rewrite Hl. cbn [default]. eexists. split; [reflexivity|].
        apply in_or_app. left. exact Hfc.
      * rewrite smap_find_index_other by exact Hne. exists l. auto.
Qed.

Lemma build_calls_by_address_find (fc : FunctionCall)
    (cs : list FunctionCall) :
  In fc cs ->
  exists l,
    smap_find Z.compare (caller_address fc) (build_calls_by_address cs)
    = Some l /\ In fc l.
Proof.
  intros H. unfold build_calls_by_address.
  apply build_calls_by_address_fold; [constructor|left; exact H].
Qed.

(** A call recorded at the address of one of the function's instructions is
    written, whatever the function. *)
Lemma WriteBody_call (out : string) (data : GroupedProfilerData) (e : Z)
    (f : GroupedFunction) (fc : FunctionCall) (c : InstructionCost) :
  In (e, f) (GetFunctions data) -> In fc (fn_calls f) ->
  In (caller_address fc, c) (instructions f) ->
  exists pre post,
    WriteBody out data = (pre ++ call_text fc ++ post)%string.
Proof.
  intros Hf Hfc Hi. unfold WriteBody.
  destruct (GetFunctions data) as [|fe0 fs0] eqn:Efs; [contradiction|].
  rewrite <- Efs in *. clear Efs fe0 fs0.
  destruct (fold_left_reaches write_function (fun s => s)
              (GetFunctions data) (e, f) out write_function_extends Hf)
    as (out0 & rest & ->).
  unfold write_function. cbn [fst snd].
  destruct (fold_left_reaches
    (write_instruction (build_calls_by_address (fn_calls f))) fst
    (instructions f) (caller_address fc, c)
    (put (put (put out0 "fn=0x") (hex e)) nl, 0)
    (write_instruction_extends _) Hi) as (st0 & rest2 & ->).
  destruct (build_calls_by_address_find fc (fn_calls f) Hfc)
    as (l & Hl & Hin).
  unfold write_instruction. cbn [fst snd]. rewrite Hl.
  destruct (fold_left_reaches write_call fst l fc
              (put_costs
                 (put_position (fst st0) (snd st0) (caller_address fc))
                 (cycles_of (self_cost c) (instr_fetches c) (data_reads c)
                    (data_writes c))
                 (self_cost c) (data_reads c) (data_writes c),
               caller_address fc)
              write_call_step_extends Hin) as (st1 & rest3 & ->).
  rewrite write_call_text.
  exists (fst st1). eexists. unfold put. rewrite !append_assoc. reflexivity.
Qed.

(** X30: every call edge the grouper finds is in the file.  For every
    [FunctionCall] of a function in the output of [ConvertToGroupedData],
    the text written by [WriteToFile] holds its three lines: the called
    function, the call count with the target, and the caller's address
    with the cycles computed from the inclusive counters, the inclusive
    instructions, data reads and data writes. *)
Theorem grouped_calls_are_written (data : ProfilerData) (e : Z)
    (f : GroupedFunction) (fc : FunctionCall) :
  let g := ConvertToGroupedData data in
  In (e, f) (GetFunctions g) -> In fc (fn_calls f) ->
  exists pre post, WriteToFile g = (pre ++ call_text fc ++ post)%string.
Proof.
  intros g Hf Hfc.
  destruct (ConvertToGroupedData_built data) as [_ Hb].
  pose proof Hfc as Hfc'. rewrite (Hb e f Hf) in Hfc'.
  apply build_function_calls in Hfc'.
  destruct Hfc' as (a & c & Hac & (t & ci & v & _ & Heq & _)).
  assert (Ha : caller_address fc = a) by (rewrite Heq; reflexivity).
  rewrite <- Ha in Hac.
  unfold WriteToFile. eapply WriteBody_call; eassumption.
Qed.

(** ** The further properties at concrete inputs *)

(** X1 at a call recorded at 0x123456 with return offset 2, and at a call
    recorded at 0x3000 with return offset 16, whose word 0x30003000 decodes
    as a return. *)
Lemma recorded_word_round_trip_witness :
  let r := RecordCall 0x123456 2 in
  let r16 := RecordCall 0x3000 16 in
  offset_fits r /\
  EventType_of_code (GetEventType (recorded_word r)) = Some CALL /\
  GetEventAddress (recorded_word r) = 0x123456 /\
  GetReturnOffset (recorded_word r) = 2 /\
  recorded_word r16 = 0x30003000 /\
  GetEventAddress (recorded_word r16) = 0x3000 /\
  GetReturnOffset (recorded_word r16) = 0 /\
  EventType_of_code (GetEventType (recorded_word r16)) = Some RETURN.
Proof.
  intros r r16.
  assert (Hfits : offset_fits r) by (cbn; lia).
  destruct (recorded_word_round_trip r) as (Ha & _ & Hf).
  destruct (Hf Hfits) as [Ht Ho].
  destruct (recorded_word_round_trip r16) as (Ha16 & [Ho16 Ht16] & _).
  split; [exact Hfits|]. split; [exact Ht|]. split; [exact Ha|].
  split; [exact (Ho 0x123456 2 eq_refl)|]. split; [reflexivity|].
  split; [exact Ha16|]. split; [exact Ho16|].
  rewrite Ht16. reflexivity.
Defined.

(** X2 at the same call, on a cleared profiler. *)
Lemma ProcessEvent_of_recorded_word_witness :
  let r := RecordCall 0x123456 2 in
  offset_fits r /\
  ProcessEvent (recorded_word r) ProfilerData_new
  = ProcessCall 0x123456 2 ProfilerData_new.
Proof.
  intros r.
  assert (Hfits : offset_fits r) by (cbn; lia).
  split; [exact Hfits|].
  exact (ProcessEvent_of_recorded_word r ProfilerData_new Hfits).
Defined.

(** X4 at a word of type 7, after one instruction. *)
Lemma ProcessEvent_ignores_unknown_type_witness :
  let d :=
    ProcessBuffer [recorded_word (RecordInstructionExecute 0x1000)]
      ProfilerData_new in
  7 <= GetEventType 0x70001234 /\ ProcessEvent 0x70001234 d = d.
Proof.
  intros d.
  assert (Hty : 7 <= GetEventType 0x70001234) by (vm_compute; discriminate).
  split; [exact Hty|].
  exact (ProcessEvent_ignores_unknown_type 0x70001234 d Hty).
Defined.

(** X6 with three frames, expecting 0, 0x1002 and 0x3002: the return to
    0x1002 pops the two upper frames. *)
Lemma ProcessReturn_unwinds_to_innermost_match_witness :
  let d :=
    ProcessBuffer
      (map recorded_word
         [RecordInstructionExecute 0x1000; RecordCall 0x3000 0;
          RecordInstructionExecute 0x3000; RecordCall 0x4000 0;
          RecordInstructionExecute 0x4000])
      ProfilerData_new in
  exists root fr top,
    call_stack_ d = [root] ++ fr :: [top] /\
    return_address fr = 0x1002 /\
    return_address top = 0x3002 /\
    call_stack_ (ProcessReturn 0x1002 d) = [root] /\
    current_pc_ (ProcessReturn 0x1002 d) = 0x1002.
Proof.
  intros d.
  destruct (call_stack_ d) as [|root [|fr [|top [|extra st]]]] eqn:Hst;
    try (vm_compute in Hst; discriminate).
  assert (Hfr : return_address fr = 0x1002).
  { vm_compute in Hst. injection Hst as _ <- _. reflexivity. }
  assert (Htop : return_address top = 0x3002).
  { vm_compute in Hst. injection Hst as _ _ <-. reflexivity. }
  assert (Hne : [top] <> []) by discriminate.
  assert (Hno : forall f, In f [top] -> return_address f <> 0x1002).
  { intros f [<-|[]]. rewrite Htop. discriminate. }
  destruct (ProcessReturn_unwinds_to_innermost_match d 0x1002 [root] [top] fr
              Hst Hne Hfr Hno) as [Hstack Hpc].
  exists root, fr, top. repeat split; assumption.
Defined.

(** X7 after one instruction at 0x1000, where a data read of 0x5000 is
    charged to 0x1000, and after a further jump to 0, where the data read
    changes no self counter and is still charged to the root edge from 0 to
    0x1000. *)
Lemma data_access_charged_to_current_pc_witness :
  let d :=
    ProcessBuffer [recorded_word (RecordInstructionExecute 0x1000)]
      ProfilerData_new in
  let d0 :=
    ProcessBuffer
      (map recorded_word [RecordInstructionExecute 0x1000; RecordJump 0])
      ProfilerData_new in
  StronglySorted Z.lt (map fst (instruction_costs_ d)) /\
  counters_at (instruction_costs_ (ProcessDataRead 0x5000 d)) 0x1000
  = Some (1, 0, 1, 0) /\
  counters_at (instruction_costs_ (ProcessDataRead 0x5000 d)) 0x5000 = None /\
  StronglySorted Z.lt (map fst (instruction_costs_ d0)) /\
  current_pc_ d0 = 0 /\
  (forall a,
     counters_at (instruction_costs_ (ProcessDataRead 0x5000 d0)) a
     = counters_at (instruction_costs_ d0) a) /\
  option_map inclusive_data_reads
    (edge_info (instruction_costs_ d0) (CallRef 0 0x1000)) = Some 0 /\
  option_map inclusive_data_reads
    (edge_info (instruction_costs_ (ProcessDataRead 0x5000 d0))
       (CallRef 0 0x1000)) = Some 1.
Proof.
  intros d d0.
  assert (Hs : StronglySorted Z.lt (map fst (instruction_costs_ d))).
  { vm_compute. repeat constructor. }
  assert (Hs0 : StronglySorted Z.lt (map fst (instruction_costs_ d0))).
  { vm_compute. repeat constructor. }
  destruct (data_access_charged_to_current_pc 0x5000 d Hs)
    as ((_ & _ & _ & Hread & _) & _ & _).
  destruct (data_access_charged_to_current_pc 0x5000 d0 Hs0)
    as ((_ & _ & _ & Hread0 & Hedge0) & _ & _).
  split; [exact Hs|]. split; [rewrite (Hread 0x1000); reflexivity|].
  split; [rewrite (Hread 0x5000); reflexivity|].
  split; [exact Hs0|]. split; [reflexivity|].
  split.
  - intros a. rewrite (Hread0 a).
    change (current_pc_ d0) with 0. cbn [Z.eqb negb].
    rewrite andb_false_r. reflexivity.
  - split; [reflexivity|]. rewrite Hedge0. reflexivity.
Defined.

(** X11 on a short run with a call and a return. *)
Lemma reachable_state_passes_CheckProfilerInvariants_witness :
  let evs :=
    map recorded_word
      [RecordInstructionExecute 0x1000; RecordCall 0x3000 0;
       RecordInstructionExecute 0x3000; RecordReturn 0x1002;
       RecordInstructionExecute 0x1002] in
  Z.of_nat (length evs) < 2 ^ 64 /\
  CheckProfilerInvariants (ProcessBuffer evs (Clear ProfilerData_new)) = true.
Proof.
  intros evs.
  assert (Hlen : Z.of_nat (length evs) < 2 ^ 64) by reflexivity.
  split; [exact Hlen|].
  exact (reachable_state_passes_CheckProfilerInvariants ProfilerData_new evs
           Hlen).
Defined.
(** X12 on the table left by two instructions with a call between them. *)
Lemma grouped_function_totals_witness :
  let data :=
    ProcessBuffer
      (map recorded_word
         [RecordInstructionExecute 0x1000; RecordDataRead 0x5000;
          RecordCall 0x3000 0; RecordInstructionExecute 0x3000])
      ProfilerData_new in
  exists f,
    In (0x3000, f) (GetFunctions (ConvertToGroupedData data)) /\
    total_self_instructions f = sum_field self_cost (instructions f) /\
    total_self_data_reads f = sum_field data_reads (instructions f).
Proof.
  intros data.
  assert (Hin : exists f,
            In (0x3000, f) (GetFunctions (ConvertToGroupedData data))).
  { vm_compute. eexists. find_in. }
  destruct Hin as [f Hf].
  destruct (grouped_function_totals data 0x3000 f Hf) as (H1 & _ & H3 & _).
  exists f. split; [exact Hf|]. split; [exact H1|exact H3].
Defined.

(** X15 at a function with two instructions. *)
Lemma function_block_starts_absolute_witness :
  let c := mkInstructionCost 2 1 0 0 [] [] in
  let f :=
    mkGroupedFunction 0x1000 [(0x1000, c); (0x1002, c)] [] 4 2 0 0 in
  instructions f = (0x1000, c) :: [(0x1002, c)] /\
  exists tail,
    write_function EmptyString (0x1000, f)
    = ("fn=0x" ++ hex 0x1000 ++ nl ++ "0x" ++ hex 0x1000
         ++ cost_fields_text 5 2 0 0 ++ tail)%string.
Proof.
  intros c f. split; [reflexivity|].
  exact (function_block_starts_absolute 0x1000 f 0x1000 c [(0x1002, c)]
           eq_refl).
Defined.

(** X17 and X18 on a run with one call: 0x1000 calls 0x3000. *)
Lemma grouped_calls_resolve_witness :
  let data :=
    ProcessBuffer
      (map recorded_word
         [RecordInstructionExecute 0x1000; RecordCall 0x3000 0;
          RecordInstructionExecute 0x3000])
      ProfilerData_new in
  exists f fc f',
    In (0x1000, f) (GetFunctions (ConvertToGroupedData data)) /\
    In fc (fn_calls f) /\
    caller_address fc = 0x1000 /\
    In (target_function fc, f') (GetFunctions (ConvertToGroupedData data)).
Proof.
  intros data.
  assert (Hin : exists f fc,
            In (0x1000, f) (GetFunctions (ConvertToGroupedData data)) /\
            In fc (fn_calls f) /\ caller_address fc = 0x1000).
  { vm_compute. eexists. eexists. split; [find_in|].
    split; [find_in|reflexivity]. }
  destruct Hin as (f & fc & Hf & Hfc & Hca).
  destruct (grouped_calls_resolve data 0x1000 f fc Hf Hfc)
    as (_ & _ & _ & _ & _ & _ & _ & _ & f' & Hf').
  exists f, fc, f'. repeat split; assumption.
Defined.

Lemma recorded_call_becomes_FunctionCall_witness :
  let data :=
    ProcessBuffer
      (map recorded_word
         [RecordInstructionExecute 0x1000; RecordCall 0x3000 0;
          RecordInstructionExecute 0x3000])
      ProfilerData_new in
  let costs := instruction_costs_ data in
  exists c ci f,
    In (0x1000, c) costs /\ In (0x3000, ci) (calls c) /\
    In 0x3000 (map fst costs) /\
    In (owning_function (function_entries costs) 0x1000, f)
       (GetFunctions (ConvertToGroupedData data)) /\
    In (make_FunctionCall 0x1000
          (owning_function (function_entries costs) 0x3000) ci)
       (fn_calls f).
Proof.
  intros data costs.
  assert (Hin : exists c ci,
            In (0x1000, c) costs /\ In (0x3000, ci) (calls c) /\
            In 0x3000 (map fst costs)).
  { vm_compute. eexists. eexists. split; [find_in|].
    split; find_in. }
  destruct Hin as (c & ci & Hc & Hci & Hk).
  destruct (recorded_call_becomes_FunctionCall data 0x1000 0x3000 c ci
              Hc Hci Hk) as (f & Hf & _ & Hfc).
  exists c, ci, f. repeat split; assumption.
Defined.

(** X19 at the scenario of a jump over a call target: 0x1000 is called,
    and a jump goes from 0x0900 to 0x1100. *)
Lemma crossing_jump_becomes_FunctionCall_witness :
  let data :=
    ProcessBuffer
      (map recorded_word
         [RecordInstructionExecute 0x0900; RecordCall 0x1000 0;
          RecordInstructionExecute 0x1000; RecordReturn 0x0902;
          RecordInstructionExecute 0x0900; RecordJump 0x1100;
          RecordInstructionExecute 0x1100])
      ProfilerData_new in
  let costs := instruction_costs_ data in
  let c :=
    default InstructionCost_default (smap_find Z.compare 0x0900 costs) in
  let ci := default CallInfo_default (smap_find Z.compare 0x1100 (jumps c)) in
  In (0x0900, c) costs /\ In (0x1100, ci) (jumps c) /\
  recorded_call_target costs 0x1000 /\
  Z.min 0x0900 0x1100 < 0x1000 < Z.max 0x0900 0x1100 /\
  In 0x1100 (map fst costs) /\
  In 0x1100 (function_entries costs) /\
  exists f, In (make_FunctionCall 0x0900 0x1100 ci) (fn_calls f).
Proof.
  intros data costs c ci.
  assert (Hc : In (0x0900, c) costs) by (vm_compute; find_in).
  assert (Hci : In (0x1100, ci) (jumps c)) by (vm_compute; find_in).
  assert (Ht : recorded_call_target costs 0x1000).
  { exists 0x0900, c,
      (default CallInfo_default (smap_find Z.compare 0x1000 (calls c))).
    split; [exact Hc|]. vm_compute. find_in. }
  assert (Hb : Z.min 0x0900 0x1100 < 0x1000 < Z.max 0x0900 0x1100)
    by (vm_compute; split; reflexivity).
  assert (Hk : In 0x1100 (map fst costs)) by (vm_compute; find_in).
  destruct (crossing_jump_becomes_FunctionCall data 0x0900 0x1100 0x1000 c ci
              Hc Hci Ht Hb Hk) as (He & f & _ & _ & Hfc & _).
  split; [exact Hc|]. split; [exact Hci|]. split; [exact Ht|].
  split; [exact Hb|]. split; [exact Hk|]. split; [exact He|].
  exists f. exact Hfc.
Defined.
(** X22 to X24 and X26 on a schedule of three recorder calls with a step
    of the consumer thread among them. *)
Lemma reachable_steps_never_undefined_witness :
  let acts :=
    [Emit (RecordInstructionExecute 0x1000); Emit (RecordCall 0x3000 0);
     Consume; Emit (RecordInstructionExecute 0x3000)] in
  exists m m1 m2,
    run acts Machine_started = Done m /\
    run_action Consume m = Done m1 /\
    run_action (Emit (RecordReturn 0x1002)) m = Done m2.
Proof.
  intros acts.
  destruct (run acts Machine_started) as [m| |] eqn:Hrun;
    try (vm_compute in Hrun; discriminate).
  destruct (reachable_steps_never_undefined acts m Hrun) as [[m1 Hc] He].
  destruct (He (RecordReturn 0x1002)) as [[m2 Hd]|[Hb _]].
  - exists m, m1, m2. repeat split; assumption.
  - exfalso. revert Hb.
    replace m with
      (match run acts Machine_started with Done x => x | _ => m end)
      by (rewrite Hrun; reflexivity).
    vm_compute. discriminate.
Defined.

Lemma events_processed_in_recorded_order_witness :
  let acts :=
    [Emit (RecordInstructionExecute 0x1000); Emit (RecordCall 0x3000 0);
     Consume; Emit (RecordInstructionExecute 0x3000)] in
  exists m processed rest,
    run acts Machine_started = Done m /\
    m_data m = ProcessBuffer processed ProfilerData_new /\
    pending m = Some rest /\
    processed ++ rest
    = map recorded_word
        [RecordInstructionExecute 0x1000; RecordCall 0x3000 0;
         RecordInstructionExecute 0x3000].
Proof.
  intros acts.
  destruct (run acts Machine_started) as [m| |] eqn:Hrun;
    try (vm_compute in Hrun; discriminate).
  destruct (events_processed_in_recorded_order acts m Hrun)
    as (processed & rest & Hd & Hp & Hall).
  exists m, processed, rest. repeat split; assumption.
Defined.

Lemma pool_buffers_conserved_witness :
  let acts :=
    [Emit (RecordInstructionExecute 0x1000); Emit (RecordCall 0x3000 0);
     Consume; Emit (RecordInstructionExecute 0x3000)] in
  exists m,
    run acts Machine_started = Done m /\
    Permutation (in_use m) (seq 0 BUFFER_POOL_SIZE).
Proof.
  intros acts.
  destruct (run acts Machine_started) as [m| |] eqn:Hrun;
    try (vm_compute in Hrun; discriminate).
  exists m. split; [reflexivity|].
  exact (pool_buffers_conserved acts m Hrun).
Defined.

Lemma cleanup_then_drain_processes_everything_witness :
  let acts :=
    [Emit (RecordInstructionExecute 0x1000); Emit (RecordCall 0x3000 0);
     Consume; Emit (RecordInstructionExecute 0x3000)] in
  exists m w' m',
    run acts Machine_started = Done m /\
    CleanupClient (m_world m) = Done w' /\
    run (repeat Consume (backlog (mkMachine w' (m_at m) (m_data m))))
        (mkMachine w' (m_at m) (m_data m)) = Done m' /\
    pending m' = Some [] /\
    m_data m'
    = ProcessBuffer
        (map recorded_word
           [RecordInstructionExecute 0x1000; RecordCall 0x3000 0;
            RecordInstructionExecute 0x3000])
        ProfilerData_new.
Proof.
  intros acts.
  destruct (run acts Machine_started) as [m| |] eqn:Hrun;
    try (vm_compute in Hrun; discriminate).
  destruct (cleanup_then_drain_processes_everything acts m Hrun)
    as (w' & m' & Hc & Hd & Hp & Hdata).
  exists m, w', m'. repeat split; assumption.
Defined.

(** X25 and X21 at the capacity of the pool: after 131071 recorder calls
    with the consumer thread idle, the next call waits, and it completes
    after three steps of the consumer. *)
Lemma waiting_emitter_resumes_witness :
  let acts :=
    map Emit (repeat (RecordInstructionExecute 0x1000) (Z.to_nat 131071)) in
  let r := RecordJump 0x2000 in
  exists m m3 m4,
    run acts Machine_started = Done m /\
    run_action (Emit r) m = Blocked /\
    run [Consume; Consume; Consume] m = Done m3 /\
    run_action (Emit r) m3 = Done m4.
Proof.
  intros acts r.
  assert (Hlen : Z.of_nat
                   (length (repeat (RecordInstructionExecute 0x1000)
                              (Z.to_nat 131071)))
                 = Z.of_nat BUFFER_POOL_SIZE * BUFFER_SIZE - 1).
  { rewrite repeat_length. rewrite Z2Nat.id by lia. reflexivity. }
  destruct (emit_only_capacity
              (repeat (RecordInstructionExecute 0x1000) (Z.to_nat 131071)) r)
    as (m & Hrun & _ & Hiff); [rewrite Hlen; lia|].
  pose proof (proj2 Hiff Hlen) as Hblocked.
  destruct (waiting_emitter_resumes acts m r Hrun Hblocked)
    as (m3 & m4 & H3 & H4).
  exists m, m3, m4. repeat split; assumption.
Defined.

Lemma emitter_capacity_without_consumer_witness :
  let rs := [RecordInstructionExecute 0x1000; RecordCall 0x3000 0] in
  Z.of_nat (length rs) < Z.of_nat BUFFER_POOL_SIZE * BUFFER_SIZE /\
  exists m,
    run (map Emit rs) Machine_started = Done m /\
    m_data m = ProfilerData_new /\
    run_action (Emit (RecordReturn 0x1002)) m <> Blocked.
Proof.
  intros rs.
  assert (Hlen : Z.of_nat (length rs) < Z.of_nat BUFFER_POOL_SIZE * BUFFER_SIZE)
    by reflexivity.
  destruct (emitter_capacity_without_consumer rs (RecordReturn 0x1002) Hlen)
    as (m & Hrun & Hd & Hiff).
  split; [exact Hlen|]. exists m. split; [exact Hrun|]. split; [exact Hd|].
  intros Hb. apply Hiff in Hb. vm_compute in Hb. discriminate.
Defined.

(** X30 on the run in which 0x1000 calls 0x3000. *)
Lemma grouped_calls_are_written_witness :
  let data :=
    ProcessBuffer
      (map recorded_word
         [RecordInstructionExecute 0x1000; RecordCall 0x3000 0;
          RecordInstructionExecute 0x3000])
      ProfilerData_new in
  let g := ConvertToGroupedData data in
  exists f fc pre post,
    In (0x1000, f) (GetFunctions g) /\
    In fc (fn_calls f) /\
    target_function fc = 0x3000 /\
    WriteToFile g = (pre ++ call_text fc ++ post)%string.
Proof.
  intros data g.
  assert (Hin : exists f fc,
            In (0x1000, f) (GetFunctions g) /\
            In fc (fn_calls f) /\ target_function fc = 0x3000).
  { vm_compute. eexists. eexists. split; [find_in|].
    split; [find_in|reflexivity]. }
  destruct Hin as (f & fc & Hf & Hfc & Ht).
  destruct (grouped_calls_are_written data 0x1000 f fc Hf Hfc)
    as (pre & post & Hw).
  exists f, fc, pre, post. repeat split; assumption.
Defined.
